(** * Tax GPT: retrieval, session store and stream renderer

    A shallow embedding of the core of the assistant: the paragraph
    chunker and the keyword retriever ([TaxGPT.createChunks],
    [TaxGPT.findRelevantChunks]), the line formatter and table renderer
    ([formatLine], [renderTable], [renderMarkdown], [formatStreamChunk]),
    the stream renderer ([TaxGPT.streamResponse]) and the session store
    ([SessionManager]).

    JavaScript strings are sequences of UTF-16 code units; they are
    modelled as lists of code units ([text]).  Arrays are lists, [push]
    is [++ [x]].  Numbers that index or count are in [Z] or [nat]. *)

From Stdlib Require Import ZArith NArith List Ascii String Bool Lia Permutation Sorted.
From Stdlib Require Import DecimalFacts DecimalN.
From stdpp Require Import gmap list fin_maps.
Import ListNotations.

Local Open Scope Z_scope.

(** ** JavaScript strings and arrays *)

Module JS.

(** A UTF-16 code unit. *)
Definition char : Type := N.
Definition text : Type := list char.

(** A literal of the source, as its code units (ASCII literals only). *)
Definition str (s : string) : text := List.map N_of_ascii (list_ascii_of_string s).

Definition NL : char := 10%N.
Definition CR : char := 13%N.
Definition ESC : char := 27%N.

Definition char_eqb (a b : char) : bool := N.eqb a b.

Fixpoint text_eqb (a b : text) : bool :=
  match a, b with
  | [], [] => true
  | x :: a', y :: b' => char_eqb x y && text_eqb a' b'
  | _, _ => false
  end.

(** [Array.prototype.slice] and [String.prototype.slice]: a negative
    index counts from the end, and both ends are clamped. *)
Definition rel_index (len : nat) (i : Z) : nat :=
  if i <? 0 then Z.to_nat (Z.max (Z.of_nat len + i) 0)
  else Z.to_nat (Z.min i (Z.of_nat len)).

Definition slice {A : Type} (l : list A) (start stop : Z) : list A :=
  let from := rel_index (List.length l) start in
  let to := rel_index (List.length l) stop in
  firstn (to - from)%nat (skipn from l).

(** [slice(start)] with the end left out. *)
Definition slice_from {A : Type} (l : list A) (start : Z) : list A :=
  skipn (rel_index (List.length l) start) l.

Definition len (s : text) : Z := Z.of_nat (List.length s).

(** Truthiness of a string: the empty string is falsy. *)
Definition truthy (s : text) : bool :=
  match s with [] => false | _ :: _ => true end.

Fixpoint startsWith (s p : text) {struct p} : bool :=
  match p, s with
  | [], _ => true
  | x :: p', y :: s' => char_eqb x y && startsWith s' p'
  | _ :: _, [] => false
  end.

Definition endsWith (s p : text) : bool := startsWith (rev s) (rev p).

(** [s.includes(needle)]: [needle] occurs at some position of [s]. *)
Fixpoint includes (s needle : text) : bool :=
  startsWith s needle ||
  match s with
  | [] => false
  | _ :: s' => includes s' needle
  end.

(** White space and line terminators of ECMAScript, as used by [trim]
    and by the class [\s]. *)
Definition is_space (c : char) : bool :=
  ((9 <=? c) && (c <=? 13) || (c =? 32) || (c =? 160) || (c =? 5760)
   || (8192 <=? c) && (c <=? 8202) || (c =? 8232) || (c =? 8233)
   || (c =? 8239) || (c =? 8287) || (c =? 12288) || (c =? 65279))%N.

(** Line terminators: the characters the regular expression [.] rejects. *)
Definition is_line_terminator (c : char) : bool :=
  ((c =? 10) || (c =? 13) || (c =? 8232) || (c =? 8233))%N.

Definition is_digit (c : char) : bool := ((48 <=? c) && (c <=? 57))%N.

Fixpoint dropWhile {A : Type} (f : A -> bool) (l : list A) : list A :=
  match l with
  | [] => []
  | x :: l' => if f x then dropWhile f l' else l
  end.

Fixpoint takeWhile {A : Type} (f : A -> bool) (l : list A) : list A :=
  match l with
  | [] => []
  | x :: l' => if f x then x :: takeWhile f l' else []
  end.

Definition trimStart (s : text) : text := dropWhile is_space s.
Definition trimEnd (s : text) : text := rev (dropWhile is_space (rev s)).
Definition trim (s : text) : text := trimEnd (trimStart s).

(** [toLowerCase] on the letters A to Z; code units outside ASCII are
    left as they are (the model is exact on ASCII text). *)
Definition lower_char (c : char) : char :=
  if ((65 <=? c) && (c <=? 90))%N then (c + 32)%N else c.

Definition toLowerCase (s : text) : text := List.map lower_char s.

(** Put a character in front of the first segment of a split. *)
Definition cons_head (c : char) (segs : list text) : list text :=
  match segs with
  | h :: t => (c :: h) :: t
  | [] => [[c]]
  end.

(** [s.split(sep)] for a non-empty separator string: occurrences are
    found left to right and do not overlap.  [skip] counts the
    characters of a separator just found that are still to be passed. *)
Fixpoint split_go (sep : text) (skip : nat) (s : text) : list text :=
  match s with
  | [] => [[]]
  | c :: s' =>
      match skip with
      | S k => split_go sep k s'
      | O =>
          if startsWith s sep
          then [] :: split_go sep (List.length sep - 1) s'
          else cons_head c (split_go sep 0 s')
      end
  end.

Definition split (s sep : text) : list text := split_go sep 0 s.

(** [s.split(/\s+/)]: the separators are the maximal runs of white
    space; a leading or trailing run leaves an empty first or last token. *)
Fixpoint split_ws_go (in_sep : bool) (s : text) : list text :=
  match s with
  | [] => [[]]
  | c :: s' =>
      if is_space c
      then (if in_sep then split_ws_go true s' else [] :: split_ws_go true s')
      else cons_head c (split_ws_go false s')
  end.

Definition split_ws (s : text) : list text := split_ws_go false s.

(** [array.join(sep)]. *)
Fixpoint join (sep : text) (parts : list text) : text :=
  match parts with
  | [] => []
  | [x] => x
  | x :: rest => x ++ sep ++ join sep rest
  end.

(** [s.replace(pat, rep)] with a string pattern: the first occurrence only. *)
Fixpoint replace_first (s pat rep : text) : text :=
  if startsWith s pat then rep ++ skipn (List.length pat) s
  else match s with
       | [] => []
       | c :: s' => c :: replace_first s' pat rep
       end.

(** [s.replace(re, ...)] with a global regular expression.  [m] is the
    matcher of the expression at the current position: it gives the
    replacement and the (positive) length of the match.  After a match
    the search resumes behind it. *)
Fixpoint replace_go (m : text -> option (text * nat)) (skip : nat) (s : text) : text :=
  match s with
  | [] => []
  | c :: s' =>
      match skip with
      | S k => replace_go m k s'
      | O =>
          match m s with
          | Some (rep, n) => rep ++ replace_go m (n - 1) s'
          | None => c :: replace_go m 0 s'
          end
      end
  end.

Definition replace_all (m : text -> option (text * nat)) (s : text) : text :=
  replace_go m 0 s.

(** [array.sort(cmp)]: the sort is stable (ECMAScript 2019); it is
    modelled by insertion from the right, where an element goes in front
    of the first one it does not have to follow. *)
Fixpoint sort_insert {A : Type} (cmp : A -> A -> Z) (x : A) (l : list A) : list A :=
  match l with
  | [] => [x]
  | y :: l' => if cmp x y <=? 0 then x :: l else y :: sort_insert cmp x l'
  end.

Fixpoint sort {A : Type} (cmp : A -> A -> Z) (l : list A) : list A :=
  match l with
  | [] => []
  | x :: l' => sort_insert cmp x (sort cmp l')
  end.

(** [s.repeat(n)] and [s.padEnd(n)] (padding with spaces). *)
Definition repeat_text (s : text) (n : Z) : text :=
  List.concat (List.repeat s (Z.to_nat n)).

Definition padEnd (s : text) (n : Z) : text :=
  s ++ List.repeat 32%N (Z.to_nat (n - len s)).

(** [Math.max(...xs)] and [Math.min] on integers; the maximum of no
    argument is minus infinity, which the callers never meet. *)
Definition max_list (xs : list Z) : option Z :=
  match xs with
  | [] => None
  | x :: xs' => Some (fold_left Z.max xs' x)
  end.

End JS.

Import JS.

(** ** Configuration (config.js) *)

Definition MAX_HISTORY_TURNS : Z := 10.

(** ** Terminal styles (the chalk library, colour level 3) *)

Module Chalk.

(** A styler has an opening and a closing escape sequence. *)
Record styler : Type := mkStyler { open : text; close : text }.

(** A chain of stylers, the outermost first: [chalk.bold.underline] is
    [[bold; underline]]. *)
Definition style : Type := list styler.

Definition sgr (code : string) : text := ESC :: str "[" ++ str code ++ str "m".

Definition bold : styler := mkStyler (sgr "1") (sgr "22").
Definition italic : styler := mkStyler (sgr "3") (sgr "23").
Definition underline : styler := mkStyler (sgr "4") (sgr "24").
(** [chalk.hex(...)]: a 24-bit foreground colour. *)
Definition hex (rgb : string) : styler := mkStyler (sgr ("38;2;" ++ rgb)) (sgr "39").

Definition openAll (st : style) : text := List.concat (List.map open st).
Definition closeAll (st : style) : text := List.concat (List.map close (rev st)).

(** Every occurrence of [sub] is followed by [replacer]. *)
Definition stringReplaceAll (s sub replacer : text) : text :=
  replace_all
    (fun t => if startsWith t sub
              then Some (sub ++ replacer, List.length sub) else None) s.

(** Every line feed (with the carriage return in front of it, if any)
    is put between [prefix] and [postfix]. *)
Fixpoint stringEncaseCRLF (s prefix postfix : text) : text :=
  match s with
  | [] => []
  | c :: s' =>
      if char_eqb c NL then prefix ++ [NL] ++ postfix ++ stringEncaseCRLF s' prefix postfix
      else if char_eqb c CR then
        match s' with
        | d :: s'' =>
            if char_eqb d NL
            then prefix ++ [CR; NL] ++ postfix ++ stringEncaseCRLF s'' prefix postfix
            else c :: stringEncaseCRLF s' prefix postfix
        | [] => [c]
        end
      else c :: stringEncaseCRLF s' prefix postfix
  end.

(** Applying a style to a string: the empty string stays empty; closing
    sequences already in the string re-open the style behind them; the
    style is closed before each line break and opened again after it. *)
Definition applyStyle (st : style) (s : text) : text :=
  if truthy s then
    let s1 :=
      if includes s [ESC]
      then fold_left (fun acc sty => stringReplaceAll acc (close sty) (open sty)) (rev st) s
      else s in
    let s2 :=
      if includes s1 [NL]
      then stringEncaseCRLF s1 (closeAll st) (openAll st) else s1 in
    openAll st ++ s2 ++ closeAll st
  else [].

End Chalk.

(** The colour scheme [C] of config.js, and the icons. *)
Module C.
Definition agent : Chalk.style := [Chalk.hex "255;255;255"].
Definition agentLabel : Chalk.style := [Chalk.hex "0;122;255"].
Definition dim : Chalk.style := [Chalk.hex "99;99;102"].
Definition highlight : Chalk.style := [Chalk.hex "52;199;89"].
End C.

Module ICONS.
(** U+25CF, the black circle. *)
Definition agent : text := [9679%N].
End ICONS.

(** ** Line formatter and table renderer (formatter.js) *)

Module Formatter.

Definition DOLLAR : char := 36%N.
Definition PERCENT : char := 37%N.
Definition STAR : char := 42%N.
Definition PIPE : char := 124%N.
Definition SPACE : char := 32%N.
(** U+2022, the bullet. *)
Definition BULLET : char := 8226%N.

(** The replacement pattern [C.highlight('$1')]: the style is applied to
    the two characters of the pattern, and the match is put in their place. *)
Definition highlight_group (m : text) : text :=
  replace_first (Chalk.applyStyle C.highlight (str "$1")) (str "$1") m.

(** [/(\$[\d,]+)/]: a dollar sign and the longest run of digits and commas. *)
Definition match_dollars (s : text) : option (text * nat) :=
  match s with
  | c :: r =>
      if char_eqb c DOLLAR then
        match takeWhile (fun d => is_digit d || char_eqb d 44%N) r with
        | [] => None
        | run => Some (highlight_group (c :: run), S (List.length run))
        end
      else None
  | [] => None
  end.

(** [/(\d+%)/]: a run of digits with a percent sign behind it. *)
Definition match_percent (s : text) : option (text * nat) :=
  match takeWhile is_digit s with
  | [] => None
  | run =>
      match skipn (List.length run) s with
      | p :: _ =>
          if char_eqb p PERCENT
          then Some (highlight_group (run ++ [p]), S (List.length run))
          else None
      | [] => None
      end
  end.

(** The rest of a lazy group [(.+?)] followed by [close]: the shortest
    run of characters other than line terminators up to [close]. *)
Fixpoint lazy_more (close s : text) : option text :=
  if startsWith s close then Some []
  else match s with
       | [] => None
       | c :: s' =>
           if is_line_terminator c then None
           else option_map (cons c) (lazy_more close s')
       end.

(** [(.+?)close]: the group has at least one character. *)
Definition lazy_group (close s : text) : option text :=
  match s with
  | [] => None
  | c :: s' =>
      if is_line_terminator c then None
      else option_map (cons c) (lazy_more close s')
  end.

(** [/mark(.+?)mark/] with the group handed to a style. *)
Definition match_span (mark : text) (st : Chalk.style) (s : text) : option (text * nat) :=
  if startsWith s mark then
    match lazy_group mark (skipn (List.length mark) s) with
    | Some p1 =>
        Some (Chalk.applyStyle st p1,
              (List.length mark + List.length p1 + List.length mark)%nat)
    | None => None
    end
  else None.

(** [/^\*\s/]: a star and a white-space character at the start. *)
Definition replace_bullet (s : text) : text :=
  match s with
  | c :: w :: rest =>
      if char_eqb c STAR && is_space w
      then (Chalk.applyStyle C.dim [BULLET; SPACE] ++ [SPACE]) ++ rest
      else s
  | _ => s
  end.

(** [/^marks\s+(.+)$/]: the group of a header line, if the line is one.
    The white space is taken greedily; when nothing follows it, its last
    character is given back to the group. *)
Definition match_header (marks s : text) : option text :=
  if startsWith s marks then
    let r := skipn (List.length marks) s in
    let ws := takeWhile is_space r in
    let body := dropWhile is_space r in
    match ws with
    | [] => None
    | _ :: _ =>
        match body with
        | _ :: _ =>
            if forallb (fun c => negb (is_line_terminator c)) body
            then Some body else None
        | [] =>
            if (2 <=? List.length ws)%nat && negb (is_line_terminator (List.last ws 0%N))
            then Some [List.last ws 0%N] else None
        end
    end
  else None.

Definition replace_header (marks : text) (st : Chalk.style) (s : text) : text :=
  match match_header marks s with
  | Some p1 => Chalk.applyStyle st p1
  | None => s
  end.

Definition formatLine (t : text) : text :=
  let t := replace_all match_dollars t in
  let t := replace_all match_percent t in
  let t := replace_all (match_span (str "**") [Chalk.bold]) t in
  let t := replace_all (match_span (str "_") [Chalk.italic]) t in
  let t := replace_bullet t in
  let t := replace_header (str "###") [Chalk.bold; Chalk.underline] t in
  let t := replace_header (str "##") [Chalk.bold] t in
  t.

(** [/\x1b\[[0-9;]*m/]: an escape sequence of the terminal. *)
Definition match_ansi (s : text) : option (text * nat) :=
  match s with
  | e :: b :: r =>
      if char_eqb e ESC && char_eqb b 91%N then
        let run := takeWhile (fun d => is_digit d || char_eqb d 59%N) r in
        match skipn (List.length run) r with
        | m :: _ =>
            if char_eqb m 109%N then Some ([], (3 + List.length run)%nat) else None
        | [] => None
        end
      else None
  | _ => None
  end.

Definition strip_ansi (s : text) : text := replace_all match_ansi s.

(** The loop of [truncateWithAnsi]: [length] visible characters are out
    so far, [inAnsi] tells whether an escape sequence is being copied;
    the [break] ends the output. *)
Fixpoint truncateWithAnsi_go (maxLength length : Z) (inAnsi : bool) (s : text) : text :=
  match s with
  | [] => []
  | c :: s' =>
      let inAnsi :=
        if char_eqb c ESC && match s' with d :: _ => char_eqb d 91%N | [] => false end
        then true else inAnsi in
      if inAnsi
      then c :: truncateWithAnsi_go maxLength length (negb (char_eqb c 109%N)) s'
      else if length >=? maxLength then []
           else c :: truncateWithAnsi_go maxLength (length + 1) false s'
  end.

Definition truncateWithAnsi (t : text) (maxLength : Z) : text :=
  truncateWithAnsi_go maxLength 0 false t.

(** Box-drawing characters U+2500, U+2502, U+252C, U+253C and U+2534. *)
Definition HBAR : char := 9472%N.
Definition VBAR : char := 9474%N.
Definition TEE_DOWN : char := 9516%N.
Definition CROSS : char := 9532%N.
Definition TEE_UP : char := 9524%N.

Definition is_table_line (line : text) : bool := startsWith (trim line) [PIPE].

(** The cells of a line: split on the pipe, trimmed, empty cells dropped. *)
Definition parse_row (line : text) : list text :=
  List.filter (fun cell => len cell >? 0) (List.map trim (split line [PIPE])).

(** [/^[-:]+$/.test(cell)]. *)
Definition is_rule_cell (cell : text) : bool :=
  truthy cell && forallb (fun c => char_eqb c 45%N || char_eqb c 58%N) cell.

Definition is_separator_row (row : list text) : bool := forallb is_rule_cell row.

Definition parse_rows (tableLines : list text) : list (list text) :=
  List.filter (fun row => (0 <? List.length row)%nat) (List.map parse_row tableLines).

Definition data_rows (rows : list (list text)) : list (list text) :=
  List.filter (fun row => negb (is_separator_row row)) rows.

Definition max_or_zero (xs : list Z) : Z :=
  match max_list xs with Some m => m | None => 0 end.

Definition column_widths (dataRows : list (list text)) : list Z :=
  let colCount := max_or_zero (List.map (fun row => Z.of_nat (List.length row)) dataRows) in
  List.map
    (fun col =>
       let maxWidth :=
         max_or_zero (List.map (fun row => len (strip_ansi (nth col row []))) dataRows) in
       Z.min (maxWidth + 2) 35)
    (seq 0 (Z.to_nat colCount)).

Definition border (colWidths : list Z) (joint : char) : text :=
  str "  "
  ++ join [HBAR; joint; HBAR] (List.map (fun w => repeat_text [HBAR] w) colWidths)
  ++ [NL].

Definition header_cell (colWidths : list Z) (i : nat) (cell : text) : text :=
  let plainCell := strip_ansi cell in
  let truncated := slice plainCell 0 (nth i colWidths 0 - 2) in
  let padded := [SPACE] ++ padEnd truncated (nth i colWidths 0 - 2) ++ [SPACE] in
  Chalk.applyStyle [Chalk.bold] padded.

Definition data_cell (colWidths : list Z) (col : nat) (cell : text) : text :=
  let formatted := formatLine cell in
  let plainText := strip_ansi formatted in
  let visibleLength := len plainText in
  let targetWidth := nth col colWidths 0 - 2 in
  let truncated := truncateWithAnsi formatted targetWidth in
  let paddingNeeded := targetWidth - Z.min visibleLength targetWidth in
  let padding := if paddingNeeded >? 0 then repeat_text [SPACE] paddingNeeded else [] in
  [SPACE] ++ truncated ++ padding ++ [SPACE].

Definition table_row (cells : list text) : text :=
  str "  " ++ [VBAR] ++ join [VBAR] cells ++ [VBAR; NL].

(** The text of the table built from the rows that are left: borders, the
    first row as the header, the other rows as the body. *)
Definition draw_table (dataRows : list (list text)) : text :=
  let colWidths := column_widths dataRows in
  let headerRow := nth 0 dataRows [] in
  [NL]
  ++ border colWidths TEE_DOWN
  ++ table_row (imap (header_cell colWidths) headerRow)
  ++ border colWidths CROSS
  ++ List.concat
       (List.map (fun row => table_row (imap (data_cell colWidths) row))
                 (skipn 1 dataRows))
  ++ border colWidths TEE_UP.

(** The lines collected by the [while] loop of [renderTable]. *)
Definition table_block (lines : list text) (startIdx : nat) : list text :=
  takeWhile is_table_line (skipn startIdx lines).

(** [renderTable(lines, startIdx)]: the pair of [rendered] ([None] is
    [null]) and [endIdx]. *)
Definition renderTable (lines : list text) (startIdx : nat) : option text * nat :=
  let tableLines := table_block lines startIdx in
  let idx := (startIdx + List.length tableLines)%nat in
  if (List.length tableLines <? 2)%nat then (None, startIdx)
  else
    let rows := parse_rows tableLines in
    if (List.length rows <? 2)%nat then (None, startIdx)
    else
      let dataRows := data_rows rows in
      if (List.length dataRows =? 0)%nat then (None, startIdx)
      else (Some (draw_table dataRows), idx).

(** The loop of [renderMarkdown]: [rest] holds the lines from index [i]
    on.  When a table was rendered the index jumps to [endIdx]; [skip]
    counts the lines of the table that are still to be passed over. *)
Fixpoint renderMarkdown_go (lines : list text) (i : nat) (rest : list text) (skip : nat)
  : text :=
  match rest with
  | [] => []
  | line :: rest' =>
      match skip with
      | S k => renderMarkdown_go lines (S i) rest' k
      | O =>
          let plain := formatLine line ++ [NL] ++ renderMarkdown_go lines (S i) rest' 0 in
          if is_table_line line then
            match renderTable lines i with
            | (Some rendered, endIdx) =>
                if truthy rendered
                then rendered ++ renderMarkdown_go lines (S i) rest' (endIdx - i - 1)
                else plain
            | (None, _) => plain
            end
          else plain
      end
  end.

Definition renderMarkdown (content : text) : text :=
  let lines := split content [NL] in
  renderMarkdown_go lines 0 lines 0.

(** [formatStreamChunk(chunk, currentLine)]: the pair of [output] and
    the new [currentLine]. *)
Definition formatStreamChunk (chunk currentLine : text) : text * text :=
  let currentLine := currentLine ++ chunk in
  if includes currentLine [NL] then
    let lines := split currentLine [NL] in
    let completeLines := slice lines 0 (-1) in
    let currentLine := List.last lines [] in
    (join [NL] (List.map (fun l => str "  " ++ formatLine l) completeLines) ++ [NL],
     currentLine)
  else ([], currentLine).

End Formatter.

(** ** JSON text ([JSON.stringify(v, null, 2)] and [JSON.parse])

    Numbers are the integers.  A number literal with a fraction or an
    exponent is not read (the session store never writes one). *)

Module JSON.

#[local] Set Warnings "-register-all".

Inductive value : Type :=
| JNull
| JBool (b : bool)
| JNumber (z : Z)
| JString (s : text)
| JArray (items : list value)
| JObject (members : list (text * value)).

Definition QUOTE : char := 34%N.
Definition BACKSLASH : char := 92%N.
Definition SPACE : char := 32%N.

(** *** Writing *)

Fixpoint text_of_uint (d : Decimal.uint) : text :=
  match d with
  | Decimal.Nil => []
  | Decimal.D0 d => 48%N :: text_of_uint d
  | Decimal.D1 d => 49%N :: text_of_uint d
  | Decimal.D2 d => 50%N :: text_of_uint d
  | Decimal.D3 d => 51%N :: text_of_uint d
  | Decimal.D4 d => 52%N :: text_of_uint d
  | Decimal.D5 d => 53%N :: text_of_uint d
  | Decimal.D6 d => 54%N :: text_of_uint d
  | Decimal.D7 d => 55%N :: text_of_uint d
  | Decimal.D8 d => 56%N :: text_of_uint d
  | Decimal.D9 d => 57%N :: text_of_uint d
  end.

(** The decimal digits of a natural number, without leading zero. *)
Definition text_of_N (n : N) : text := text_of_uint (N.to_uint n).

(** [String(z)] for an integer. *)
Definition text_of_Z (z : Z) : text :=
  if z <? 0 then 45%N :: text_of_N (Z.abs_N z) else text_of_N (Z.abs_N z).

Definition hex_digit (n : N) : char :=
  (if n <? 10 then 48 + n else 87 + n)%N.

(** [\uXXXX], with lower-case digits. *)
Definition escape_unicode (c : char) : text :=
  [BACKSLASH; 117%N;
   hex_digit ((c / 4096) mod 16)%N; hex_digit ((c / 256) mod 16)%N;
   hex_digit ((c / 16) mod 16)%N; hex_digit (c mod 16)%N].

Definition is_high_surrogate (c : char) : bool := ((55296 <=? c) && (c <=? 56319))%N.
Definition is_low_surrogate (c : char) : bool := ((56320 <=? c) && (c <=? 57343))%N.

Definition quote_char (c : char) : text :=
  if char_eqb c QUOTE then [BACKSLASH; QUOTE]
  else if char_eqb c BACKSLASH then [BACKSLASH; BACKSLASH]
  else if char_eqb c 8%N then [BACKSLASH; 98%N]
  else if char_eqb c 9%N then [BACKSLASH; 116%N]
  else if char_eqb c 10%N then [BACKSLASH; 110%N]
  else if char_eqb c 12%N then [BACKSLASH; 102%N]
  else if char_eqb c 13%N then [BACKSLASH; 114%N]
  else if (c <? 32)%N then escape_unicode c
  else [c].

(** The characters of a string literal: a surrogate pair is kept, a lone
    surrogate is escaped. *)
Fixpoint quote_go (s : text) : text :=
  match s with
  | [] => []
  | c :: s' =>
      if is_high_surrogate c then
        match s' with
        | d :: s'' =>
            if is_low_surrogate d then c :: d :: quote_go s''
            else escape_unicode c ++ quote_go s'
        | [] => escape_unicode c
        end
      else if is_low_surrogate c then escape_unicode c ++ quote_go s'
      else quote_char c ++ quote_go s'
  end.

Definition quote (s : text) : text := [QUOTE] ++ quote_go s ++ [QUOTE].

Definition indent (depth : nat) : text := List.repeat SPACE (2 * depth).

(** The value at nesting depth [depth], with a gap of two spaces. *)
Fixpoint write (depth : nat) (v : value) : text :=
  match v with
  | JNull => str "null"
  | JBool true => str "true"
  | JBool false => str "false"
  | JNumber z => text_of_Z z
  | JString s => quote s
  | JArray [] => str "[]"
  | JArray items =>
      str "[" ++ [NL] ++ indent (S depth)
      ++ join (str "," ++ [NL] ++ indent (S depth)) (List.map (write (S depth)) items)
      ++ [NL] ++ indent depth ++ str "]"
  | JObject [] => str "{}"
  | JObject members =>
      str "{" ++ [NL] ++ indent (S depth)
      ++ join (str "," ++ [NL] ++ indent (S depth))
           (List.map (fun kv => quote (fst kv) ++ str ": " ++ write (S depth) (snd kv))
                     members)
      ++ [NL] ++ indent depth ++ str "}"
  end.

Definition stringify (v : value) : text := write 0 v.

(** *** Reading *)

Definition is_ws (c : char) : bool :=
  ((c =? 32) || (c =? 9) || (c =? 10) || (c =? 13))%N.

Definition skip_ws (s : text) : text := dropWhile is_ws s.

Definition hex_value (c : char) : option N :=
  (if (48 <=? c) && (c <=? 57) then Some (c - 48)
   else if (97 <=? c) && (c <=? 102) then Some (c - 87)
   else if (65 <=? c) && (c <=? 70) then Some (c - 55)
   else None)%N.

Definition unescape_simple (e : char) : option char :=
  (if e =? 34 then Some 34 else if e =? 92 then Some 92
   else if e =? 47 then Some 47 else if e =? 98 then Some 8
   else if e =? 102 then Some 12 else if e =? 110 then Some 10
   else if e =? 114 then Some 13 else if e =? 116 then Some 9
   else None)%N.

(** The characters of a string literal behind its opening quote, and
    what follows the closing quote. *)
Fixpoint read_string (s : text) : option (text * text) :=
  match s with
  | [] => None
  | c :: s' =>
      if char_eqb c QUOTE then Some ([], s')
      else if char_eqb c BACKSLASH then
        match s' with
        | [] => None
        | e :: s'' =>
            if char_eqb e 117%N then
              match s'' with
              | h1 :: h2 :: h3 :: h4 :: s5 =>
                  match hex_value h1, hex_value h2, hex_value h3, hex_value h4 with
                  | Some a, Some b, Some c', Some d =>
                      match read_string s5 with
                      | Some (t, r) => Some ((a * 4096 + b * 256 + c' * 16 + d)%N :: t, r)
                      | None => None
                      end
                  | _, _, _, _ => None
                  end
              | _ => None
              end
            else
              match unescape_simple e with
              | Some u =>
                  match read_string s'' with
                  | Some (t, r) => Some (u :: t, r)
                  | None => None
                  end
              | None => None
              end
        end
      else if (c <? 32)%N then None
      else
        match read_string s' with
        | Some (t, r) => Some (c :: t, r)
        | None => None
        end
  end.

Definition digits_value (ds : text) : N :=
  fold_left (fun acc d => (acc * 10 + (d - 48))%N) ds 0%N.

(** An integer literal: an optional minus sign and digits without a
    leading zero; a fraction or an exponent behind them is refused. *)
Definition read_number (s : text) : option (value * text) :=
  let '(neg, s1) :=
    match s with
    | c :: r => if char_eqb c 45%N then (true, r) else (false, s)
    | [] => (false, s)
    end in
  let ds := takeWhile is_digit s1 in
  let r := skipn (List.length ds) s1 in
  match ds with
  | [] => None
  | d :: ds' =>
      if char_eqb d 48%N && truthy ds' then None
      else
        match r with
        | c :: _ =>
            if char_eqb c 46%N || char_eqb c 101%N || char_eqb c 69%N then None
            else Some (JNumber (if neg then - Z.of_N (digits_value ds)
                                else Z.of_N (digits_value ds)), r)
        | [] => Some (JNumber (if neg then - Z.of_N (digits_value ds)
                               else Z.of_N (digits_value ds)), r)
        end
  end.

(** The recursive descent; [fuel] bounds the nesting and the number of
    elements met ([parse] gives it the length of the text). *)
Fixpoint read_value (fuel : nat) (s : text) : option (value * text) :=
  match fuel with
  | O => None
  | S fuel' =>
      match skip_ws s with
      | [] => None
      | c :: r =>
          if char_eqb c 123%N then
            match skip_ws r with
            | d :: r' =>
                if char_eqb d 125%N then Some (JObject [], r')
                else match read_members fuel' r with
                     | Some (ms, r'') => Some (JObject ms, r'')
                     | None => None
                     end
            | [] => None
            end
          else if char_eqb c 91%N then
            match skip_ws r with
            | d :: r' =>
                if char_eqb d 93%N then Some (JArray [], r')
                else match read_elements fuel' r with
                     | Some (vs, r'') => Some (JArray vs, r'')
                     | None => None
                     end
            | [] => None
            end
          else if char_eqb c QUOTE then
            match read_string r with
            | Some (t, r') => Some (JString t, r')
            | None => None
            end
          else if startsWith (c :: r) (str "true") then Some (JBool true, skipn 4 (c :: r))
          else if startsWith (c :: r) (str "false") then Some (JBool false, skipn 5 (c :: r))
          else if startsWith (c :: r) (str "null") then Some (JNull, skipn 4 (c :: r))
          else read_number (c :: r)
      end
  end
with read_elements (fuel : nat) (s : text) : option (list value * text) :=
  match fuel with
  | O => None
  | S fuel' =>
      match read_value fuel' s with
      | Some (v, r) =>
          match skip_ws r with
          | d :: r' =>
              if char_eqb d 44%N then
                match read_elements fuel' r' with
                | Some (vs, r'') => Some (v :: vs, r'')
                | None => None
                end
              else if char_eqb d 93%N then Some ([v], r')
              else None
          | [] => None
          end
      | None => None
      end
  end
with read_members (fuel : nat) (s : text) : option (list (text * value) * text) :=
  match fuel with
  | O => None
  | S fuel' =>
      match skip_ws s with
      | q :: r0 =>
          if char_eqb q QUOTE then
            match read_string r0 with
            | Some (k, r1) =>
                match skip_ws r1 with
                | colon :: r2 =>
                    if char_eqb colon 58%N then
                      match read_value fuel' r2 with
                      | Some (v, r) =>
                          match skip_ws r with
                          | d :: r' =>
                              if char_eqb d 44%N then
                                match read_members fuel' r' with
                                | Some (ms, r'') => Some ((k, v) :: ms, r'')
                                | None => None
                                end
                              else if char_eqb d 125%N then Some ([(k, v)], r')
                              else None
                          | [] => None
                          end
                      | None => None
                      end
                    else None
                | [] => None
                end
            | None => None
            end
          else None
      | [] => None
      end
  end.

(** [JSON.parse(s)]: [None] stands for the [SyntaxError]. *)
Definition parse (s : text) : option value :=
  match read_value (S (List.length s)) s with
  | Some (v, r) => match skip_ws r with [] => Some v | _ :: _ => None end
  | None => None
  end.

End JSON.

(** ** Session store (session.js) *)

Module Session.

Import JSON.

Record Message : Type := mkMessage
  { role : text; content : text; timestamp : text }.

Record Metadata : Type := mkMetadata
  { model : text; totalTurns : Z }.

Record Session : Type := mkSession
  { id : text;
    name : text;
    createdAt : text;
    messages : list Message;
    metadata : Metadata }.

Definition set_messages (s : Session) (ms : list Message) : Session :=
  {| id := id s; name := name s; createdAt := createdAt s;
     messages := ms; metadata := metadata s |}.

Definition set_totalTurns (s : Session) (n : Z) : Session :=
  {| id := id s; name := name s; createdAt := createdAt s;
     messages := messages s;
     metadata := {| model := model (metadata s); totalTurns := n |} |}.

(** *** The session object as a JSON value

    The session object has its properties in the order in which
    [createSession] and [addMessage] write them. *)

Definition message_to_json (m : Message) : value :=
  JObject [(str "role", JString (role m));
           (str "content", JString (content m));
           (str "timestamp", JString (timestamp m))].

Definition session_to_json (s : Session) : value :=
  JObject [(str "id", JString (id s));
           (str "name", JString (name s));
           (str "createdAt", JString (createdAt s));
           (str "messages", JArray (List.map message_to_json (messages s)));
           (str "metadata",
             JObject [(str "model", JString (model (metadata s)));
                      (str "totalTurns", JNumber (totalTurns (metadata s)))])].

Definition message_of_json (v : value) : option Message :=
  match v with
  | JObject [(k1, JString r); (k2, JString c); (k3, JString t)] =>
      if text_eqb k1 (str "role") && text_eqb k2 (str "content")
         && text_eqb k3 (str "timestamp")
      then Some (mkMessage r c t) else None
  | _ => None
  end.

Fixpoint messages_of_json (vs : list value) : option (list Message) :=
  match vs with
  | [] => Some []
  | v :: vs' =>
      match message_of_json v, messages_of_json vs' with
      | Some m, Some ms => Some (m :: ms)
      | _, _ => None
      end
  end.

(** The session a parsed value stands for.  Values of another shape
    have no counterpart among the typed sessions. *)
Definition session_of_json (v : value) : option Session :=
  match v with
  | JObject [(k1, JString i); (k2, JString n); (k3, JString c); (k4, JArray ms);
             (k5, JObject [(k6, JString mo); (k7, JNumber turns)])] =>
      if text_eqb k1 (str "id") && text_eqb k2 (str "name")
         && text_eqb k3 (str "createdAt") && text_eqb k4 (str "messages")
         && text_eqb k5 (str "metadata") && text_eqb k6 (str "model")
         && text_eqb k7 (str "totalTurns")
      then match messages_of_json ms with
           | Some ms' => Some (mkSession i n c ms' (mkMetadata mo turns))
           | None => None
           end
      else None
  | _ => None
  end.

(** *** The storage directory

    The directory [SESSIONS_DIR] is [None] when it does not exist or
    cannot be read, and otherwise maps the names of its files to their
    contents.  [path.join(SESSIONS_DIR, name)] is the entry [name] of
    the directory. *)

Record FS : Type := mkFS { sessions_dir : option (gmap text text) }.

Inductive error : Type := ENOENT.

Inductive outcome (A : Type) : Type :=
| Returned (a : A)
| Thrown (e : error).
Arguments Returned {A} a.
Arguments Thrown {A} e.

(** [fs.mkdir(SESSIONS_DIR, { recursive: true })]. *)
Definition mkdir (fs : FS) : FS :=
  match sessions_dir fs with
  | Some _ => fs
  | None => mkFS (Some ∅)
  end.

Definition readdir (fs : FS) : outcome (list text) :=
  match sessions_dir fs with
  | Some d => Returned (List.map fst (map_to_list d))
  | None => Thrown ENOENT
  end.

Definition readFile (fs : FS) (file : text) : outcome text :=
  match sessions_dir fs with
  | Some d =>
      match d !! file with
      | Some data => Returned data
      | None => Thrown ENOENT
      end
  | None => Thrown ENOENT
  end.

Definition writeFile (fs : FS) (file data : text) : outcome FS :=
  match sessions_dir fs with
  | Some d => Returned (mkFS (Some (<[file := data]> d)))
  | None => Thrown ENOENT
  end.

Definition unlink (fs : FS) (file : text) : outcome FS :=
  match sessions_dir fs with
  | Some d =>
      match d !! file with
      | Some _ => Returned (mkFS (Some (delete file d)))
      | None => Thrown ENOENT
      end
  | None => Thrown ENOENT
  end.

(** The file of a session, [`${sessionId}.json`]. *)
Definition session_file (sessionId : text) : text := sessionId ++ str ".json".

(** *** The manager *)

Record SessionManager : Type := mkManager
  { currentSession : option Session;
    sessions : list text }.

(** The state of the program: the directory and the manager object. *)
Definition World : Type := FS * SessionManager.

Definition constructor : SessionManager := mkManager None [].

Definition set_current (m : SessionManager) (s : option Session) : SessionManager :=
  mkManager s (sessions m).

Definition set_sessions (m : SessionManager) (l : list text) : SessionManager :=
  mkManager (currentSession m) l.

Section Store.

(** The collation of the host, [a.localeCompare(b)], and the
    constant [MODEL] of config.js (it is read from the environment). *)
Variable localeCompare : text -> text -> Z.
Variable MODEL : text.

Definition loadSessionsList (w : World) : World :=
  let '(fs, m) := w in
  match readdir fs with
  | Returned files =>
      (fs, set_sessions m
             (sort (fun a b => localeCompare b a)
                (List.map (fun f => replace_first f (str ".json") [])
                   (List.filter (fun f => endsWith f (str ".json")) files))))
  | Thrown _ => (fs, set_sessions m [])
  end.

(** [init()]: the two directories are made (the model keeps the
    sessions directory only), then the list is read. *)
Definition init (w : World) : World :=
  let '(fs, m) := w in
  loadSessionsList (mkdir fs, m).

Definition saveSession (w : World) : outcome unit * World :=
  let '(fs, m) := w in
  match currentSession m with
  | None => (Returned tt, w)
  | Some s =>
      match writeFile fs (session_file (id s)) (stringify (session_to_json s)) with
      | Returned fs' => (Returned tt, (fs', m))
      | Thrown e => (Thrown e, w)
      end
  end.

(** [/[:.]/g] replaced by a dash. *)
Definition dash_colons_dots (s : text) : text :=
  List.map (fun c => if char_eqb c 58%N || char_eqb c 46%N then 45%N else c) s.

(** [createSession(name)]; [now1] and [now2] are the two readings of
    [new Date().toISOString()]; a [name] that is [null] or empty gives
    the default name. *)
Definition createSession (now1 now2 : text) (name : option text) (w : World)
  : outcome Session * World :=
  let '(fs, m) := w in
  let timestamp := slice (dash_colons_dots now1) 0 19 in
  let sessionName :=
    match name with
    | Some n => if truthy n then n else str "session-" ++ timestamp
    | None => str "session-" ++ timestamp
    end in
  let s := mkSession sessionName sessionName now2 [] (mkMetadata MODEL 0) in
  match saveSession (fs, set_current m (Some s)) with
  | (Returned _, w') => (Returned s, w')
  | (Thrown e, w') => (Thrown e, w')
  end.

(** [loadSession(sessionId)]: [None] is [null].  The text [null]
    parses to the null value, which becomes the current session. *)
Definition loadSession (sessionId : text) (w : World) : option Session * World :=
  let '(fs, m) := w in
  match readFile fs (session_file sessionId) with
  | Returned data =>
      match parse data with
      | Some JNull => (None, (fs, set_current m None))
      | Some v =>
          match session_of_json v with
          | Some s => (Some s, (fs, set_current m (Some s)))
          | None => (None, w)
          end
      | None => (None, w)
      end
  | Thrown _ => (None, w)
  end.

Definition deleteSession (sessionId : text) (w : World) : bool * World :=
  let '(fs, m) := w in
  match unlink fs (session_file sessionId) with
  | Returned fs' => (true, loadSessionsList (fs', m))
  | Thrown _ => (false, w)
  end.

(** The change [addMessage] makes to the session object ([now] is
    [new Date().toISOString()]): push, recount the user turns,
    truncate to the last [MAX_HISTORY_TURNS * 2] entries. *)
Definition addMessage_session (now role content : text) (s : Session) : Session :=
  let s1 := set_messages s (messages s ++ [mkMessage role content now]) in
  let s2 := set_totalTurns s1
              (Z.of_nat (List.length
                 (List.filter (fun m => text_eqb (Session.role m) (str "user"))
                              (messages s1)))) in
  if Z.of_nat (List.length (messages s2)) >? MAX_HISTORY_TURNS * 2
  then set_messages s2 (slice_from (messages s2) (- MAX_HISTORY_TURNS * 2))
  else s2.

(** [addMessage(role, content)].  The save is not awaited: the write
    is taken to end before the next operation, and its failure is lost. *)
Definition addMessage (now role content : text) (w : World) : World :=
  let '(fs, m) := w in
  match currentSession m with
  | None => w
  | Some s =>
      snd (saveSession (fs, set_current m (Some (addMessage_session now role content s))))
  end.

Definition getRecentMessages (count : Z) (w : World) : list Message :=
  match currentSession (snd w) with
  | None => []
  | Some s => slice_from (messages s) (- count * 2)
  end.

End Store.

End Session.

(** ** Chunker and retriever (ai.js, class TaxGPT) *)

Module TaxGPT.

(** The paragraph delimiter, two line feeds. *)
Definition PARA : text := [NL; NL].

(** One turn of the loop of [createChunks] over the paragraphs; the
    state is the array [chunks] and the buffer [currentChunk]. *)
Definition createChunks_step (chunkSize : Z) (st : list text * text) (para : text)
  : list text * text :=
  let '(chunks, currentChunk) := st in
  if (len currentChunk + len para >? chunkSize) && (len currentChunk >? 0)
  then (chunks ++ [trim currentChunk], para)
  else (chunks, currentChunk ++ PARA ++ para).

Definition createChunks (t : text) (chunkSize : Z) : list text :=
  let paragraphs := split t PARA in
  let '(chunks, currentChunk) :=
    fold_left (createChunks_step chunkSize) paragraphs ([], []) in
  if truthy (trim currentChunk) then chunks ++ [trim currentChunk] else chunks.

Record Scored : Type := mkScored
  { chunk : text; score : Z; idx : nat }.

(** The body of the [map] callback of [findRelevantChunks]: the score
    of one chunk, accumulated in the order of the source. *)
Definition chunk_score (queryLower : text) (keywords : list text) (chunk : text) : Z :=
  let chunkLower := toLowerCase chunk in
  let score := 0 in
  let score := if includes chunkLower queryLower then score + 10 else score in
  let score :=
    fold_left (fun score kw => if includes chunkLower kw then score + 2 else score)
              keywords score in
  let score :=
    if includes chunk (str "Table") || includes chunk (str "$")
    then score + 1 else score in
  score.

Definition keywords_of (queryLower : text) : list text :=
  List.filter (fun w => len w >? 3) (split_ws queryLower).

Definition score_all (chunks : list text) (query : text) : list Scored :=
  let queryLower := toLowerCase query in
  let keywords := keywords_of queryLower in
  imap (fun idx chunk => mkScored chunk (chunk_score queryLower keywords chunk) idx)
       chunks.

(** [chunks] is the field [this.chunks]. *)
Definition findRelevantChunks (chunks : list text) (query : text) (maxChunks : Z)
  : list text :=
  List.map chunk
    (slice (sort (fun a b => score b - score a) (score_all chunks query))
           0 maxChunks).

(** *** The stream renderer

    A stream is the list of the [content] fields of its chunks (a chunk
    without content has the empty string).  [out] is the list of the
    strings written to the standard output. *)

Record StreamState : Type := mkStream
  { fullContent : text;
    lines : list text;
    currentLine : text;
    out : list text }.

Definition emit_line (line : text) : text :=
  Chalk.applyStyle C.agent (str "  ") ++ Formatter.formatLine line ++ [NL].

(** One turn of the [for await] loop of [streamResponse]. *)
Definition stream_step (st : StreamState) (content : text) : StreamState :=
  if truthy content then
    let fullContent := fullContent st ++ content in
    if includes content [NL] then
      let parts := split (currentLine st ++ content) [NL] in
      let complete := firstn (List.length parts - 1) parts in
      mkStream fullContent (lines st ++ complete) (List.last parts [])
               (out st ++ List.map emit_line complete)
    else
      mkStream fullContent (lines st) (currentLine st ++ content) (out st)
  else st.

Definition stream_start : StreamState :=
  mkStream [] [] []
    [[NL] ++ Chalk.applyStyle C.agentLabel (str "  " ++ ICONS.agent ++ str " Tax GPT")
      ++ [NL]].

(** The remaining partial line, if any, is written. *)
Definition stream_flush (st : StreamState) : StreamState :=
  if truthy (currentLine st)
  then mkStream (fullContent st) (lines st ++ [currentLine st]) []
                (out st ++ [emit_line (currentLine st)])
  else st.

(** A response with a pipe is drawn again with the tables. *)
Definition stream_redraw (st : StreamState) : StreamState :=
  if includes (fullContent st) [Formatter.PIPE] then
    let lineCount := Z.of_nat (List.length (lines st)) + 2 in
    mkStream (fullContent st) (lines st) (currentLine st)
      (out st
       ++ [ESC :: str "[" ++ JSON.text_of_Z lineCount ++ str "A";
           ESC :: str "[0J";
           Chalk.applyStyle C.agent (Formatter.renderMarkdown (fullContent st))])
  else st.

(** [streamResponse(stream)]: what is written, and the text returned. *)
Definition streamResponse (stream : list text) : list text * text :=
  let st := stream_redraw (stream_flush (fold_left stream_step stream stream_start)) in
  (out st, fullContent st).

End TaxGPT.

(** ** Prompt assembly (ai.js, method askQuestion of class TaxGPT) *)

Module Ask.

(** The constant of config.js. *)
Definition MAX_CONTEXT_CHARS : Z := 120000.

(** A message of the request sent to the completion service. *)
Record ChatMessage : Type := mkChat { chat_role : text; chat_content : text }.

(** An error of the completion service: its HTTP status, if it has one,
    and its message. *)
Record ApiError : Type := mkApiError { status : option Z; message : text }.

(** [s.substring(0, n)] for [n >= 0]. *)
Definition substring0 (s : text) (n : nat) : text := firstn n s.

(** The separator of the chunks of the context. *)
Definition CONTEXT_SEP : text := [NL] ++ str "---" ++ [NL].

(** The context of a question: the chunks found, joined, and cut to
    [MAX_CONTEXT_CHARS] characters with a mark when longer. *)
Definition truncatedContext (chunks : list text) (question : text) : text :=
  let relevantChunks := TaxGPT.findRelevantChunks chunks question 5 in
  let context := join CONTEXT_SEP relevantChunks in
  if len context >? MAX_CONTEXT_CHARS
  then substring0 context (Z.to_nat MAX_CONTEXT_CHARS) ++ str "..."
  else context.

(** A line of the transcript of the recent messages. *)
Definition history_line (m : Session.Message) : text :=
  (if text_eqb (Session.role m) (str "user") then str "User" else str "Assistant")
  ++ str ": " ++ substring0 (Session.content m) 100
  ++ (if len (Session.content m) >? 100 then str "..." else []).

Definition historyContext (recentHistory : list Session.Message) : text :=
  if (0 <? List.length recentHistory)%nat
  then join [NL] (List.map history_line recentHistory)
  else [].

Section Prompt.

(** The fixed wording of the system prompt: [INTRO] is the text in front
    of the optional greeting, [GREETING] the block of the opening greeting;
    [MODEL] is the constant of config.js. *)
Variables INTRO GREETING MODEL : text.

Definition buildSystemPrompt (context history : text) (isFirstMessage : bool) : text :=
  INTRO
  ++ (if isFirstMessage then GREETING else [])
  ++ str "IRS PUBLICATION 17 (2025) CONTEXT:" ++ [NL]
  ++ context ++ [NL; NL]
  ++ (if truthy history then str "RECENT CONVERSATION:" ++ [NL] ++ history else []).

(** The array [messages] that [askQuestion] builds; [chunks] is the
    field [this.chunks]. *)
Definition askQuestion_messages (chunks : list text) (question : text)
  (w : Session.World) : list ChatMessage :=
  let recentHistory := Session.getRecentMessages 3 w in
  let isFirstMessage := (List.length recentHistory =? 0)%nat in
  [mkChat (str "system")
          (buildSystemPrompt (truncatedContext chunks question)
                             (historyContext recentHistory) isFirstMessage)]
  ++ List.map (fun m => mkChat (Session.role m) (Session.content m)) recentHistory
  ++ [mkChat (str "user") question].

(** [askQuestion(question)]; [create] is the streamed completion call of
    the service with its model and messages (the sampling constants are
    left out).  A failure with status 401 is thrown again as the error
    about the key, any other failure as it is. *)
Definition askQuestion (create : text -> list ChatMessage -> list text + ApiError)
  (chunks : list text) (question : text) (w : Session.World)
  : list text + ApiError :=
  match create MODEL (askQuestion_messages chunks question w) with
  | inl completion => inl completion
  | inr error =>
      match status error with
      | Some code =>
          if code =? 401
          then inr (mkApiError None
                      (str "Invalid API key. Check OPENROUTER_API_KEY in .env"))
          else inr error
      | None => inr error
      end
  end.

(** The [try] block of a turn of [interactiveMode] for an input that is a
    question: the input is added to the session, the question is asked, the
    answer is streamed and added.  [now1] and [now2] are the clock readings
    of the two calls of [addMessage].  The result is what was written for
    the answer, or the message of the error that was caught.  The stream is
    taken to arrive whole. *)
Definition converse (create : text -> list ChatMessage -> list text + ApiError)
  (chunks : list text) (now1 now2 input : text) (w : Session.World)
  : (list text + text) * Session.World :=
  let w1 := Session.addMessage now1 (str "user") input w in
  match askQuestion create chunks input w1 with
  | inl stream =>
      let '(written, fullContent) := TaxGPT.streamResponse stream in
      (inl written, Session.addMessage now2 (str "assistant") fullContent w1)
  | inr error => (inr (message error), w1)
  end.

End Prompt.

End Ask.

(** ** Commands (commands.js, class CommandHandler)

    What the commands print is left out. *)

Module Commands.


(** The ids that [/delete] offers: those of the list other than the id
    of the current session. *)
Definition other_sessions (m : Session.SessionManager) : list text :=
  List.filter
    (fun id' =>
       match Session.currentSession m with
       | Some s => negb (text_eqb id' (Session.id s))
       | None => true
       end)
    (Session.sessions m).

(** How a command ends: the loop goes on, or the process exits. *)
Inductive ending : Type := Continue | Exit.

(** [deleteSession()].  [prompt] is the answer of the selection prompt to
    its choices; [None] is its cancellation, on which [safePrompt] saves the
    session and the process ends. *)
Definition deleteSession (localeCompare : text -> text -> Z)
  (prompt : list text -> option text) (w : Session.World) : ending * Session.World :=
  let w1 := Session.loadSessionsList localeCompare w in
  let deletable := other_sessions (snd w1) in
  if (List.length deletable =? 0)%nat then (Continue, w1)
  else
    match prompt deletable with
    | Some toDelete =>
        (Continue, snd (Session.deleteSession localeCompare toDelete w1))
    | None => (Exit, snd (Session.saveSession w1))
    end.



End Commands.

(** ** The conversation loop (ai.js, method interactiveMode)

    What the loop does with a line of input: a blank line is passed over,
    a line that starts with a slash goes to the command handler, any other
    line is a question for the model. *)

Module Loop.



End Loop.

(** ** Auxiliary notions of the statements *)

(** The last [n] entries of a list. *)
Definition last_entries {A : Type} (n : nat) (l : list A) : list A :=
  skipn (List.length l - n) l.

(** Appending a list of messages, each given by its time stamp, role and
    content. *)
Definition addMessages (entries : list Session.Message) (w : Session.World)
  : Session.World :=
  fold_left
    (fun w e => Session.addMessage (Session.timestamp e) (Session.role e)
                                   (Session.content e) w)
    entries w.

(** A question and its answer, each with its time stamp, as the two
    messages of one turn. *)
Definition exchange (p : (text * text) * (text * text)) : list Session.Message :=
  [Session.mkMessage (str "user") (fst (fst p)) (snd (fst p));
   Session.mkMessage (str "assistant") (fst (snd p)) (snd (snd p))].

(** A store with one current session, used to instantiate the statements. *)
Definition sample_session : Session.Session :=
  Session.mkSession (str "s1") (str "s1") (str "2025-01-01T00:00:00.000Z")
    [] (Session.mkMetadata (str "m") 0).

Definition sample_world : Session.World :=
  (Session.mkFS (Some ∅), Session.mkManager (Some sample_session) []).

Definition sample_pairs : list ((text * text) * (text * text)) :=
  List.map (fun i => ((str "q" ++ JSON.text_of_N (N.of_nat i), str "t"),
                      (str "a" ++ JSON.text_of_N (N.of_nat i), str "t")))
           (seq 0 25).

(** The score of a chunk as the claim words it: every membership test,
    the one for the table and dollar bonus included, compares the
    lower-cased chunk with the lower-cased needle. *)
Definition claimed_chunk_score (query chunk : text) : Z :=
  let chunkLower := toLowerCase chunk in
  (if includes chunkLower (toLowerCase query) then 10 else 0)
  + 2 * Z.of_nat
          (List.length
             (List.filter (fun w => includes chunkLower (toLowerCase w))
                (List.filter (fun w => len w >? 3) (split_ws query))))
  + (if includes chunkLower (toLowerCase (str "Table"))
        || includes chunkLower (toLowerCase (str "$"))
     then 1 else 0).

(** The score the retriever gives to a chunk for a query. *)
Definition score_of (query chunk : text) : Z :=
  TaxGPT.chunk_score (toLowerCase query) (TaxGPT.keywords_of (toLowerCase query)) chunk.

(** Position [i] ranks before position [j]: its score is higher, or the
    scores are equal and [i] comes first. *)
Definition ranks_before (score_at : nat -> Z) (i j : nat) : Prop :=
  score_at j < score_at i \/ (score_at j = score_at i /\ (i < j)%nat).

Definition sample_chunks : list text :=
  [str "the table of rates";
   str "Table 1. Standard deduction amounts";
   str "the standard deduction is $15,000";
   str "filing status"].

(** A text made of white space only. *)
Definition blank (s : text) : Prop := Forall (fun c => is_space c = true) s.

(** [Weave t chunks]: the text [t] is the chunks in their order, with white
    space only in front of, between and behind them. *)
Inductive Weave : text -> list text -> Prop :=
| weave_end (gap : text) :
    blank gap -> Weave gap []
| weave_chunk (gap c rest : text) (cs : list text) :
    blank gap -> Weave rest cs -> Weave (gap ++ c ++ rest) (c :: cs).

(** The characters of a text that are not white space, in their order. *)
Definition squeeze (s : text) : text :=
  List.filter (fun c => negb (is_space c)) s.

(** A text in which a chunk of two paragraphs outgrows a size of 10. *)
Definition overflow_text : text :=
  str "aaaaaaaaa" ++ TaxGPT.PARA ++ str "cccc" ++ TaxGPT.PARA ++ str "dddddd".

(** Sorting by descending [key] elements that carry their position [pos]:
    [a] is in front of [b] when its key is greater, or when the keys are
    equal and [a] came first. *)
Definition key_order {A : Type} (key : A -> Z) (pos : A -> nat) (a b : A) : Prop :=
  key b < key a \/ (key b = key a /\ (pos a < pos b)%nat).

(** The paragraphs with the delimiter in front of each. *)
Definition delimited (ps : list text) : text :=
  List.concat (List.map (fun p => TaxGPT.PARA ++ p) ps).

(** What holds after each delta: the text received is known, its
    complete lines are the lines emitted, the last segment is the buffer. *)
Definition stream_inv (received : text) (st : TaxGPT.StreamState) : Prop :=
  TaxGPT.fullContent st = received
  /\ TaxGPT.lines st ++ [TaxGPT.currentLine st] = split received [NL]
  /\ TaxGPT.out st
     = TaxGPT.out TaxGPT.stream_start ++ List.map TaxGPT.emit_line (TaxGPT.lines st).

(** No table is drawn for a block: it has fewer than two lines, or fewer
    than two rows with a cell, or only separator rows. *)
Definition no_table (block : list text) : bool :=
  (List.length block <? 2)%nat
  || (List.length (Formatter.parse_rows block) <? 2)%nat
  || (List.length (Formatter.data_rows (Formatter.parse_rows block)) =? 0)%nat.

(** A line outside a table, as [renderMarkdown] writes it. *)
Definition plain_line (line : text) : text := Formatter.formatLine line ++ [NL].

Definition header_only_lines : list text := [str "| A | B |"; str "|---|---|"].

Definition table_lines : list text :=
  [str "| A | B |"; str "|---|---|"; str "| 1 | 2 |"].

(** What may follow a number: no digit, and no fraction or exponent. *)
Definition number_end (rest : text) : bool :=
  match rest with
  | [] => true
  | c :: _ =>
      negb (is_digit c || char_eqb c 46%N || char_eqb c 101%N || char_eqb c 69%N)
  end.

(** A character put in front of the string read. *)
Definition cons_result (c : char) (res : option (text * text)) : option (text * text) :=
  match res with
  | Some (t, r) => Some (c :: t, r)
  | None => None
  end.

(** The fuel a value needs: one unit for each value and for each item. *)
Fixpoint value_size (v : JSON.value) : nat :=
  match v with
  | JSON.JArray items => S (list_sum (List.map (fun x => S (value_size x)) items))
  | JSON.JObject members =>
      S (list_sum (List.map (fun kv => S (value_size (snd kv))) members))
  | _ => 1
  end.

Definition json_blank (ws : text) : Prop := Forall (fun c => JSON.is_ws c = true) ws.

(** The first character of a value: not white space, not a closing
    bracket or brace. *)
Definition opens_value (s : text) : bool :=
  match s with
  | c :: _ => negb (JSON.is_ws c) && negb (char_eqb c 93%N) && negb (char_eqb c 125%N)
  | [] => false
  end.

(** Reading back what [write] wrote. *)
Definition reads_back (v : JSON.value) : Prop :=
  forall (depth fuel : nat) (rest : text),
    (value_size v <= fuel)%nat -> number_end rest = true ->
    JSON.read_value fuel (JSON.write depth v ++ rest) = Some (v, rest).

(** The separator of the items at a depth. *)
Definition item_sep (depth : nat) : text := str "," ++ [NL] ++ JSON.indent depth.

(** The text of a member of an object. *)
Definition write_member (depth : nat) (kv : text * JSON.value) : text :=
  JSON.quote (fst kv) ++ str ": " ++ JSON.write depth (snd kv).

(** A session with one turn, in a store with an empty directory. *)
Definition sample_dialogue : Session.Session :=
  Session.mkSession (str "tax-2025") (str "tax-2025") (str "2025-01-01T00:00:00.000Z")
    [Session.mkMessage (str "user") (str "What is the standard deduction?")
       (str "2025-01-01T00:00:01.000Z");
     Session.mkMessage (str "assistant") (str "It is $15,000 for a single filer.")
       (str "2025-01-01T00:00:02.000Z")]
    (Session.mkMetadata (str "google/gemini-3-flash-preview") 1).

Definition sample_store : Session.World :=
  (Session.mkFS (Some ∅), Session.mkManager (Some sample_dialogue) []).

(** A directory with the files of the sessions [a.json] and [.jsona]. *)
Definition stale_world : Session.World :=
  (Session.mkFS
     (Some (<[str "a.json.json" := str "{}"]> (<[str ".jsona.json" := str "{}"]> ∅))),
   Session.constructor).

(** ** Further inputs of the statements *)

(** A directory with the files of two sessions. *)
Definition two_sessions : gmap text text :=
  <[str "a.json" := str "{}"]> (<[str "b.json" := str "{}"]> ∅).

(** A text of three paragraphs with white space around them. *)
Definition spaced_text : text :=
  str "  alpha " ++ TaxGPT.PARA ++ str " beta" ++ TaxGPT.PARA ++ str "gamma  ".

(** The characters that the patterns of [formatLine] look for: the
    number sign, the dollar sign, the percent sign, the star and the
    underscore. *)
Definition markup_char (c : char) : bool :=
  (c =? 35)%N || (c =? 36)%N || (c =? 37)%N || (c =? 42)%N || (c =? 95)%N.

(** The rows of a table with a long cell. *)
Definition wide_rows : list (list text) :=
  [[str "Filing status"; str "Amount"];
   [str "Married filing jointly or qualifying surviving spouse"; str "$30,000"]].

(** A completion service that refuses the key. *)
Definition refusing_service (model : text) (messages : list Ask.ChatMessage)
  : list text + Ask.ApiError :=
  inr (Ask.mkApiError (Some 401) (str "Unauthorized")).

(** The message of a request for a message of the session. *)
Definition chat_of (m : Session.Message) : Ask.ChatMessage :=
  Ask.mkChat (Session.role m) (Session.content m).


(** * Properties *)

(** ** Slices *)

Section SliceFacts.

Context {A : Type}.

Lemma slice_from_neg (l : list A) (n : Z) :
  0 < n -> slice_from l (- n) = skipn (List.length l - Z.to_nat n) l.
Proof.
  intros Hn. unfold slice_from, rel_index.
  destruct (Z.ltb_spec (- n) 0) as [_ | H]; [| lia].
  f_equal. lia.
Qed.

Lemma slice_prefix (l : list A) (n : Z) :
  0 <= n -> slice l 0 n = firstn (Z.to_nat n) l.
Proof.
  intros Hn. unfold slice, rel_index. simpl.
  destruct (Z.ltb_spec n 0) as [H | _]; [lia |].
  rewrite (Z.min_l 0) by lia. simpl. rewrite Nat.sub_0_r.
  destruct (Z.min_spec n (Z.of_nat (List.length l))) as [[H1 ->] | [H1 ->]].
  - reflexivity.
  - rewrite Nat2Z.id.
    rewrite (firstn_all2 (n := Z.to_nat n)) by lia.
    apply firstn_all.
Qed.

Lemma length_skipn_le (l : list A) (n k : nat) :
  (List.length l <= n + k)%nat -> (List.length (skipn k l) <= n)%nat.
Proof. rewrite length_skipn. lia. Qed.

End SliceFacts.

(** ** The history cap of the session store *)

Lemma last_entries_length {A : Type} (n : nat) (l : list A) :
  (List.length (last_entries n l) <= n)%nat.
Proof. unfold last_entries. rewrite length_skipn. lia. Qed.

Lemma last_entries_short {A : Type} (n : nat) (l : list A) :
  (List.length l <= n)%nat -> last_entries n l = l.
Proof.
  intros H. unfold last_entries.
  replace (List.length l - n)%nat with 0%nat by lia. reflexivity.
Qed.

Lemma last_entries_snoc {A : Type} (n : nat) (l : list A) (x : A) :
  (0 < n)%nat ->
  last_entries n (last_entries n l ++ [x]) = last_entries n (l ++ [x]).
Proof.
  intros Hn. unfold last_entries.
  rewrite !length_app, length_skipn. simpl.
  destruct (Nat.le_gt_cases (List.length l) n) as [H | H].
  - replace (List.length l - n)%nat with 0%nat by lia. simpl.
    rewrite Nat.sub_0_r. reflexivity.
  - rewrite skipn_app.
    rewrite length_skipn.
    replace (List.length l - (List.length l - n) + 1 - n)%nat with 1%nat by lia.
    replace (1 - (List.length l - (List.length l - n)))%nat with 0%nat by lia.
    rewrite skipn_skipn. simpl.
    rewrite skipn_app.
    replace (List.length l + 1 - n - List.length l)%nat with 0%nat by lia.
    simpl. f_equal. f_equal. lia.
Qed.

Lemma last_entries_app_long {A : Type} (n : nat) (l1 l2 : list A) :
  (n <= List.length l2)%nat -> last_entries n (l1 ++ l2) = last_entries n l2.
Proof.
  intros H. unfold last_entries. rewrite length_app, skipn_app.
  replace (List.length l1 + List.length l2 - n - List.length l1)%nat
    with (List.length l2 - n)%nat by lia.
  rewrite skipn_all2 by lia. reflexivity.
Qed.

Lemma addMessage_session_messages (now role content : text) (s : Session.Session) :
  Session.messages (Session.addMessage_session now role content s)
  = last_entries 20 (Session.messages s ++ [Session.mkMessage role content now]).
Proof.
  unfold Session.addMessage_session. cbn [Session.messages Session.set_totalTurns Session.set_messages].
  set (l := Session.messages s ++ [Session.mkMessage role content now]).
  change (MAX_HISTORY_TURNS * 2) with 20.
  destruct (Z.gtb_spec (Z.of_nat (List.length l)) 20) as [H | H]; cbn [Session.messages Session.set_messages].
  - change (- MAX_HISTORY_TURNS * 2) with (- (20)).
    rewrite slice_from_neg by lia. subst l. reflexivity.
  - symmetry. apply last_entries_short. subst l.
    cbn [Session.messages Session.set_totalTurns Session.set_messages]. lia.
Qed.

Lemma addMessage_current (now role content : text) (w : Session.World) :
  Session.currentSession (snd (Session.addMessage now role content w))
  = option_map (Session.addMessage_session now role content)
               (Session.currentSession (snd w)).
Proof.
  destruct w as [fs m]. unfold Session.addMessage. simpl.
  destruct (Session.currentSession m) as [s |] eqn:Hs; simpl.
  - unfold Session.saveSession. simpl.
    destruct (Session.writeFile _ _ _); simpl; reflexivity.
  - rewrite Hs. reflexivity.
Qed.

Lemma message_eta (e : Session.Message) :
  Session.mkMessage (Session.role e) (Session.content e) (Session.timestamp e) = e.
Proof. destruct e. reflexivity. Qed.

Lemma last_entries_app {A : Type} (n : nat) (rest l : list A) :
  (0 < n)%nat ->
  last_entries n (last_entries n l ++ rest) = last_entries n (l ++ rest).
Proof.
  intros Hn. induction rest as [| x rest IH] using rev_ind.
  - rewrite !app_nil_r. apply last_entries_short, last_entries_length.
  - rewrite !app_assoc.
    rewrite <- (last_entries_snoc n (l ++ rest)) by exact Hn.
    rewrite <- IH.
    symmetry. apply last_entries_snoc. exact Hn.
Qed.

Lemma addMessages_current (entries : list Session.Message) :
  forall (w : Session.World) (s : Session.Session),
    Session.currentSession (snd w) = Some s ->
    entries <> [] ->
    exists s',
      Session.currentSession (snd (addMessages entries w)) = Some s'
      /\ Session.messages s' = last_entries 20 (Session.messages s ++ entries).
Proof.
  induction entries as [| e entries IH]; intros w s Hs Hne; [congruence |].
  unfold addMessages. simpl.
  set (w1 := Session.addMessage _ _ _ w).
  assert (H1 : Session.currentSession (snd w1)
               = Some (Session.addMessage_session (Session.timestamp e)
                         (Session.role e) (Session.content e) s)).
  { unfold w1. rewrite addMessage_current, Hs. reflexivity. }
  destruct entries as [| e2 entries].
  - simpl. eexists. split; [exact H1 |].
    rewrite addMessage_session_messages, message_eta. reflexivity.
  - destruct (IH w1 _ H1) as [s' [Hc Hm]]; [congruence |].
    exists s'. split; [exact Hc |].
    rewrite Hm, addMessage_session_messages, message_eta.
    rewrite last_entries_app by lia.
    rewrite <- app_assoc. reflexivity.
Qed.

Lemma length_flat_map_exchange (pairs : list ((text * text) * (text * text))) :
  List.length (flat_map exchange pairs) = (2 * List.length pairs)%nat.
Proof. induction pairs as [| p pairs IH]; simpl; [reflexivity | lia]. Qed.

(** C1. With [MAX_HISTORY_TURNS = 10], after a call of [addMessage] the
    current session holds the last 20 entries of its former messages
    followed by the new one, hence at most 20 entries; and after 25
    user/assistant pairs have been appended the stored messages are
    exactly the last 20 of the 50 appended ones (the last 10 pairs), in
    the order in which they were appended. *)
Theorem addMessage_history_cap
  (w : Session.World) (s : Session.Session) (now role content : text)
  (pairs : list ((text * text) * (text * text))) :
  Session.currentSession (snd w) = Some s ->
  List.length pairs = 25%nat ->
  (exists s1,
      Session.currentSession (snd (Session.addMessage now role content w)) = Some s1
      /\ Session.messages s1
         = last_entries (Z.to_nat (2 * MAX_HISTORY_TURNS))
             (Session.messages s ++ [Session.mkMessage role content now])
      /\ (List.length (Session.messages s1) <= Z.to_nat (2 * MAX_HISTORY_TURNS))%nat)
  /\ (exists s2,
      Session.currentSession (snd (addMessages (flat_map exchange pairs) w)) = Some s2
      /\ Session.messages s2 = skipn 30 (flat_map exchange pairs)
      /\ Session.messages s2 = flat_map exchange (skipn 15 pairs)
      /\ List.length (Session.messages s2) = 20%nat).
Proof.
  intros Hs Hlen. change (Z.to_nat (2 * MAX_HISTORY_TURNS)) with 20%nat. split.
  - eexists. split; [rewrite addMessage_current, Hs; reflexivity |].
    rewrite addMessage_session_messages. split; [reflexivity |].
    apply last_entries_length.
  - assert (Hne : flat_map exchange pairs <> []).
    { intros E. apply (f_equal (@List.length _)) in E.
      rewrite length_flat_map_exchange, Hlen in E. discriminate E. }
    destruct (addMessages_current _ w s Hs Hne) as [s2 [Hc Hm]].
    exists s2. split; [exact Hc |].
    assert (Hm' : Session.messages s2 = skipn 30 (flat_map exchange pairs)).
    { rewrite Hm, last_entries_app_long
        by (rewrite length_flat_map_exchange, Hlen; simpl; lia).
      unfold last_entries. rewrite length_flat_map_exchange, Hlen. reflexivity. }
    split; [exact Hm' |]. split.
    + rewrite Hm'. clear -Hlen.
      do 15 (destruct pairs as [| ? pairs]; [discriminate Hlen |]).
      reflexivity.
    + rewrite Hm', length_skipn, length_flat_map_exchange, Hlen. reflexivity.
Qed.

Lemma addMessage_history_cap_witness :
  (exists s1,
      Session.currentSession
        (snd (Session.addMessage (str "t") (str "user") (str "hello") sample_world))
      = Some s1
      /\ Session.messages s1
         = last_entries (Z.to_nat (2 * MAX_HISTORY_TURNS))
             (Session.messages sample_session
              ++ [Session.mkMessage (str "user") (str "hello") (str "t")])
      /\ (List.length (Session.messages s1) <= Z.to_nat (2 * MAX_HISTORY_TURNS))%nat)
  /\ (exists s2,
      Session.currentSession
        (snd (addMessages (flat_map exchange sample_pairs) sample_world)) = Some s2
      /\ Session.messages s2 = skipn 30 (flat_map exchange sample_pairs)
      /\ Session.messages s2 = flat_map exchange (skipn 15 sample_pairs)
      /\ List.length (Session.messages s2) = 20%nat).
Proof.
  apply (addMessage_history_cap sample_world sample_session
           (str "t") (str "user") (str "hello") sample_pairs); reflexivity.
Defined.

(** ** Deleting a session leaves the current one alone *)

Lemma loadSessionsList_manager (localeCompare : text -> text -> Z) (w : Session.World) :
  fst (Session.loadSessionsList localeCompare w) = fst w
  /\ Session.currentSession (snd (Session.loadSessionsList localeCompare w))
     = Session.currentSession (snd w).
Proof.
  destruct w as [fs m]. unfold Session.loadSessionsList.
  destruct (Session.readdir fs); simpl; split; reflexivity.
Qed.

(** C10. For every session id, the id of the current session included,
    [deleteSession] leaves the current session as it was, whether the file
    exists or not: of the manager object only the cached list [sessions]
    can change. *)
Theorem deleteSession_keeps_current
  (localeCompare : text -> text -> Z) (sessionId : text) (w : Session.World) :
  Session.currentSession (snd (snd (Session.deleteSession localeCompare sessionId w)))
  = Session.currentSession (snd w)
  /\ snd (snd (Session.deleteSession localeCompare sessionId w))
     = Session.set_sessions (snd w)
         (Session.sessions (snd (snd (Session.deleteSession localeCompare sessionId w)))).
Proof.
  destruct w as [fs m]. unfold Session.deleteSession.
  destruct (Session.unlink fs (Session.session_file sessionId)) as [fs' | e]; simpl.
  - unfold Session.loadSessionsList.
    destruct (Session.readdir fs'); simpl; split; reflexivity.
  - split; [reflexivity |]. destruct m; reflexivity.
Qed.

(** ** The relevance score *)

Lemma keyword_fold (chunkLower : text) (keywords : list text) (acc : Z) :
  fold_left (fun score kw => if includes chunkLower kw then score + 2 else score)
            keywords acc
  = acc + 2 * Z.of_nat (List.length (List.filter (includes chunkLower) keywords)).
Proof.
  revert acc. induction keywords as [| kw keywords IH]; intros acc; simpl.
  - lia.
  - rewrite IH. destruct (includes chunkLower kw); simpl List.length; lia.
Qed.

Lemma chunk_score_closed (queryLower : text) (keywords : list text) (chunk : text) :
  TaxGPT.chunk_score queryLower keywords chunk
  = (if includes (toLowerCase chunk) queryLower then 10 else 0)
    + 2 * Z.of_nat (List.length (List.filter (includes (toLowerCase chunk)) keywords))
    + (if includes chunk (str "Table") || includes chunk (str "$") then 1 else 0).
Proof.
  unfold TaxGPT.chunk_score. rewrite keyword_fold.
  destruct (includes (toLowerCase chunk) queryLower);
    destruct (includes chunk (str "Table") || includes chunk (str "$")); lia.
Qed.

Lemma imap_seq_nth {A B : Type} (f : nat -> A -> B) (l : list A) (d : A) :
  imap f l = List.map (fun i => f i (nth i l d)) (seq 0 (List.length l)).
Proof.
  revert f. induction l as [| x l IH]; intros f; simpl; [reflexivity |].
  f_equal. rewrite IH, <- seq_shift, List.map_map. reflexivity.
Qed.

Lemma score_all_seq (chunks : list text) (query : text) :
  TaxGPT.score_all chunks query
  = List.map (fun i => TaxGPT.mkScored (nth i chunks []) (score_of query (nth i chunks [])) i)
             (seq 0 (List.length chunks)).
Proof. unfold TaxGPT.score_all. cbv zeta.
  rewrite (imap_seq_nth (A := text) _ chunks []). reflexivity. Qed.

(** The claim as worded fails on a chunk that has the word in lower case
    only: the source tests the raw chunk for the literal. *)
Lemma chunk_score_bonus_is_case_sensitive :
  score_of (str "tax") (str "the table of rates") = 0
  /\ claimed_chunk_score (str "tax") (str "the table of rates") = 1
  /\ score_of (str "tax") (str "the table of rates")
     <> claimed_chunk_score (str "tax") (str "the table of rates").
Proof. vm_compute. repeat split; discriminate. Qed.

(** C2 (amended). The entry of [findRelevantChunks] for the chunk at
    position [i] carries that chunk, that position, and the score: 10 if
    the lower-cased chunk contains the lower-cased query, plus 2 for each
    token of the lower-cased query longer than 3 that the lower-cased
    chunk contains, plus 1 if the chunk as it is contains the literal
    [Table] or the dollar sign (this last test is case-sensitive). *)
Theorem chunk_score_formula
  (chunks : list text) (query : text) (i : nat) (sc : TaxGPT.Scored) :
  TaxGPT.score_all chunks query !! i = Some sc ->
  chunks !! i = Some (TaxGPT.chunk sc)
  /\ TaxGPT.idx sc = i
  /\ TaxGPT.score sc
     = (if includes (toLowerCase (TaxGPT.chunk sc)) (toLowerCase query) then 10 else 0)
       + 2 * Z.of_nat
               (List.length
                  (List.filter (includes (toLowerCase (TaxGPT.chunk sc)))
                     (List.filter (fun w => len w >? 3)
                                  (split_ws (toLowerCase query)))))
       + (if includes (TaxGPT.chunk sc) (str "Table")
             || includes (TaxGPT.chunk sc) (str "$")
          then 1 else 0).
Proof.
  unfold TaxGPT.score_all. rewrite list_lookup_imap.
  destruct (chunks !! i) as [c |] eqn:Hc; simpl; [| discriminate].
  intros [= <-]. simpl. split; [reflexivity |]. split; [reflexivity |].
  apply chunk_score_closed.
Qed.

Lemma chunk_score_formula_witness :
  sample_chunks !! 1%nat
  = Some (TaxGPT.chunk (TaxGPT.mkScored (str "Table 1. Standard deduction amounts") 15 1))
  /\ TaxGPT.idx (TaxGPT.mkScored (str "Table 1. Standard deduction amounts") 15 1) = 1%nat
  /\ TaxGPT.score (TaxGPT.mkScored (str "Table 1. Standard deduction amounts") 15 1)
     = (if includes (toLowerCase (str "Table 1. Standard deduction amounts"))
                    (toLowerCase (str "Standard Deduction")) then 10 else 0)
       + 2 * Z.of_nat
               (List.length
                  (List.filter
                     (includes (toLowerCase (str "Table 1. Standard deduction amounts")))
                     (List.filter (fun w => len w >? 3)
                                  (split_ws (toLowerCase (str "Standard Deduction"))))))
       + (if includes (str "Table 1. Standard deduction amounts") (str "Table")
             || includes (str "Table 1. Standard deduction amounts") (str "$")
          then 1 else 0).
Proof.
  apply (chunk_score_formula sample_chunks (str "Standard Deduction") 1
           (TaxGPT.mkScored (str "Table 1. Standard deduction amounts") 15 1)).
  vm_compute. reflexivity.
Defined.

(** ** The stable sort *)

Section SortFacts.

Context {A : Type}.
Variable cmp : A -> A -> Z.

Lemma sort_insert_perm (x : A) (l : list A) :
  Permutation (sort_insert cmp x l) (x :: l).
Proof.
  induction l as [| y l IH]; simpl; [reflexivity |].
  destruct (cmp x y <=? 0); [reflexivity |].
  rewrite IH. apply perm_swap.
Qed.

Lemma sort_perm (l : list A) : Permutation (sort cmp l) l.
Proof.
  induction l as [| x l IH]; simpl; [reflexivity |].
  rewrite sort_insert_perm, IH. reflexivity.
Qed.

End SortFacts.

Section SortByKey.

(** Sorting by descending [key] a list whose elements carry their
    position [pos] in increasing order. *)
Context {A : Type}.
Variables (key : A -> Z) (pos : A -> nat).

Lemma key_order_insert (x : A) (l : list A) :
  StronglySorted (key_order key pos) l ->
  Forall (fun y => (pos x < pos y)%nat) l ->
  StronglySorted (key_order key pos) (sort_insert (fun a b => key b - key a) x l).
Proof.
  induction l as [| y l IH]; intros Hs Hp; simpl.
  - constructor; constructor.
  - apply StronglySorted_inv in Hs. destruct Hs as [Hs Hy].
    apply Forall_cons_iff in Hp. destruct Hp as [Hxy Hp].
    destruct (Z.leb_spec (key y - key x) 0) as [Hle | Hgt].
    + constructor; [constructor; assumption |].
      constructor.
      * unfold key_order. lia.
      * rewrite List.Forall_forall in *. intros z Hz.
        specialize (Hy z Hz). specialize (Hp z Hz).
        unfold key_order in *. lia.
    + constructor; [apply IH; assumption |].
      rewrite List.Forall_forall in *. intros z Hz.
      apply (Permutation_in _ (sort_insert_perm _ x l)) in Hz.
      destruct Hz as [<- | Hz].
      * unfold key_order. lia.
      * apply Hy, Hz.
Qed.

Lemma key_order_sort (l : list A) :
  StronglySorted (fun a b => (pos a < pos b)%nat) l ->
  StronglySorted (key_order key pos) (sort (fun a b => key b - key a) l).
Proof.
  induction l as [| x l IH]; intros Hs; simpl; [constructor |].
  apply StronglySorted_inv in Hs. destruct Hs as [Hs Hx].
  apply key_order_insert; [apply IH, Hs |].
  rewrite List.Forall_forall in *. intros y Hy. apply Hx.
  apply (Permutation_in _ (sort_perm (fun a b => key b - key a) l)), Hy.
Qed.

End SortByKey.

(** ** The ranking of the retriever *)

Lemma In_firstn {A : Type} (n : nat) (x : A) (l : list A) :
  In x (firstn n l) -> In x l.
Proof.
  intros H. rewrite <- (firstn_skipn n l). apply in_or_app. left. exact H.
Qed.

Lemma seq_strongly_sorted (start n : nat) :
  StronglySorted lt (seq start n).
Proof.
  revert start. induction n as [| n IH]; intros start; simpl; constructor.
  - apply IH.
  - rewrite List.Forall_forall. intros y Hy. apply in_seq in Hy. lia.
Qed.

Lemma StronglySorted_map {A B : Type} (R : B -> B -> Prop) (f : A -> B) (l : list A) :
  StronglySorted (fun a b => R (f a) (f b)) l <-> StronglySorted R (List.map f l).
Proof.
  induction l as [| x l IH]; simpl.
  - split; intros _; constructor.
  - split; intros H; apply StronglySorted_inv in H; destruct H as [H1 H2];
      constructor; try (apply IH; assumption).
    + rewrite List.Forall_forall in *. intros y Hy.
      apply in_map_iff in Hy. destruct Hy as [a [<- Ha]]. apply H2, Ha.
    + rewrite List.Forall_forall in *. intros a Ha.
      apply H2, in_map, Ha.
Qed.

Lemma StronglySorted_weaken {A : Type} (R R' : A -> A -> Prop) (l : list A) :
  (forall a b, In a l -> In b l -> R a b -> R' a b) ->
  StronglySorted R l -> StronglySorted R' l.
Proof.
  induction l as [| x l IH]; intros Himp Hs; [constructor |].
  apply StronglySorted_inv in Hs. destruct Hs as [Hs Hx].
  constructor.
  - apply IH; [| exact Hs]. intros a b Ha Hb. apply Himp; right; assumption.
  - rewrite List.Forall_forall in *. intros y Hy.
    apply Himp; [left; reflexivity | right; exact Hy | apply Hx, Hy].
Qed.

(** C3. For [maxChunks >= 0] the retriever returns at most [maxChunks]
    items, all of them chunks of the input; they are the chunks at the
    first [maxChunks] positions of an ordering of all positions by
    non-increasing score in which positions of equal score keep their
    original order. *)
Theorem findRelevantChunks_ranking (chunks : list text) (query : text) (maxChunks : Z) :
  0 <= maxChunks ->
  Z.of_nat (List.length (TaxGPT.findRelevantChunks chunks query maxChunks)) <= maxChunks
  /\ (forall c, In c (TaxGPT.findRelevantChunks chunks query maxChunks) -> In c chunks)
  /\ exists order : list nat,
       Permutation order (seq 0 (List.length chunks))
       /\ StronglySorted (ranks_before (fun i => score_of query (nth i chunks []))) order
       /\ TaxGPT.findRelevantChunks chunks query maxChunks
          = List.map (fun i => nth i chunks []) (firstn (Z.to_nat maxChunks) order).
Proof.
  intros Hmax.
  set (cmp := fun a b : TaxGPT.Scored => TaxGPT.score b - TaxGPT.score a).
  set (sorted := sort cmp (TaxGPT.score_all chunks query)).
  assert (Hperm : Permutation sorted (TaxGPT.score_all chunks query))
    by apply sort_perm.
  assert (Hshape : forall x, In x sorted ->
            TaxGPT.chunk x = nth (TaxGPT.idx x) chunks []
            /\ TaxGPT.score x = score_of query (nth (TaxGPT.idx x) chunks [])
            /\ (TaxGPT.idx x < List.length chunks)%nat).
  { intros x Hx. apply (Permutation_in _ Hperm) in Hx.
    rewrite score_all_seq in Hx. apply in_map_iff in Hx.
    destruct Hx as [i [<- Hi]]. apply in_seq in Hi. simpl. repeat split. lia. }
  assert (Hres : TaxGPT.findRelevantChunks chunks query maxChunks
                 = List.map (fun i => nth i chunks [])
                     (firstn (Z.to_nat maxChunks) (List.map TaxGPT.idx sorted))).
  { unfold TaxGPT.findRelevantChunks. fold cmp. fold sorted.
    rewrite slice_prefix by exact Hmax.
    rewrite firstn_map, List.map_map.
    apply map_ext_in. intros x Hx. apply Hshape.
    apply (In_firstn (Z.to_nat maxChunks)). exact Hx. }
  assert (Hidx : List.map TaxGPT.idx (TaxGPT.score_all chunks query)
                 = seq 0 (List.length chunks)).
  { rewrite score_all_seq, List.map_map. simpl. apply map_id. }
  assert (Horder : Permutation (List.map TaxGPT.idx sorted) (seq 0 (List.length chunks))).
  { rewrite <- Hidx. apply Permutation_map, Hperm. }
  split; [| split].
  - rewrite Hres, length_map, length_firstn. lia.
  - intros c Hc. rewrite Hres in Hc. apply in_map_iff in Hc.
    destruct Hc as [i [<- Hi]]. apply nth_In.
    apply In_firstn in Hi. apply (Permutation_in _ Horder) in Hi.
    apply in_seq in Hi. lia.
  - exists (List.map TaxGPT.idx sorted). split; [exact Horder |]. split; [| exact Hres].
    apply (proj1 (StronglySorted_map _ TaxGPT.idx sorted)).
    apply (StronglySorted_weaken (key_order TaxGPT.score TaxGPT.idx)).
    + intros a b Ha Hb Hab.
      destruct (Hshape a Ha) as [_ [Hsa _]]. destruct (Hshape b Hb) as [_ [Hsb _]].
      unfold ranks_before. rewrite <- Hsa, <- Hsb. exact Hab.
    + apply key_order_sort.
      apply (proj2 (StronglySorted_map lt TaxGPT.idx _)).
      rewrite Hidx. apply seq_strongly_sorted.
Qed.

Lemma findRelevantChunks_ranking_witness :
  Z.of_nat (List.length (TaxGPT.findRelevantChunks sample_chunks (str "standard deduction") 2))
  <= 2
  /\ (forall c,
        In c (TaxGPT.findRelevantChunks sample_chunks (str "standard deduction") 2) ->
        In c sample_chunks)
  /\ exists order : list nat,
       Permutation order (seq 0 (List.length sample_chunks))
       /\ StronglySorted
            (ranks_before (fun i => score_of (str "standard deduction") (nth i sample_chunks [])))
            order
       /\ TaxGPT.findRelevantChunks sample_chunks (str "standard deduction") 2
          = List.map (fun i => nth i sample_chunks []) (firstn (Z.to_nat 2) order).
Proof.
  apply (findRelevantChunks_ranking sample_chunks (str "standard deduction") 2). lia.
Defined.

(** ** Strings: prefixes, white space, trimming, splitting *)

Lemma takeWhile_dropWhile {A : Type} (f : A -> bool) (l : list A) :
  takeWhile f l ++ dropWhile f l = l.
Proof.
  induction l as [| x l IH]; simpl; [reflexivity |].
  destruct (f x); simpl; [rewrite IH |]; reflexivity.
Qed.

Lemma takeWhile_all {A : Type} (f : A -> bool) (l : list A) :
  Forall (fun x => f x = true) (takeWhile f l).
Proof.
  induction l as [| x l IH]; simpl; [constructor |].
  destruct (f x) eqn:E; constructor; assumption.
Qed.

Lemma dropWhile_head {A : Type} (f : A -> bool) (l : list A) (x : A) (r : list A) :
  dropWhile f l = x :: r -> f x = false.
Proof.
  induction l as [| y l IH]; simpl; [discriminate |].
  destruct (f y) eqn:E; [exact IH |]. intros [= -> _]. exact E.
Qed.

Lemma dropWhile_nil_all {A : Type} (f : A -> bool) (l : list A) :
  dropWhile f l = [] -> Forall (fun x => f x = true) l.
Proof.
  induction l as [| y l IH]; simpl; [constructor |].
  destruct (f y) eqn:E; [| discriminate]. intros H. constructor; auto.
Qed.

Lemma dropWhile_length {A : Type} (f : A -> bool) (l : list A) :
  (List.length (dropWhile f l) <= List.length l)%nat.
Proof.
  induction l as [| y l IH]; simpl; [lia |].
  destruct (f y); simpl; lia.
Qed.

Lemma dropWhile_snoc_false {A : Type} (f : A -> bool) (l : list A) (x : A) :
  f x = false -> exists l', dropWhile f (l ++ [x]) = l' ++ [x].
Proof.
  intros Hx. induction l as [| y l IH]; simpl.
  - rewrite Hx. exists []. reflexivity.
  - destruct (f y); [exact IH |]. exists (y :: l). reflexivity.
Qed.

Lemma blank_app (a b : text) : blank a -> blank b -> blank (a ++ b).
Proof. unfold blank. intros Ha Hb. apply Forall_app. split; assumption. Qed.

Lemma blank_rev (a : text) : blank a -> blank (rev a).
Proof.
  unfold blank. rewrite !List.Forall_forall. intros H x Hx.
  apply H, in_rev, Hx.
Qed.

(** A text is its trimmed form between two runs of white space. *)
Lemma trim_decompose (s : text) :
  exists lead trail, blank lead /\ blank trail /\ s = lead ++ trim s ++ trail.
Proof.
  exists (takeWhile is_space s),
         (rev (takeWhile is_space (rev (trimStart s)))).
  split; [apply takeWhile_all |]. split; [apply blank_rev, takeWhile_all |].
  unfold trim, trimEnd.
  rewrite <- rev_app_distr, takeWhile_dropWhile, rev_involutive.
  unfold trimStart. symmetry. apply takeWhile_dropWhile.
Qed.

Lemma trim_length (s : text) : len (trim s) <= len s.
Proof.
  unfold len, trim, trimEnd, trimStart. rewrite length_rev.
  pose proof (dropWhile_length is_space (rev (dropWhile is_space s))) as H1.
  rewrite length_rev in H1.
  pose proof (dropWhile_length is_space s) as H2. lia.
Qed.

Lemma trim_no_leading_space (s : text) (c : char) (r : text) :
  trim s = c :: r -> is_space c = false.
Proof.
  unfold trim, trimEnd. intros H.
  destruct (trimStart s) as [| x u] eqn:Hu; [discriminate H |].
  pose proof (dropWhile_head _ _ _ _ Hu) as Hx.
  simpl in H.
  destruct (dropWhile_snoc_false is_space (rev u) x Hx) as [l' Hl'].
  rewrite Hl', rev_app_distr in H. simpl in H. congruence.
Qed.

Lemma trim_nil_blank (s : text) : trim s = [] -> blank s.
Proof.
  intros H. destruct (trim_decompose s) as [lead [trail [Hl [Ht E]]]].
  rewrite H in E. rewrite E. apply blank_app; assumption.
Qed.

Lemma trim_blank_prefix (w s : text) : blank w -> trim (w ++ s) = trim s.
Proof.
  intros Hw. unfold trim. f_equal. unfold trimStart.
  induction Hw as [| c w Hc Hw IH]; simpl; [reflexivity |].
  rewrite Hc. exact IH.
Qed.

(** [split] and [join]. *)

Lemma split_go_cons (sep : text) (c : char) (s : text) :
  split_go sep 0 (c :: s)
  = if startsWith (c :: s) sep
    then [] :: split_go sep (List.length sep - 1) s
    else cons_head c (split_go sep 0 s).
Proof. reflexivity. Qed.

Lemma split_go_nonempty (sep : text) (skip : nat) (s : text) :
  split_go sep skip s <> [].
Proof.
  revert skip. induction s as [| c s IH]; intros skip; [discriminate |].
  destruct skip as [| k]; [| apply IH].
  rewrite split_go_cons.
  destruct (startsWith (c :: s) sep); [discriminate |].
  destruct (split_go sep 0 s); simpl; discriminate.
Qed.

Lemma split_go_skip (sep : text) (k : nat) (s : text) :
  (k <= List.length s)%nat -> split_go sep k s = split_go sep 0 (skipn k s).
Proof.
  revert s. induction k as [| k IH]; intros s Hk; [reflexivity |].
  destruct s as [| c s]; simpl in Hk; [lia |].
  simpl. apply IH. lia.
Qed.

Lemma startsWith_app (s p : text) :
  startsWith s p = true -> s = p ++ skipn (List.length p) s.
Proof.
  revert s. induction p as [| x p IH]; intros s H; [reflexivity |].
  destruct s as [| y s]; simpl in H; [discriminate |].
  apply andb_true_iff in H. destruct H as [Hxy H].
  apply N.eqb_eq in Hxy. subst y. simpl. f_equal. apply IH, H.
Qed.

Lemma startsWith_length (s p : text) :
  startsWith s p = true -> (List.length p <= List.length s)%nat.
Proof.
  intros H. rewrite (startsWith_app s p H), length_app. lia.
Qed.

Lemma join_cons (sep x : text) (rest : list text) :
  rest <> [] -> join sep (x :: rest) = x ++ sep ++ join sep rest.
Proof. destruct rest; [congruence | reflexivity]. Qed.

Lemma join_cons_head (sep : text) (c : char) (segs : list text) :
  segs <> [] -> join sep (cons_head c segs) = c :: join sep segs.
Proof.
  destruct segs as [| h t]; [congruence |]. intros _.
  destruct t; reflexivity.
Qed.

Lemma join_split (sep s : text) :
  sep <> [] -> join sep (split s sep) = s.
Proof.
  intros Hsep. unfold split.
  remember (List.length s) as n eqn:Hn.
  revert s Hn. induction n as [n IH] using lt_wf_ind. intros s Hn.
  destruct s as [| c s]; [reflexivity |].
  rewrite split_go_cons.
  destruct (startsWith (c :: s) sep) eqn:Hst.
  - pose proof (startsWith_app _ _ Hst) as E.
    destruct sep as [| x sep]; [congruence |].
    simpl in E. injection E as Ec Es.
    replace (List.length (x :: sep) - 1)%nat with (List.length sep)
      by (simpl; lia).
    assert (Hst' : startsWith s sep = true).
    { simpl in Hst. apply andb_true_iff in Hst. apply Hst. }
    rewrite split_go_skip by (apply startsWith_length, Hst').
    rewrite join_cons by apply split_go_nonempty.
    rewrite (IH (List.length (skipn (List.length sep) s))); try reflexivity.
    + simpl. subst x. f_equal.
      symmetry. apply (startsWith_app s sep Hst').
    + rewrite length_skipn. simpl in Hn. lia.
  - rewrite join_cons_head by apply split_go_nonempty.
    f_equal. apply (IH (List.length s)); [simpl in Hn; lia | reflexivity].
Qed.

(** ** The chunker *)

Lemma Weave_snoc (pre : text) (cs : list text) (lead c trail : text) :
  Weave pre cs -> blank lead -> blank trail ->
  Weave (pre ++ lead ++ c ++ trail) (cs ++ [c]).
Proof.
  intros Hw Hl Ht. induction Hw as [gap Hg | gap c0 rest cs Hg Hw IH].
  - simpl. rewrite app_assoc.
    apply weave_chunk; [apply blank_app; assumption |].
    apply weave_end, Ht.
  - simpl. rewrite <- !app_assoc.
    apply weave_chunk; [exact Hg | exact IH].
Qed.

Lemma Weave_blank_end (pre : text) (cs : list text) (gap : text) :
  Weave pre cs -> blank gap -> Weave (pre ++ gap) cs.
Proof.
  intros Hw Hg. induction Hw as [gap0 Hg0 | gap0 c0 rest cs Hg0 Hw IH].
  - apply weave_end, blank_app; assumption.
  - rewrite <- !app_assoc. apply weave_chunk; assumption.
Qed.

(** A white-space character in front of the text is not needed when no
    chunk starts with white space. *)
Lemma Weave_drop_head (w : char) (t : text) (cs : list text) :
  is_space w = true ->
  Forall (fun c => forall x r, c = x :: r -> is_space x = false) cs ->
  Weave (w :: t) cs -> Weave t cs.
Proof.
  intros Hw Hcs Hweave.
  remember (w :: t) as wt eqn:E. revert t E Hcs.
  induction Hweave as [gap Hg | gap c rest cs Hg Hweave IH]; intros t E Hcs.
  - subst gap. apply weave_end. inversion Hg. assumption.
  - apply Forall_cons_iff in Hcs. destruct Hcs as [Hc Hcs].
    destruct gap as [| g gap].
    + simpl in E. destruct c as [| x c].
      * simpl in E. apply (weave_chunk [] [] t cs); [constructor |].
        apply IH; assumption.
      * simpl in E. injection E as Ex Et. subst x.
        rewrite (Hc w c eq_refl) in Hw. discriminate Hw.
    + simpl in E. injection E as Eg Et. subst t.
      apply weave_chunk; [inversion Hg; assumption | exact Hweave].
Qed.

Lemma squeeze_app (a b : text) : squeeze (a ++ b) = squeeze a ++ squeeze b.
Proof. unfold squeeze. apply List.filter_app. Qed.

Lemma squeeze_blank (g : text) : blank g -> squeeze g = [].
Proof.
  intros H. induction H as [| c g Hc Hg IH]; simpl; [reflexivity |].
  rewrite Hc. simpl. exact IH.
Qed.

Lemma squeeze_join (sep : text) (cs : list text) :
  blank sep -> squeeze (join sep cs) = List.concat (List.map squeeze cs).
Proof.
  intros Hsep. induction cs as [| c cs IH]; [reflexivity |].
  destruct cs as [| c' cs].
  - simpl. rewrite app_nil_r. reflexivity.
  - rewrite join_cons by discriminate.
    rewrite !squeeze_app, (squeeze_blank sep Hsep), IH. reflexivity.
Qed.

Lemma Weave_squeeze (t : text) (cs : list text) :
  Weave t cs -> squeeze t = List.concat (List.map squeeze cs).
Proof.
  intros H. induction H as [gap Hg | gap c rest cs Hg Hw IH].
  - apply squeeze_blank, Hg.
  - rewrite !squeeze_app, (squeeze_blank gap Hg), IH. reflexivity.
Qed.

Lemma delimited_join (ps : list text) :
  ps <> [] -> delimited ps = TaxGPT.PARA ++ join TaxGPT.PARA ps.
Proof.
  induction ps as [| p ps IH]; intros Hne; [congruence |].
  destruct ps as [| p' ps].
  - unfold delimited. simpl. rewrite app_nil_r. reflexivity.
  - rewrite join_cons by discriminate.
    change (delimited (p :: p' :: ps))
      with ((TaxGPT.PARA ++ p) ++ delimited (p' :: ps)).
    rewrite IH by discriminate. rewrite <- !app_assoc. reflexivity.
Qed.

Lemma blank_PARA : blank TaxGPT.PARA.
Proof. repeat constructor. Qed.

(** The loop keeps the text read so far woven from the chunks pushed,
    with the buffer behind them. *)
Lemma createChunks_loop_weave (chunkSize : Z) (ps : list text) :
  forall (chunks : list text) (cur pre : text),
    Weave pre chunks ->
    Forall (fun c => forall x r, c = x :: r -> is_space x = false) chunks ->
    exists pre',
      Weave pre' (fst (fold_left (TaxGPT.createChunks_step chunkSize) ps (chunks, cur)))
      /\ Forall (fun c => forall x r, c = x :: r -> is_space x = false)
                (fst (fold_left (TaxGPT.createChunks_step chunkSize) ps (chunks, cur)))
      /\ pre' ++ snd (fold_left (TaxGPT.createChunks_step chunkSize) ps (chunks, cur))
         = pre ++ cur ++ delimited ps.
Proof.
  induction ps as [| p ps IH]; intros chunks cur pre Hw Htrim.
  - exists pre. simpl. unfold delimited. simpl. rewrite app_nil_r. auto.
  - simpl fold_left. unfold TaxGPT.createChunks_step at 2.
    destruct ((len cur + len p >? chunkSize) && (len cur >? 0)).
    + destruct (trim_decompose cur) as [lead [trail [Hl [Ht E]]]].
      destruct (IH (chunks ++ [trim cur]) p (pre ++ cur ++ TaxGPT.PARA))
        as [pre' [H1 [H2 H3]]].
      * rewrite E at 1. rewrite <- !app_assoc.
        apply Weave_snoc; [exact Hw | exact Hl |].
        apply blank_app; [exact Ht | apply blank_PARA].
      * apply Forall_app. split; [exact Htrim |].
        constructor; [| constructor]. apply trim_no_leading_space.
      * exists pre'. split; [exact H1 |]. split; [exact H2 |].
        etransitivity; [exact H3 |].
        unfold delimited. simpl. rewrite <- !app_assoc. reflexivity.
    + destruct (IH chunks (cur ++ TaxGPT.PARA ++ p) pre Hw Htrim)
        as [pre' [H1 [H2 H3]]].
      exists pre'. split; [exact H1 |]. split; [exact H2 |].
      etransitivity; [exact H3 |].
      unfold delimited. simpl. rewrite <- !app_assoc. reflexivity.
Qed.

Lemma truthy_false (s : text) : truthy s = false -> s = [].
Proof. destruct s; [reflexivity | discriminate]. Qed.

Lemma createChunks_weave (t : text) (chunkSize : Z) :
  Weave t (TaxGPT.createChunks t chunkSize).
Proof.
  unfold TaxGPT.createChunks.
  destruct (createChunks_loop_weave chunkSize (split t TaxGPT.PARA) [] [] [])
    as [pre' [H1 [H2 H3]]]; [apply weave_end; constructor | constructor |].
  destruct (fold_left _ _ _) as [chunks cur]. simpl in H1, H2, H3.
  rewrite delimited_join in H3 by apply split_go_nonempty.
  rewrite join_split in H3 by discriminate.
  assert (Hall : Weave (NL :: NL :: t)
                   (if truthy (trim cur) then chunks ++ [trim cur] else chunks)
                 /\ Forall (fun c => forall x r, c = x :: r -> is_space x = false)
                      (if truthy (trim cur) then chunks ++ [trim cur] else chunks)).
  { change (NL :: NL :: t) with (TaxGPT.PARA ++ t). rewrite <- H3.
    destruct (truthy (trim cur)) eqn:Htr.
    - split.
      + destruct (trim_decompose cur) as [lead [trail [Hl [Ht E]]]].
        rewrite E at 1. apply Weave_snoc; assumption.
      + apply Forall_app. split; [exact H2 |].
        constructor; [| constructor]. apply trim_no_leading_space.
    - split; [| exact H2].
      apply Weave_blank_end; [exact H1 |].
      apply trim_nil_blank, truthy_false, Htr. }
  destruct Hall as [Hweave Htrim].
  apply (Weave_drop_head NL); [reflexivity | exact Htrim |].
  apply (Weave_drop_head NL); [reflexivity | exact Htrim | exact Hweave].
Qed.

(** C5. The text is the chunks of [createChunks] in their order with
    white space only in front of, between and behind them; so joining the
    chunks with the paragraph delimiter gives a text with the same
    characters other than white space, in the same order; and the empty
    text has no chunk. *)
Theorem createChunks_content (t : text) (chunkSize : Z) :
  Weave t (TaxGPT.createChunks t chunkSize)
  /\ squeeze (join TaxGPT.PARA (TaxGPT.createChunks t chunkSize)) = squeeze t
  /\ TaxGPT.createChunks [] chunkSize = [].
Proof.
  split; [apply createChunks_weave |]. split.
  - rewrite squeeze_join by apply blank_PARA.
    symmetry. apply Weave_squeeze, createChunks_weave.
  - unfold TaxGPT.createChunks. simpl.
    destruct (len [] + len [] >? chunkSize); reflexivity.
Qed.

(** The size of the chunks.  The test of the loop counts the buffer and
    the paragraph but not the delimiter put between them. *)
Lemma createChunks_loop_size (chunkSize : Z) (all : list text) (ps : list text) :
  forall (chunks : list text) (cur : text),
    (forall p, In p ps -> In p all) ->
    Forall (fun c => len c <= chunkSize + 2
                     \/ exists p, In p all /\ chunkSize < len p /\ c = trim p) chunks ->
    (cur = [] \/ len cur <= chunkSize + 2 \/ exists p, In p all /\ trim cur = trim p) ->
    let st := fold_left (TaxGPT.createChunks_step chunkSize) ps (chunks, cur) in
    Forall (fun c => len c <= chunkSize + 2
                     \/ exists p, In p all /\ chunkSize < len p /\ c = trim p) (fst st)
    /\ (snd st = [] \/ len (snd st) <= chunkSize + 2
        \/ exists p, In p all /\ trim (snd st) = trim p).
Proof.
  assert (Hgood : forall cur,
            cur <> [] ->
            (cur = [] \/ len cur <= chunkSize + 2
             \/ exists p, In p all /\ trim cur = trim p) ->
            len (trim cur) <= chunkSize + 2
            \/ exists p, In p all /\ chunkSize < len p /\ trim cur = trim p).
  { intros cur Hne [H | [H | [p [Hp E]]]]; [congruence | |].
    - left. pose proof (trim_length cur). lia.
    - destruct (Z.lt_ge_cases chunkSize (len p)) as [Hlt | Hge].
      + right. exists p. auto.
      + left. rewrite E. pose proof (trim_length p). lia. }
  induction ps as [| p ps IH]; intros chunks cur Hin Hchunks Hcur st.
  - subst st. simpl. auto.
  - subst st. simpl fold_left. unfold TaxGPT.createChunks_step at 2.
    destruct (Z.gtb_spec (len cur + len p) chunkSize) as [H1 | H1];
      destruct (Z.gtb_spec (len cur) 0) as [H2 | H2]; simpl andb.
    + apply IH.
      * intros q Hq. apply Hin. right. exact Hq.
      * apply Forall_app. split; [exact Hchunks |].
        constructor; [| constructor]. apply Hgood; [| exact Hcur].
        intros ->. unfold len in H2. simpl in H2. lia.
      * right. right. exists p. split; [apply Hin; left |]; reflexivity.
    + apply IH; [intros q Hq; apply Hin; right; exact Hq | exact Hchunks |].
      assert (cur = []) as -> by (destruct cur; [reflexivity | unfold len in H2; simpl in H2; lia]).
      right. right. exists p. split; [apply Hin; left; reflexivity |].
      simpl. apply (trim_blank_prefix TaxGPT.PARA p), blank_PARA.
    + apply IH; [intros q Hq; apply Hin; right; exact Hq | exact Hchunks |].
      right. left. unfold len in *. rewrite !length_app. simpl. lia.
    + apply IH; [intros q Hq; apply Hin; right; exact Hq | exact Hchunks |].
      right. left. unfold len in *. rewrite !length_app. simpl. lia.
Qed.

(** Every chunk is at most two characters longer than the size asked
    for, or it is a single paragraph, trimmed, that is itself longer. *)
Lemma createChunks_size (t : text) (chunkSize : Z) (c : text) :
  In c (TaxGPT.createChunks t chunkSize) ->
  len c <= chunkSize + 2
  \/ exists p, In p (split t TaxGPT.PARA) /\ chunkSize < len p /\ c = trim p.
Proof.
  unfold TaxGPT.createChunks.
  pose proof (createChunks_loop_size chunkSize (split t TaxGPT.PARA)
                (split t TaxGPT.PARA) [] [] (fun p H => H)
                (List.Forall_nil _) (or_introl eq_refl)) as H.
  simpl in H. destruct (fold_left _ _ _) as [chunks cur]. simpl in H.
  destruct H as [Hchunks Hcur].
  assert (Hall : Forall (fun c => len c <= chunkSize + 2
                     \/ exists p, In p (split t TaxGPT.PARA) /\ chunkSize < len p /\ c = trim p)
                   (if truthy (trim cur) then chunks ++ [trim cur] else chunks)).
  { destruct (truthy (trim cur)) eqn:Htr; [| exact Hchunks].
    apply Forall_app. split; [exact Hchunks |]. constructor; [| constructor].
    destruct Hcur as [-> | [H | [p [Hp E]]]]; [discriminate Htr | |].
    - left. pose proof (trim_length cur). lia.
    - destruct (Z.lt_ge_cases chunkSize (len p)) as [Hlt | Hge].
      + right. exists p. auto.
      + left. rewrite E. pose proof (trim_length p). lia. }
  intros Hc. rewrite List.Forall_forall in Hall. apply Hall, Hc.
Qed.

(** C4 (the input on which it fails). With the size 10, the paragraphs
    [cccc] and [dddddd] pass the test of the loop (4 + 6 is not more than
    10) and are put into one chunk with the delimiter between them: the
    chunk has 12 characters, and no paragraph of the text has more than 9. *)
Theorem createChunks_overflow :
  split overflow_text TaxGPT.PARA = [str "aaaaaaaaa"; str "cccc"; str "dddddd"]
  /\ TaxGPT.createChunks overflow_text 10
     = [str "aaaaaaaaa"; str "cccc" ++ TaxGPT.PARA ++ str "dddddd"]
  /\ len (str "cccc" ++ TaxGPT.PARA ++ str "dddddd") = 12
  /\ Forall (fun p => len p <= 9) (split overflow_text TaxGPT.PARA).
Proof.
  split; [reflexivity |]. split; [reflexivity |]. split; [reflexivity |].
  repeat constructor; discriminate.
Qed.

(** ** Splitting on one character *)

Section SplitChar.

Variable c : char.

Lemma split_char_cons (x : char) (s : text) :
  split (x :: s) [c]
  = if char_eqb c x then [] :: split s [c] else cons_head x (split s [c]).
Proof.
  unfold split. rewrite split_go_cons.
  replace (startsWith (x :: s) [c]) with (char_eqb c x)
    by (simpl; rewrite andb_true_r; reflexivity).
  reflexivity.
Qed.

Lemma includes_char_cons (x : char) (s : text) :
  includes (x :: s) [c] = char_eqb c x || includes s [c].
Proof. simpl. rewrite andb_true_r. reflexivity. Qed.

Lemma includes_char_app (a b : text) :
  includes (a ++ b) [c] = includes a [c] || includes b [c].
Proof.
  induction a as [| x a IH].
  - destruct b; reflexivity.
  - change ((x :: a) ++ b) with (x :: (a ++ b)).
    rewrite !includes_char_cons, IH, orb_assoc. reflexivity.
Qed.

Lemma split_char_none (s : text) :
  includes s [c] = false -> split s [c] = [s].
Proof.
  induction s as [| x s IH]; intros H; [reflexivity |].
  rewrite includes_char_cons in H. apply orb_false_iff in H.
  destruct H as [Hx Hs]. rewrite split_char_cons, Hx, (IH Hs). reflexivity.
Qed.

Lemma split_char_some (s : text) :
  includes s [c] = true -> (2 <= List.length (split s [c]))%nat.
Proof.
  induction s as [| x s IH]; intros H; [discriminate H |].
  rewrite includes_char_cons in H. rewrite split_char_cons.
  pose proof (split_go_nonempty [c] 0 s) as Hne. fold (split s [c]) in Hne.
  destruct (char_eqb c x); simpl in H.
  - destruct (split s [c]); [congruence | simpl; lia].
  - specialize (IH H). destruct (split s [c]); simpl in *; lia.
Qed.

Lemma split_char_last (s : text) :
  includes (List.last (split s [c]) []) [c] = false.
Proof.
  induction s as [| x s IH]; [reflexivity |].
  rewrite split_char_cons.
  pose proof (split_go_nonempty [c] 0 s) as Hne. fold (split s [c]) in Hne.
  destruct (char_eqb c x) eqn:Hx.
  - destruct (split s [c]) as [| h t]; [congruence | exact IH].
  - destruct (split s [c]) as [| h t]; [congruence |].
    destruct t as [| h' t].
    + change (List.last (cons_head x [h]) []) with (x :: h).
      rewrite includes_char_cons, Hx. exact IH.
    + exact IH.
Qed.

(** Splitting a text that grows at its end: the complete segments stay,
    and the last one is split again with the new characters. *)
Lemma split_char_app (a b : text) :
  split (a ++ b) [c]
  = removelast (split a [c]) ++ split (List.last (split a [c]) [] ++ b) [c].
Proof.
  induction a as [| x a IH]; [reflexivity |].
  change ((x :: a) ++ b) with (x :: (a ++ b)).
  rewrite !split_char_cons, IH.
  pose proof (split_go_nonempty [c] 0 a) as Hne. fold (split a [c]) in Hne.
  destruct (char_eqb c x) eqn:Hx.
  - destruct (split a [c]) as [| h t]; [congruence | reflexivity].
  - destruct (split a [c]) as [| h t]; [congruence |].
    destruct t as [| h' t].
    + simpl. rewrite split_char_cons, Hx. reflexivity.
    + reflexivity.
Qed.

End SplitChar.

Lemma removelast_last {A : Type} (l : list A) (d : A) :
  l <> [] -> removelast l ++ [List.last l d] = l.
Proof. intros H. symmetry. apply app_removelast_last, H. Qed.

Lemma firstn_pred_removelast {A : Type} (l : list A) :
  firstn (List.length l - 1) l = removelast l.
Proof. rewrite removelast_firstn_len. f_equal. lia. Qed.

Lemma slice_drop_last {A : Type} (l : list A) :
  slice l 0 (-1) = removelast l.
Proof.
  unfold slice, rel_index. simpl.
  rewrite <- firstn_pred_removelast.
  replace (Z.to_nat (Z.min 0 (Z.of_nat (List.length l)))) with 0%nat by lia.
  replace (Z.to_nat (Z.max (Z.of_nat (List.length l) + -1) 0) - 0)%nat
    with (List.length l - 1)%nat by lia.
  reflexivity.
Qed.

(** ** The stream renderer *)

Lemma stream_inv_buffer (received : text) (st : TaxGPT.StreamState) :
  stream_inv received st ->
  includes (TaxGPT.currentLine st) [NL] = false
  /\ removelast (split received [NL]) = TaxGPT.lines st
  /\ List.last (split received [NL]) [] = TaxGPT.currentLine st.
Proof.
  intros [_ [H _]]. rewrite <- H.
  rewrite removelast_app by discriminate. simpl. rewrite app_nil_r.
  rewrite last_last. repeat split.
  pose proof (split_char_last NL received) as Hl.
  rewrite <- H, last_last in Hl. exact Hl.
Qed.

(** One delta: the buffer with the delta behind it is split; the complete
    segments are emitted and the last one is the new buffer. *)
Lemma stream_step_parts (received : text) (st : TaxGPT.StreamState) (delta : text) :
  stream_inv received st ->
  let parts := split (TaxGPT.currentLine st ++ delta) [NL] in
  TaxGPT.fullContent (TaxGPT.stream_step st delta) = TaxGPT.fullContent st ++ delta
  /\ TaxGPT.lines (TaxGPT.stream_step st delta) = TaxGPT.lines st ++ removelast parts
  /\ TaxGPT.currentLine (TaxGPT.stream_step st delta) = List.last parts []
  /\ TaxGPT.out (TaxGPT.stream_step st delta)
     = TaxGPT.out st ++ List.map TaxGPT.emit_line (removelast parts).
Proof.
  intros Hinv parts. destruct (stream_inv_buffer _ _ Hinv) as [Hbuf _].
  unfold TaxGPT.stream_step.
  destruct delta as [| d delta].
  - simpl. subst parts. rewrite !app_nil_r.
    rewrite (split_char_none NL _ Hbuf). simpl. rewrite !app_nil_r. auto.
  - cbn [truthy].
    destruct (includes (d :: delta) [NL]) eqn:Hd; cbn [TaxGPT.fullContent TaxGPT.lines TaxGPT.currentLine TaxGPT.out].
    + fold parts. rewrite firstn_pred_removelast. auto.
    + subst parts. rewrite split_char_none
        by (rewrite includes_char_app, Hbuf, Hd; reflexivity).
      simpl. rewrite !app_nil_r. auto.
Qed.

Lemma stream_step_inv (received : text) (st : TaxGPT.StreamState) (delta : text) :
  stream_inv received st -> stream_inv (received ++ delta) (TaxGPT.stream_step st delta).
Proof.
  intros Hinv.
  destruct (stream_step_parts received st delta Hinv) as [Hf [Hl [Hc Ho]]].
  destruct (stream_inv_buffer _ _ Hinv) as [_ [Hlines Hlast]].
  destruct Hinv as [H1 [H2 H3]].
  unfold stream_inv. rewrite Hf, Hl, Hc, Ho, H1, H3. split; [reflexivity |]. split.
  - rewrite (split_char_app NL received delta), Hlines, Hlast, <- app_assoc. f_equal.
    apply removelast_last, split_go_nonempty.
  - rewrite List.map_app, app_assoc. reflexivity.
Qed.

Lemma stream_loop_inv (deltas : list text) :
  forall (received : text) (st : TaxGPT.StreamState),
    stream_inv received st ->
    stream_inv (received ++ List.concat deltas) (fold_left TaxGPT.stream_step deltas st).
Proof.
  induction deltas as [| d deltas IH]; intros received st Hinv; simpl.
  - rewrite app_nil_r. exact Hinv.
  - rewrite app_assoc. apply IH, stream_step_inv, Hinv.
Qed.

Lemma stream_start_inv : stream_inv [] TaxGPT.stream_start.
Proof. repeat split. Qed.

Lemma stream_flush_redraw_content (st : TaxGPT.StreamState) :
  TaxGPT.fullContent (TaxGPT.stream_redraw (TaxGPT.stream_flush st))
  = TaxGPT.fullContent st.
Proof.
  unfold TaxGPT.stream_redraw, TaxGPT.stream_flush.
  destruct (truthy (TaxGPT.currentLine st)); simpl;
    destruct (includes (TaxGPT.fullContent st) [Formatter.PIPE]); reflexivity.
Qed.

Lemma join_lines (f : text -> text) (ls : list text) :
  ls <> [] ->
  join [NL] (List.map f ls) ++ [NL] = List.concat (List.map (fun l => f l ++ [NL]) ls).
Proof.
  induction ls as [| l ls IH]; intros Hne; [congruence |].
  destruct ls as [| l' ls].
  - simpl. rewrite app_nil_r. reflexivity.
  - change (List.map f (l :: l' :: ls)) with (f l :: List.map f (l' :: ls)).
    rewrite join_cons by discriminate.
    rewrite <- !app_assoc, IH by discriminate.
    simpl. rewrite <- !app_assoc. reflexivity.
Qed.

(** C8. The stream renderer keeps, after every delta, the text received
    so far as the concatenation of the deltas, every complete line of it
    emitted through [formatLine], and its last, partial segment as the
    buffer; a delta is put behind the buffer, the segments before the last
    line feed are emitted at once and the rest is the new buffer; at the
    end a non-empty buffer is emitted; the text returned is the
    concatenation of the deltas.  For the five deltas of the example the
    text is the two lines, the first line is out after the third delta,
    and the percentage of the second line stands between the opening and
    the closing sequence of the highlight colour.  [formatStreamChunk]
    splits in the same way. *)
Theorem stream_rendering :
  (forall deltas : list text,
      snd (TaxGPT.streamResponse deltas) = List.concat deltas)
  /\ (forall deltas : list text,
        let st := fold_left TaxGPT.stream_step deltas TaxGPT.stream_start in
        TaxGPT.fullContent st = List.concat deltas
        /\ TaxGPT.lines st ++ [TaxGPT.currentLine st] = split (List.concat deltas) [NL]
        /\ TaxGPT.out st
           = TaxGPT.out TaxGPT.stream_start
             ++ List.map TaxGPT.emit_line (TaxGPT.lines st))
  /\ (forall (deltas : list text) (delta : text),
        let st := fold_left TaxGPT.stream_step deltas TaxGPT.stream_start in
        let parts := split (TaxGPT.currentLine st ++ delta) [NL] in
        TaxGPT.lines (TaxGPT.stream_step st delta) = TaxGPT.lines st ++ removelast parts
        /\ TaxGPT.currentLine (TaxGPT.stream_step st delta) = List.last parts []
        /\ TaxGPT.out (TaxGPT.stream_step st delta)
           = TaxGPT.out st ++ List.map TaxGPT.emit_line (removelast parts))
  /\ (forall st : TaxGPT.StreamState,
        TaxGPT.out (TaxGPT.stream_flush st)
        = TaxGPT.out st
          ++ (if truthy (TaxGPT.currentLine st)
              then [TaxGPT.emit_line (TaxGPT.currentLine st)] else []))
  /\ (TaxGPT.streamResponse
        [str "Hello "; str "wor"; str "ld" ++ [NL]; str "Rate: "; str "22%"]
      = (TaxGPT.out TaxGPT.stream_start
         ++ [TaxGPT.emit_line (str "Hello world"); TaxGPT.emit_line (str "Rate: 22%")],
         str "Hello world" ++ [NL] ++ str "Rate: 22%")
      /\ TaxGPT.out
           (fold_left TaxGPT.stream_step [str "Hello "; str "wor"; str "ld" ++ [NL]]
                      TaxGPT.stream_start)
         = TaxGPT.out TaxGPT.stream_start ++ [TaxGPT.emit_line (str "Hello world")]
      /\ TaxGPT.emit_line (str "Rate: 22%")
         = Chalk.applyStyle C.agent (str "  ") ++ str "Rate: "
           ++ Chalk.openAll C.highlight ++ str "22%" ++ Chalk.closeAll C.highlight
           ++ [NL])
  /\ (forall chunk currentLine : text,
        Formatter.formatStreamChunk chunk currentLine
        = if includes (currentLine ++ chunk) [NL]
          then (List.concat
                  (List.map (fun l => str "  " ++ Formatter.formatLine l ++ [NL])
                            (removelast (split (currentLine ++ chunk) [NL]))),
                List.last (split (currentLine ++ chunk) [NL]) [])
          else ([], currentLine ++ chunk)).
Proof.
  assert (Hloop : forall deltas,
             stream_inv (List.concat deltas)
               (fold_left TaxGPT.stream_step deltas TaxGPT.stream_start)).
  { intros deltas. apply (stream_loop_inv deltas [] _ stream_start_inv). }
  split; [| split; [| split; [| split; [| split]]]].
  - intros deltas. unfold TaxGPT.streamResponse. simpl.
    rewrite stream_flush_redraw_content. apply (Hloop deltas).
  - intros deltas. apply (Hloop deltas).
  - intros deltas delta st parts.
    destruct (stream_step_parts _ _ delta (Hloop deltas)) as [_ H]. exact H.
  - intros st. unfold TaxGPT.stream_flush.
    destruct (truthy (TaxGPT.currentLine st)); simpl;
      [reflexivity | rewrite app_nil_r; reflexivity].
  - split; [vm_compute; reflexivity |]. split; vm_compute; reflexivity.
  - intros chunk currentLine. unfold Formatter.formatStreamChunk.
    destruct (includes (currentLine ++ chunk) [NL]) eqn:Hnl; [| reflexivity].
    rewrite slice_drop_last. f_equal.
    rewrite <- (join_lines (fun l => str "  " ++ Formatter.formatLine l)).
    + reflexivity.
    + pose proof (split_char_some NL _ Hnl) as Hlen.
      destruct (split (currentLine ++ chunk) [NL]) as [| a [| b l]];
        simpl in Hlen; try lia. discriminate.
Qed.

(** ** Tables *)

Lemma renderTable_cases (lines : list text) (i : nat) :
  Formatter.renderTable lines i
  = if no_table (Formatter.table_block lines i)
    then (None, i)
    else (Some (Formatter.draw_table
                  (Formatter.data_rows
                     (Formatter.parse_rows (Formatter.table_block lines i)))),
          (i + List.length (Formatter.table_block lines i))%nat).
Proof.
  unfold Formatter.renderTable, no_table.
  destruct (List.length (Formatter.table_block lines i) <? 2)%nat; [reflexivity |].
  destruct (List.length (Formatter.parse_rows (Formatter.table_block lines i)) <? 2)%nat;
    [reflexivity |].
  destruct (List.length (Formatter.data_rows
              (Formatter.parse_rows (Formatter.table_block lines i))) =? 0)%nat;
    reflexivity.
Qed.

Lemma parse_rows_cons (l : text) (block : list text) :
  Formatter.parse_rows (l :: block)
  = (if (0 <? List.length (Formatter.parse_row l))%nat then [Formatter.parse_row l] else [])
    ++ Formatter.parse_rows block.
Proof.
  unfold Formatter.parse_rows. simpl.
  destruct (0 <? List.length (Formatter.parse_row l))%nat; reflexivity.
Qed.

Lemma no_table_tail (l : text) (block : list text) :
  no_table (l :: block) = true -> no_table block = true.
Proof.
  unfold no_table. rewrite parse_rows_cons.
  set (rows := Formatter.parse_rows block).
  set (r := Formatter.parse_row l).
  unfold Formatter.data_rows. rewrite List.filter_app, !length_app.
  intros H. apply orb_true_iff in H. rewrite orb_true_iff in H.
  apply orb_true_iff. rewrite orb_true_iff.
  destruct H as [[H | H] | H].
  - left. left. apply Nat.ltb_lt in H. apply Nat.ltb_lt. simpl in H. lia.
  - left. right. apply Nat.ltb_lt in H. apply Nat.ltb_lt. lia.
  - right. apply Nat.eqb_eq in H. apply Nat.eqb_eq. lia.
Qed.

Lemma table_block_cons (lines : list text) (i : nat) (l : text) (rest : list text) :
  skipn i lines = l :: rest ->
  skipn (S i) lines = rest
  /\ Formatter.table_block lines i
     = if Formatter.is_table_line l then l :: Formatter.table_block lines (S i) else [].
Proof.
  intros H.
  assert (Hrest : skipn (S i) lines = rest).
  { change (S i) with (1 + i)%nat. rewrite <- skipn_skipn, H. reflexivity. }
  split; [exact Hrest |].
  unfold Formatter.table_block. rewrite H, Hrest. reflexivity.
Qed.

(** When no table is drawn at a block, each of its lines is written as a
    plain line. *)
Lemma renderMarkdown_plain_block (lines : list text) (n : nat) :
  forall i : nat,
    List.length (Formatter.table_block lines i) = n ->
    no_table (Formatter.table_block lines i) = true ->
    Formatter.renderMarkdown_go lines i (skipn i lines) 0
    = List.concat (List.map plain_line (Formatter.table_block lines i))
      ++ Formatter.renderMarkdown_go lines (i + n) (skipn (i + n) lines) 0.
Proof.
  induction n as [| n IH]; intros i Hlen Hno.
  - destruct (Formatter.table_block lines i); [| discriminate Hlen].
    rewrite Nat.add_0_r. reflexivity.
  - destruct (skipn i lines) as [| l rest] eqn:Hskip.
    { unfold Formatter.table_block in Hlen. rewrite Hskip in Hlen. discriminate Hlen. }
    destruct (table_block_cons lines i l rest Hskip) as [Hrest Hblock].
    rewrite Hblock in Hlen, Hno |- *.
    destruct (Formatter.is_table_line l) eqn:Hl; [| discriminate Hlen].
    simpl in Hlen. injection Hlen as Hlen.
    cbn [Formatter.renderMarkdown_go]. rewrite Hl.
    rewrite renderTable_cases, Hblock, Hno.
    simpl List.concat. unfold plain_line at 1. rewrite <- !app_assoc.
    f_equal. f_equal.
    rewrite <- Hrest, (IH (S i) Hlen (no_table_tail _ _ Hno)).
    f_equal. f_equal; [lia | f_equal; lia].
Qed.

Lemma renderMarkdown_skip (lines : list text) (k : nat) :
  forall (i : nat) (rest : list text),
    Formatter.renderMarkdown_go lines i rest k
    = Formatter.renderMarkdown_go lines (i + k) (skipn k rest) 0.
Proof.
  induction k as [| k IH]; intros i rest.
  - rewrite Nat.add_0_r. reflexivity.
  - destruct rest as [| l rest]; [reflexivity |].
    cbn [Formatter.renderMarkdown_go skipn]. rewrite IH. f_equal. lia.
Qed.

Lemma draw_table_truthy (rows : list (list text)) :
  truthy (Formatter.draw_table rows) = true.
Proof. reflexivity. Qed.

Lemma data_rows_spec (rows : list (list text)) (row : list text) :
  In row (Formatter.data_rows rows)
  <-> In row rows /\ Formatter.is_separator_row row = false.
Proof.
  unfold Formatter.data_rows. rewrite filter_In.
  destruct (Formatter.is_separator_row row); simpl; intuition congruence.
Qed.

(** The claim as worded fails on a header with its separator and nothing
    else: one row is left, and the table is drawn. *)
Lemma renderTable_header_only :
  List.length
    (Formatter.data_rows (Formatter.parse_rows (Formatter.table_block header_only_lines 0)))
  = 1%nat
  /\ Formatter.renderTable header_only_lines 0
     = (Some (Formatter.draw_table [[str "A"; str "B"]]), 2%nat)
  /\ fst (Formatter.renderTable header_only_lines 0) <> None.
Proof.
  split; [vm_compute; reflexivity |]. split; [vm_compute; reflexivity |].
  vm_compute. discriminate.
Qed.

(** C7 (amended). At a block of contiguous lines that start with a pipe
    after trimming, [renderTable] draws a table exactly when the block
    has at least 2 lines, at least 2 of them give a row with a cell, and
    at least 1 row is left once the rows made of dashes and colons only are
    taken out; the table is drawn from the rows left, and the index
    returned is that of the first line behind the block.  Otherwise no
    table is drawn, and [renderMarkdown] writes each line of the block as
    a plain line.  A single pipe line is written as a plain line; the
    three lines of a header, a separator and a body row give the two rows
    of the header and of the body. *)
Theorem renderTable_detection (lines : list text) (i : nat) :
  let block := Formatter.table_block lines i in
  let rows := Formatter.parse_rows block in
  let kept := Formatter.data_rows rows in
  Formatter.renderTable lines i
  = (if (List.length block <? 2)%nat || (List.length rows <? 2)%nat
        || (List.length kept =? 0)%nat
     then (None, i)
     else (Some (Formatter.draw_table kept), (i + List.length block)%nat))
  /\ (forall row, In row kept <-> In row rows /\ Formatter.is_separator_row row = false)
  /\ Formatter.renderMarkdown_go lines i (skipn i lines) 0
     = (if (List.length block <? 2)%nat || (List.length rows <? 2)%nat
           || (List.length kept =? 0)%nat
        then List.concat (List.map plain_line block)
        else Formatter.draw_table kept)
       ++ Formatter.renderMarkdown_go lines (i + List.length block)
            (skipn (i + List.length block) lines) 0
  /\ Formatter.renderMarkdown (str "| A | B |") = plain_line (str "| A | B |")
  /\ Formatter.data_rows (Formatter.parse_rows table_lines)
     = [[str "A"; str "B"]; [str "1"; str "2"]].
Proof.
  intros block rows kept.
  split; [apply renderTable_cases |].
  split; [intros row; apply data_rows_spec |].
  split; [| split; vm_compute; reflexivity].
  change ((List.length block <? 2)%nat || (List.length rows <? 2)%nat
          || (List.length kept =? 0)%nat) with (no_table block).
  destruct (no_table block) eqn:Hno.
  - apply renderMarkdown_plain_block; [reflexivity | exact Hno].
  - destruct (skipn i lines) as [| l rest] eqn:Hskip.
    { unfold block, Formatter.table_block in Hno. rewrite Hskip in Hno.
      discriminate Hno. }
    destruct (table_block_cons lines i l rest Hskip) as [Hrest Hblock].
    fold block in Hblock.
    destruct (Formatter.is_table_line l) eqn:Hl;
      [| rewrite Hblock in Hno; discriminate Hno].
    cbn [Formatter.renderMarkdown_go]. rewrite Hl.
    rewrite renderTable_cases. fold block. rewrite Hno.
    fold rows. fold kept. rewrite draw_table_truthy.
    f_equal. rewrite renderMarkdown_skip.
    assert (Hlen : (1 <= List.length block)%nat) by (rewrite Hblock; simpl; lia).
    replace (S i + (i + List.length block - i - 1))%nat
      with (i + List.length block)%nat by lia.
    f_equal. rewrite <- Hrest, skipn_skipn. f_equal. lia.
Qed.

(** ** JSON: numbers *)

Lemma takeWhile_app_stop {A : Type} (f : A -> bool) (l rest : list A) :
  Forall (fun x => f x = true) l ->
  match rest with [] => True | x :: _ => f x = false end ->
  takeWhile f (l ++ rest) = l.
Proof.
  intros Hl Hrest. induction Hl as [| x l Hx Hl IH]; simpl.
  - destruct rest as [| y rest]; [reflexivity |]. simpl. rewrite Hrest. reflexivity.
  - rewrite Hx, IH. reflexivity.
Qed.

Lemma skipn_app_exact {A : Type} (l rest : list A) :
  skipn (List.length l) (l ++ rest) = rest.
Proof. induction l as [| x l IH]; [reflexivity | exact IH]. Qed.

Lemma text_of_uint_digits (d : Decimal.uint) :
  Forall (fun c => is_digit c = true) (JSON.text_of_uint d).
Proof. induction d; simpl; constructor; (reflexivity || assumption). Qed.

Lemma digits_value_acc (d : Decimal.uint) (acc : positive) :
  fold_left (fun a c => (a * 10 + (c - 48))%N) (JSON.text_of_uint d) (N.pos acc)
  = N.pos (Pos.of_uint_acc d acc).
Proof.
  revert acc. induction d; intros acc; simpl; [reflexivity | ..];
    match goal with
    | |- fold_left _ _ ?a = N.pos (Pos.of_uint_acc _ ?p) =>
        replace a with (N.pos p) by lia; apply IHd
    end.
Qed.

Lemma digits_value_of_uint (d : Decimal.uint) :
  JSON.digits_value (JSON.text_of_uint d) = N.of_uint d.
Proof.
  unfold JSON.digits_value, N.of_uint.
  induction d; simpl; [reflexivity | exact IHd | ..];
    match goal with
    | |- fold_left _ _ ?a = N.pos (Pos.of_uint_acc _ ?p) =>
        change a with (N.pos p); apply digits_value_acc
    end.
Qed.

Lemma digits_value_of_N (n : N) : JSON.digits_value (JSON.text_of_N n) = n.
Proof. unfold JSON.text_of_N. rewrite digits_value_of_uint. apply DecimalN.Unsigned.of_to. Qed.

Lemma to_uint_normal (n : N) : Decimal.unorm (N.to_uint n) = N.to_uint n.
Proof.
  rewrite <- (DecimalN.Unsigned.of_to n) at 2. symmetry.
  apply DecimalN.Unsigned.to_of.
Qed.

(** The digits of a number are not empty and have no leading zero. *)
Lemma text_of_N_shape (n : N) :
  exists d ds, JSON.text_of_N n = d :: ds
               /\ (char_eqb d 48%N && truthy ds = false).
Proof.
  unfold JSON.text_of_N. rewrite <- to_uint_normal.
  unfold Decimal.unorm. pose proof (nzhead_nonzero (N.to_uint n)) as Hnz.
  destruct (Decimal.nzhead (N.to_uint n)) as [| u | u | u | u | u | u | u | u | u | u];
    simpl; try (eexists; eexists; split; reflexivity).
  exfalso. apply (Hnz u). reflexivity.
Qed.

Lemma read_digits (neg : bool) (n : N) (rest : text) :
  number_end rest = true ->
  (let ds := takeWhile is_digit (JSON.text_of_N n ++ rest) in
   let r := skipn (List.length ds) (JSON.text_of_N n ++ rest) in
   match ds with
   | [] => None
   | d :: ds' =>
       if char_eqb d 48%N && truthy ds' then None
       else
         match r with
         | c :: _ =>
             if char_eqb c 46%N || char_eqb c 101%N || char_eqb c 69%N then None
             else Some (JSON.JNumber (if neg then - Z.of_N (JSON.digits_value ds)
                                      else Z.of_N (JSON.digits_value ds)), r)
         | [] => Some (JSON.JNumber (if neg then - Z.of_N (JSON.digits_value ds)
                                     else Z.of_N (JSON.digits_value ds)), r)
         end
   end)
  = Some (JSON.JNumber (if neg then - Z.of_N n else Z.of_N n), rest).
Proof.
  intros Hend. cbv zeta.
  rewrite takeWhile_app_stop.
  - rewrite skipn_app_exact.
    destruct (text_of_N_shape n) as [d [ds [E Hz]]].
    pose proof (digits_value_of_N n) as Hv. rewrite E in *. rewrite Hz, Hv.
    destruct rest as [| c rest]; [reflexivity |].
    simpl in Hend. apply negb_true_iff in Hend.
    apply orb_false_iff in Hend. destruct Hend as [Hend H69].
    apply orb_false_iff in Hend. destruct Hend as [Hend H101].
    apply orb_false_iff in Hend. destruct Hend as [_ H46].
    rewrite H46, H101, H69. reflexivity.
  - apply text_of_uint_digits.
  - destruct rest as [| c rest]; [exact I |].
    simpl in Hend. apply negb_true_iff in Hend.
    repeat (apply orb_false_iff in Hend; destruct Hend as [Hend _]). exact Hend.
Qed.

Lemma read_number_write (z : Z) (rest : text) :
  number_end rest = true ->
  JSON.read_number (JSON.text_of_Z z ++ rest) = Some (JSON.JNumber z, rest).
Proof.
  intros Hend. unfold JSON.read_number, JSON.text_of_Z.
  destruct (Z.ltb_spec z 0) as [Hneg | Hpos].
  - change ((45%N :: JSON.text_of_N (Z.abs_N z)) ++ rest)
      with (45%N :: (JSON.text_of_N (Z.abs_N z) ++ rest)).
    cbn [char_eqb N.eqb Pos.eqb].
    transitivity (Some (JSON.JNumber (- Z.of_N (Z.abs_N z)), rest));
      [exact (read_digits true _ rest Hend) |].
    do 3 f_equal. lia.
  - destruct (text_of_N_shape (Z.abs_N z)) as [d [ds [E _]]].
    assert (Hd : char_eqb d 45%N = false).
    { pose proof (text_of_uint_digits (N.to_uint (Z.abs_N z))) as Hdig.
      fold (JSON.text_of_N (Z.abs_N z)) in Hdig. rewrite E in Hdig.
      inversion Hdig as [| ? ? H1 _]. subst.
      unfold is_digit in H1. apply andb_true_iff in H1. destruct H1 as [H1 _].
      apply N.leb_le in H1. apply N.eqb_neq. lia. }
    pose proof (read_digits false (Z.abs_N z) rest Hend) as H.
    rewrite E in H |- *. simpl app in H |- *. cbv beta iota. rewrite Hd.
    transitivity (Some (JSON.JNumber (Z.of_N (Z.abs_N z)), rest)); [exact H |].
    do 3 f_equal. lia.
Qed.

(** ** JSON: strings *)

Lemma read_string_raw (c : char) (s : text) :
  char_eqb c JSON.QUOTE = false -> char_eqb c JSON.BACKSLASH = false ->
  (c <? 32)%N = false ->
  JSON.read_string (c :: s) = cons_result c (JSON.read_string s).
Proof. intros H1 H2 H3. simpl. rewrite H1, H2, H3. reflexivity. Qed.

Lemma read_string_simple (e u : char) (s : text) :
  char_eqb e 117%N = false -> JSON.unescape_simple e = Some u ->
  JSON.read_string (JSON.BACKSLASH :: e :: s) = cons_result u (JSON.read_string s).
Proof.
  intros H1 H2. cbn [JSON.read_string].
  change (char_eqb JSON.BACKSLASH JSON.QUOTE) with false.
  change (char_eqb JSON.BACKSLASH JSON.BACKSLASH) with true.
  cbv iota. rewrite H1, H2. reflexivity.
Qed.

Lemma hex_digit_value (k : N) :
  (k < 16)%N -> JSON.hex_value (JSON.hex_digit k) = Some k.
Proof.
  intros H. destruct k as [| p]; [reflexivity |].
  do 4 (try (destruct p as [p | p |]; try reflexivity)); exfalso; lia.
Qed.

Lemma read_string_unicode (c : char) (s : text) :
  (c < 65536)%N ->
  JSON.read_string (JSON.escape_unicode c ++ s) = cons_result c (JSON.read_string s).
Proof.
  intros Hc. unfold JSON.escape_unicode.
  cbn [app JSON.read_string].
  change (char_eqb JSON.BACKSLASH JSON.QUOTE) with false.
  change (char_eqb JSON.BACKSLASH JSON.BACKSLASH) with true.
  change (char_eqb 117%N 117%N) with true. cbv iota.
  rewrite !hex_digit_value by (apply N.mod_upper_bound; discriminate).
  replace ((c / 4096) mod 16 * 4096 + (c / 256) mod 16 * 256
           + (c / 16) mod 16 * 16 + c mod 16)%N with c; [reflexivity |].
  pose proof (N.div_mod c 16 ltac:(discriminate)).
  pose proof (N.div_mod (c / 16) 16 ltac:(discriminate)).
  pose proof (N.div_mod (c / 256) 16 ltac:(discriminate)).
  pose proof (N.div_mod (c / 4096) 16 ltac:(discriminate)).
  assert (H256 : (c / 256 = c / 16 / 16)%N) by (rewrite N.Div0.div_div; reflexivity).
  assert (H4096 : (c / 4096 = c / 256 / 16)%N) by (rewrite N.Div0.div_div; reflexivity).
  assert (Hsmall : (c / 4096 / 16 = 0)%N).
  { rewrite N.Div0.div_div. apply N.div_small. exact Hc. }
  lia.
Qed.

Lemma read_string_quote_char (c : char) (s : text) :
  JSON.is_high_surrogate c = false -> JSON.is_low_surrogate c = false ->
  JSON.read_string (JSON.quote_char c ++ s) = cons_result c (JSON.read_string s).
Proof.
  intros _ _. unfold JSON.quote_char.
  destruct (char_eqb c JSON.QUOTE) eqn:H34.
  { apply N.eqb_eq in H34. subst c. apply read_string_simple; reflexivity. }
  destruct (char_eqb c JSON.BACKSLASH) eqn:H92.
  { apply N.eqb_eq in H92. subst c. apply read_string_simple; reflexivity. }
  destruct (char_eqb c 8%N) eqn:H8.
  { apply N.eqb_eq in H8. subst c. apply read_string_simple; reflexivity. }
  destruct (char_eqb c 9%N) eqn:H9.
  { apply N.eqb_eq in H9. subst c. apply read_string_simple; reflexivity. }
  destruct (char_eqb c 10%N) eqn:H10.
  { apply N.eqb_eq in H10. subst c. apply read_string_simple; reflexivity. }
  destruct (char_eqb c 12%N) eqn:H12.
  { apply N.eqb_eq in H12. subst c. apply read_string_simple; reflexivity. }
  destruct (char_eqb c 13%N) eqn:H13.
  { apply N.eqb_eq in H13. subst c. apply read_string_simple; reflexivity. }
  destruct (c <? 32)%N eqn:H32.
  { apply read_string_unicode. apply N.ltb_lt in H32. lia. }
  apply read_string_raw; assumption.
Qed.

Lemma surrogate_raw (c : char) (s : text) :
  JSON.is_high_surrogate c = true \/ JSON.is_low_surrogate c = true ->
  JSON.read_string (c :: s) = cons_result c (JSON.read_string s)
  /\ (c < 65536)%N.
Proof.
  intros H.
  assert (Hc : (55296 <= c <= 57343)%N).
  { unfold JSON.is_high_surrogate, JSON.is_low_surrogate in H.
    destruct H as [H | H]; apply andb_true_iff in H; destruct H as [H1 H2];
      apply N.leb_le in H1; apply N.leb_le in H2; lia. }
  split; [| lia].
  apply read_string_raw.
  - apply N.eqb_neq. unfold JSON.QUOTE. lia.
  - apply N.eqb_neq. unfold JSON.BACKSLASH. lia.
  - apply N.ltb_ge. lia.
Qed.

Lemma read_string_quote_go (s rest : text) :
  JSON.read_string (JSON.quote_go s ++ JSON.QUOTE :: rest) = Some (s, rest).
Proof.
  remember (List.length s) as n eqn:Hn. revert s Hn.
  induction n as [n IH] using lt_wf_ind. intros s Hn.
  destruct s as [| c s]; [reflexivity |].
  assert (IHs : JSON.read_string (JSON.quote_go s ++ JSON.QUOTE :: rest) = Some (s, rest)).
  { apply (IH (List.length s)); [simpl in Hn; lia | reflexivity]. }
  cbn [JSON.quote_go].
  destruct (JSON.is_high_surrogate c) eqn:Hhigh.
  - destruct (surrogate_raw c (JSON.quote_go s ++ JSON.QUOTE :: rest)
                (or_introl Hhigh)) as [_ Hc].
    destruct s as [| d s].
    + rewrite read_string_unicode by exact Hc. reflexivity.
    + destruct (JSON.is_low_surrogate d) eqn:Hlow.
      * cbn [app].
        rewrite (proj1 (surrogate_raw c _ (or_introl Hhigh))).
        rewrite (proj1 (surrogate_raw d _ (or_intror Hlow))).
        rewrite (IH (List.length s)); [reflexivity | simpl in Hn; lia | reflexivity].
      * rewrite <- app_assoc, read_string_unicode by exact Hc.
        rewrite IHs. reflexivity.
  - destruct (JSON.is_low_surrogate c) eqn:Hlow.
    + destruct (surrogate_raw c [] (or_intror Hlow)) as [_ Hc].
      rewrite <- app_assoc, read_string_unicode by exact Hc.
      rewrite IHs. reflexivity.
    + rewrite <- app_assoc, read_string_quote_char by assumption.
      rewrite IHs. reflexivity.
Qed.

Lemma read_string_quote (s rest : text) :
  JSON.quote s ++ rest
  = JSON.QUOTE :: (JSON.quote_go s ++ JSON.QUOTE :: rest)
  /\ JSON.read_string (JSON.quote_go s ++ JSON.QUOTE :: rest) = Some (s, rest).
Proof.
  split; [| apply read_string_quote_go].
  unfold JSON.quote. simpl. rewrite <- app_assoc. reflexivity.
Qed.

(** ** JSON: values *)

(** Induction on values, with the hypothesis for every item of an array
    and every member of an object. *)
Lemma value_nested_ind (P : JSON.value -> Prop) :
  P JSON.JNull ->
  (forall b, P (JSON.JBool b)) ->
  (forall z, P (JSON.JNumber z)) ->
  (forall s, P (JSON.JString s)) ->
  (forall items, Forall P items -> P (JSON.JArray items)) ->
  (forall members, Forall (fun kv => P (snd kv)) members -> P (JSON.JObject members)) ->
  forall v, P v.
Proof.
  intros Hnull Hbool Hnum Hstr Harr Hobj.
  fix IH 1. intros v. destruct v as [| b | z | s | items | members].
  - exact Hnull.
  - apply Hbool.
  - apply Hnum.
  - apply Hstr.
  - apply Harr. induction items as [| x items IHitems]; constructor.
    + apply IH.
    + exact IHitems.
  - apply Hobj. induction members as [| kv members IHmembers]; constructor.
    + apply IH.
    + exact IHmembers.
Qed.

Lemma skip_ws_blank (ws s : text) :
  json_blank ws -> JSON.skip_ws (ws ++ s) = JSON.skip_ws s.
Proof.
  intros H. unfold JSON.skip_ws.
  induction H as [| c ws Hc Hws IH]; simpl; [reflexivity |].
  rewrite Hc. exact IH.
Qed.

Lemma skip_ws_opens (s : text) : opens_value s = true -> JSON.skip_ws s = s.
Proof.
  destruct s as [| c s]; [discriminate |]. simpl. intros H.
  apply andb_true_iff in H. destruct H as [H _].
  apply andb_true_iff in H. destruct H as [H _].
  apply negb_true_iff in H. unfold JSON.skip_ws. simpl. rewrite H. reflexivity.
Qed.

Lemma indent_blank (depth : nat) : json_blank (JSON.indent depth).
Proof.
  unfold JSON.indent, json_blank. apply List.Forall_forall. intros c Hc.
  apply repeat_spec in Hc. subst c. reflexivity.
Qed.

Lemma read_value_blank (fuel : nat) (ws s : text) :
  json_blank ws -> JSON.read_value fuel (ws ++ s) = JSON.read_value fuel s.
Proof.
  intros H. destruct fuel as [| fuel]; [reflexivity |].
  cbn [JSON.read_value]. rewrite (skip_ws_blank ws s H). reflexivity.
Qed.

Lemma read_members_blank (fuel : nat) (ws s : text) :
  json_blank ws -> JSON.read_members fuel (ws ++ s) = JSON.read_members fuel s.
Proof.
  intros H. destruct fuel as [| fuel]; [reflexivity |].
  cbn [JSON.read_members]. rewrite (skip_ws_blank ws s H). reflexivity.
Qed.

Lemma text_of_Z_head (z : Z) :
  exists c r, JSON.text_of_Z z = c :: r /\ (is_digit c || char_eqb c 45%N = true).
Proof.
  unfold JSON.text_of_Z. destruct (z <? 0).
  - eexists. eexists. split; reflexivity.
  - destruct (text_of_N_shape (Z.abs_N z)) as [d [ds [E _]]].
    exists d, ds. split; [exact E |].
    pose proof (text_of_uint_digits (N.to_uint (Z.abs_N z))) as Hdig.
    fold (JSON.text_of_N (Z.abs_N z)) in Hdig. rewrite E in Hdig.
    inversion Hdig as [| ? ? H1 _]. rewrite H1. reflexivity.
Qed.

Lemma number_head_cases (c : char) :
  is_digit c || char_eqb c 45%N = true ->
  JSON.is_ws c = false /\ char_eqb c 123%N = false /\ char_eqb c 91%N = false
  /\ char_eqb c JSON.QUOTE = false /\ char_eqb 116%N c = false
  /\ char_eqb 102%N c = false /\ char_eqb 110%N c = false
  /\ char_eqb c 93%N = false /\ char_eqb c 125%N = false.
Proof.
  intros H.
  assert (Hc : (48 <= c <= 57 \/ c = 45)%N).
  { apply orb_true_iff in H. destruct H as [H | H].
    - unfold is_digit in H. apply andb_true_iff in H. destruct H as [H1 H2].
      apply N.leb_le in H1. apply N.leb_le in H2. lia.
    - apply N.eqb_eq in H. lia. }
  unfold JSON.is_ws, JSON.QUOTE, char_eqb.
  repeat split;
    repeat (apply orb_false_iff; split); apply N.eqb_neq; lia.
Qed.

Lemma startsWith_head_false (c : char) (r : text) (p0 : char) (p : text) :
  char_eqb p0 c = false -> startsWith (c :: r) (p0 :: p) = false.
Proof. intros H. simpl. rewrite H. reflexivity. Qed.

Lemma read_value_number (fuel : nat) (z : Z) (rest : text) :
  number_end rest = true ->
  JSON.read_value (S fuel) (JSON.text_of_Z z ++ rest) = Some (JSON.JNumber z, rest).
Proof.
  intros Hend. rewrite <- (read_number_write z rest Hend).
  destruct (text_of_Z_head z) as [c [r [E Hc]]]. rewrite E.
  destruct (number_head_cases c Hc)
    as [Hws [H123 [H91 [H34 [H116 [H102 [H110 _]]]]]]].
  cbn [JSON.read_value app]. unfold JSON.skip_ws. cbn [dropWhile].
  rewrite Hws, H123, H91, H34.
  change (str "true") with (116%N :: str "rue").
  change (str "false") with (102%N :: str "alse").
  change (str "null") with (110%N :: str "ull").
  rewrite !startsWith_head_false by assumption. reflexivity.
Qed.

Lemma write_opens (depth : nat) (v : JSON.value) (rest : text) :
  opens_value (JSON.write depth v ++ rest) = true.
Proof.
  destruct v as [| [|] | z | s | [| x items] | [| kv members]]; try reflexivity.
  cbn [JSON.write].
  destruct (text_of_Z_head z) as [c [r [E Hc]]]. rewrite E.
  destruct (number_head_cases c Hc) as [Hws [_ [_ [_ [_ [_ [_ [H93 H125]]]]]]]].
  simpl. rewrite Hws, H93, H125. reflexivity.
Qed.

Lemma opens_head (s : text) :
  opens_value s = true ->
  exists d r, s = d :: r /\ char_eqb d 93%N = false /\ char_eqb d 125%N = false.
Proof.
  destruct s as [| d r]; [discriminate |]. simpl. intros H.
  apply andb_true_iff in H. destruct H as [H H125].
  apply andb_true_iff in H. destruct H as [_ H93].
  apply negb_true_iff in H93. apply negb_true_iff in H125.
  exists d, r. auto.
Qed.

Lemma read_value_array (fuel : nat) (ws s : text) (vs : list JSON.value) (tail : text) :
  json_blank ws -> opens_value s = true ->
  JSON.read_elements fuel (ws ++ s) = Some (vs, tail) ->
  JSON.read_value (S fuel) (91%N :: ws ++ s) = Some (JSON.JArray vs, tail).
Proof.
  intros Hws Hs H. cbn [JSON.read_value]. unfold JSON.skip_ws at 1. cbn [dropWhile].
  change (JSON.is_ws 91%N) with false. cbv iota.
  change (char_eqb 91%N 123%N) with false. change (char_eqb 91%N 91%N) with true.
  cbv iota. rewrite (skip_ws_blank ws s Hws), (skip_ws_opens s Hs).
  destruct (opens_head s Hs) as [d [r [E [H93 _]]]].
  rewrite E at 1. rewrite H93, H. reflexivity.
Qed.

Lemma read_value_object (fuel : nat) (ws s : text) (ms : list (text * JSON.value))
      (tail : text) :
  json_blank ws -> opens_value s = true ->
  JSON.read_members fuel (ws ++ s) = Some (ms, tail) ->
  JSON.read_value (S fuel) (123%N :: ws ++ s) = Some (JSON.JObject ms, tail).
Proof.
  intros Hws Hs H. cbn [JSON.read_value]. unfold JSON.skip_ws at 1. cbn [dropWhile].
  change (JSON.is_ws 123%N) with false. cbv iota.
  change (char_eqb 123%N 123%N) with true.
  cbv iota. rewrite (skip_ws_blank ws s Hws), (skip_ws_opens s Hs).
  destruct (opens_head s Hs) as [d [r [E [_ H125]]]].
  rewrite E at 1. rewrite H125, H. reflexivity.
Qed.

Lemma skip_ws_close (cws : text) (c : char) (tail : text) :
  json_blank cws -> JSON.is_ws c = false ->
  JSON.skip_ws ([NL] ++ cws ++ c :: tail) = c :: tail.
Proof.
  intros Hc Hn. rewrite app_assoc, skip_ws_blank.
  - unfold JSON.skip_ws. simpl. rewrite Hn. reflexivity.
  - apply Forall_app. split; [repeat constructor | exact Hc].
Qed.

Lemma read_elements_write (items : list JSON.value) :
  items <> [] -> Forall reads_back items ->
  forall (depth fuel : nat) (ws cws tail : text),
    json_blank ws -> json_blank cws ->
    (list_sum (List.map (fun x => S (value_size x)) items) <= fuel)%nat ->
    JSON.read_elements fuel
      (ws ++ join (item_sep depth) (List.map (JSON.write depth) items)
          ++ [NL] ++ cws ++ 93%N :: tail)
    = Some (items, tail).
Proof.
  induction items as [| v items IH]; intros Hne Hall depth fuel ws cws tail Hws Hcws Hfuel;
    [congruence |].
  apply Forall_cons_iff in Hall. destruct Hall as [Hv Hall].
  simpl in Hfuel. destruct fuel as [| fuel]; [lia |].
  cbn [JSON.read_elements]. rewrite read_value_blank by exact Hws.
  destruct items as [| v2 items].
  - cbn [List.map join].
    rewrite (Hv depth fuel) by (reflexivity || lia).
    rewrite skip_ws_close by (reflexivity || exact Hcws).
    reflexivity.
  - change (List.map (JSON.write depth) (v :: v2 :: items))
      with (JSON.write depth v :: List.map (JSON.write depth) (v2 :: items)).
    rewrite join_cons by discriminate.
    rewrite <- !app_assoc.
    rewrite (Hv depth fuel) by (reflexivity || lia).
    unfold item_sep at 1. rewrite <- !app_assoc.
    change (JSON.skip_ws (str "," ++ ?x)) with (44%N :: x).
    cbv iota. change (char_eqb 44%N 44%N) with true. cbv iota.
    rewrite app_assoc.
    rewrite (IH ltac:(discriminate) Hall depth fuel ([NL] ++ JSON.indent depth) cws tail).
    + reflexivity.
    + apply Forall_app. split; [repeat constructor | apply indent_blank].
    + exact Hcws.
    + simpl in *. lia.
Qed.

Lemma read_members_write (members : list (text * JSON.value)) :
  members <> [] -> Forall (fun kv => reads_back (snd kv)) members ->
  forall (depth fuel : nat) (ws cws tail : text),
    json_blank ws -> json_blank cws ->
    (list_sum (List.map (fun kv => S (value_size (snd kv))) members) <= fuel)%nat ->
    JSON.read_members fuel
      (ws ++ join (item_sep depth) (List.map (write_member depth) members)
          ++ [NL] ++ cws ++ 125%N :: tail)
    = Some (members, tail).
Proof.
  induction members as [| [k v] members IH];
    intros Hne Hall depth fuel ws cws tail Hws Hcws Hfuel; [congruence |].
  apply Forall_cons_iff in Hall. destruct Hall as [Hv Hall]. simpl in Hv.
  simpl in Hfuel. destruct fuel as [| fuel]; [lia |].
  rewrite read_members_blank by exact Hws.
  assert (Hstep : forall rest,
            number_end rest = true ->
            JSON.read_members (S fuel) (write_member depth (k, v) ++ rest)
            = match JSON.skip_ws rest with
              | d :: r' =>
                  if char_eqb d 44%N then
                    match JSON.read_members fuel r' with
                    | Some (ms, r'') => Some ((k, v) :: ms, r'')
                    | None => None
                    end
                  else if char_eqb d 125%N then Some ([(k, v)], r')
                  else None
              | [] => None
              end).
  { intros rest Hrest. unfold write_member. cbn [fst snd].
    rewrite <- !app_assoc.
    destruct (read_string_quote k (str ": " ++ JSON.write depth v ++ rest)) as [E Hread].
    rewrite E. cbn [JSON.read_members].
    unfold JSON.skip_ws at 1. cbn [dropWhile].
    change (JSON.is_ws JSON.QUOTE) with false. cbv iota.
    change (char_eqb JSON.QUOTE JSON.QUOTE) with true. cbv iota.
    rewrite Hread.
    change (JSON.skip_ws (str ": " ++ ?x)) with (58%N :: 32%N :: x).
    cbv iota. change (char_eqb 58%N 58%N) with true. cbv iota.
    change (JSON.read_value fuel (32%N :: ?y))
      with (JSON.read_value fuel ([32%N] ++ y)).
    rewrite (read_value_blank fuel [32%N]) by (repeat constructor).
    rewrite (Hv depth fuel rest) by (exact Hrest || lia).
    reflexivity. }
  destruct members as [| kv2 members].
  - cbn [List.map join].
    rewrite Hstep by reflexivity.
    rewrite skip_ws_close by (reflexivity || exact Hcws).
    reflexivity.
  - change (List.map (write_member depth) ((k, v) :: kv2 :: members))
      with (write_member depth (k, v) :: List.map (write_member depth) (kv2 :: members)).
    rewrite join_cons by discriminate.
    rewrite <- !app_assoc.
    rewrite Hstep by reflexivity.
    unfold item_sep at 1. rewrite <- !app_assoc.
    change (JSON.skip_ws (str "," ++ ?x)) with (44%N :: x).
    cbv iota. change (char_eqb 44%N 44%N) with true. cbv iota.
    rewrite app_assoc.
    rewrite (IH ltac:(discriminate) Hall depth fuel ([NL] ++ JSON.indent depth) cws tail).
    + reflexivity.
    + apply Forall_app. split; [repeat constructor | apply indent_blank].
    + exact Hcws.
    + simpl in *. lia.
Qed.

Lemma join_opens (depth : nat) (f : nat -> JSON.value -> text) (sep : text)
      (x : JSON.value) (items : list JSON.value) (rest : text) :
  (forall r, opens_value (f depth x ++ r) = true) ->
  opens_value (join sep (List.map (f depth) (x :: items)) ++ rest) = true.
Proof.
  intros H. destruct items as [| y items].
  - apply H.
  - change (List.map (f depth) (x :: y :: items))
      with (f depth x :: List.map (f depth) (y :: items)).
    rewrite join_cons by discriminate. rewrite <- app_assoc. apply H.
Qed.

Lemma join_members_opens (depth : nat) (sep : text)
      (kv : text * JSON.value) (members : list (text * JSON.value)) (rest : text) :
  opens_value (join sep (List.map (write_member depth) (kv :: members)) ++ rest) = true.
Proof.
  destruct members as [| kv2 members].
  - reflexivity.
  - change (List.map (write_member depth) (kv :: kv2 :: members))
      with (write_member depth kv :: List.map (write_member depth) (kv2 :: members)).
    rewrite join_cons by discriminate. reflexivity.
Qed.

Theorem write_reads_back (v : JSON.value) : reads_back v.
Proof.
  induction v as [| b | z | s | items IH | members IH] using value_nested_ind;
    intros depth fuel rest Hfuel Hrest;
    (destruct fuel as [| fuel]; [simpl in Hfuel; lia |]).
  - reflexivity.
  - destruct b; reflexivity.
  - apply read_value_number, Hrest.
  - cbn [JSON.write].
    destruct (read_string_quote s rest) as [E Hread]. rewrite E.
    cbn [JSON.read_value]. unfold JSON.skip_ws. cbn [dropWhile].
    change (JSON.is_ws JSON.QUOTE) with false. cbv iota.
    change (char_eqb JSON.QUOTE 123%N) with false.
    change (char_eqb JSON.QUOTE 91%N) with false.
    change (char_eqb JSON.QUOTE JSON.QUOTE) with true. cbv iota.
    rewrite Hread. reflexivity.
  - destruct items as [| x items]; [reflexivity |].
    cbn [JSON.write]. fold (item_sep (S depth)). rewrite <- !app_assoc.
    change (str "[" ++ ?t) with (91%N :: t).
    rewrite (app_assoc [NL] (JSON.indent (S depth))).
    apply read_value_array.
    + apply Forall_app. split; [repeat constructor | apply indent_blank].
    + apply (join_opens (S depth) JSON.write). intros r. apply write_opens.
    + rewrite <- app_assoc.
      change (str "]" ++ rest) with (93%N :: rest).
      rewrite app_assoc.
      apply read_elements_write; try assumption.
      * discriminate.
      * apply Forall_app. split; [repeat constructor | apply indent_blank].
      * apply indent_blank.
      * simpl in Hfuel. simpl. lia.
  - destruct members as [| kv members]; [reflexivity |].
    cbn [JSON.write]. fold (item_sep (S depth)).
    change (fun kv0 : text * JSON.value =>
              JSON.quote (fst kv0) ++ str ": " ++ JSON.write (S depth) (snd kv0))
      with (write_member (S depth)).
    rewrite <- !app_assoc.
    change (str "{" ++ ?t) with (123%N :: t).
    rewrite (app_assoc [NL] (JSON.indent (S depth))).
    apply read_value_object.
    + apply Forall_app. split; [repeat constructor | apply indent_blank].
    + apply join_members_opens.
    + rewrite <- app_assoc.
      change (str "}" ++ rest) with (125%N :: rest).
      rewrite app_assoc.
      apply read_members_write; try assumption.
      * discriminate.
      * apply Forall_app. split; [repeat constructor | apply indent_blank].
      * apply indent_blank.
      * simpl in Hfuel. simpl. lia.
Qed.

Lemma list_sum_map_le {A : Type} (f g : A -> nat) (l : list A) :
  Forall (fun x => (f x <= g x)%nat) l ->
  (list_sum (List.map f l) <= list_sum (List.map g l))%nat.
Proof. intros H. induction H; simpl; lia. Qed.

Lemma join_length_sum (sep : text) (ts : list text) :
  sep <> [] -> ts <> [] ->
  (list_sum (List.map (fun t => S (List.length t)) ts) <= S (List.length (join sep ts)))%nat.
Proof.
  intros Hsep. induction ts as [| t ts IH]; intros Hne; [congruence |].
  destruct ts as [| t2 ts].
  - simpl. lia.
  - rewrite join_cons by discriminate.
    change (list_sum (List.map (fun t0 => S (List.length t0)) (t :: t2 :: ts)))
      with (S (List.length t)
            + list_sum (List.map (fun t0 => S (List.length t0)) (t2 :: ts)))%nat.
    rewrite !length_app.
    specialize (IH ltac:(discriminate)).
    destruct sep as [| c0 sep]; [congruence |].
    change (List.length (c0 :: sep)) with (S (List.length sep)). lia.
Qed.

Lemma write_array (depth : nat) (x : JSON.value) (items : list JSON.value) :
  JSON.write depth (JSON.JArray (x :: items))
  = str "[" ++ [NL] ++ JSON.indent (S depth)
    ++ join (item_sep (S depth)) (List.map (JSON.write (S depth)) (x :: items))
    ++ [NL] ++ JSON.indent depth ++ str "]".
Proof. reflexivity. Qed.

Lemma write_object (depth : nat) (kv : text * JSON.value)
      (members : list (text * JSON.value)) :
  JSON.write depth (JSON.JObject (kv :: members))
  = str "{" ++ [NL] ++ JSON.indent (S depth)
    ++ join (item_sep (S depth)) (List.map (write_member (S depth)) (kv :: members))
    ++ [NL] ++ JSON.indent depth ++ str "}".
Proof. reflexivity. Qed.

Lemma size_le_length (v : JSON.value) :
  forall depth : nat, (value_size v <= List.length (JSON.write depth v))%nat.
Proof.
  induction v as [| b | z | s | items IH | members IH] using value_nested_ind;
    intros depth.
  - simpl. lia.
  - destruct b; simpl; lia.
  - destruct (text_of_Z_head z) as [c [r [E _]]]. simpl. rewrite E. simpl. lia.
  - simpl. lia.
  - destruct items as [| x items]; [simpl; lia |].
    rewrite write_array.
    change (value_size (JSON.JArray (x :: items)))
      with (S (list_sum (List.map (fun y => S (value_size y)) (x :: items)))).
    rewrite !length_app.
    pose proof (join_length_sum (item_sep (S depth))
                  (List.map (JSON.write (S depth)) (x :: items))
                  ltac:(discriminate) ltac:(discriminate)) as Hj.
    rewrite List.map_map in Hj.
    assert (Hs : (list_sum (List.map (fun y => S (value_size y)) (x :: items))
                  <= list_sum (List.map (fun y => S (List.length (JSON.write (S depth) y)))
                                        (x :: items)))%nat).
    { apply list_sum_map_le. rewrite List.Forall_forall in *. intros y Hy.
      specialize (IH y Hy (S depth)). lia. }
    change (List.length (str "[")) with 1%nat.
    change (List.length (str "]")) with 1%nat.
    change (List.length [NL]) with 1%nat. lia.
  - destruct members as [| kv members]; [simpl; lia |].
    rewrite write_object.
    change (value_size (JSON.JObject (kv :: members)))
      with (S (list_sum (List.map (fun y => S (value_size (snd y))) (kv :: members)))).
    rewrite !length_app.
    pose proof (join_length_sum (item_sep (S depth))
                  (List.map (write_member (S depth)) (kv :: members))
                  ltac:(discriminate) ltac:(discriminate)) as Hj.
    rewrite List.map_map in Hj.
    assert (Hs : (list_sum (List.map (fun y => S (value_size (snd y))) (kv :: members))
                  <= list_sum
                       (List.map
                          (fun y : text * JSON.value =>
                             S (List.length (write_member (S depth) y)))
                          (kv :: members)))%nat).
    { apply list_sum_map_le. rewrite List.Forall_forall in *. intros y Hy.
      specialize (IH y Hy (S depth)). unfold write_member.
      rewrite !length_app. lia. }
    change (List.length (str "{")) with 1%nat.
    change (List.length (str "}")) with 1%nat.
    change (List.length [NL]) with 1%nat. lia.
Qed.

(** Parsing the text of a value gives the value back. *)
Theorem parse_stringify (v : JSON.value) : JSON.parse (JSON.stringify v) = Some v.
Proof.
  unfold JSON.parse, JSON.stringify.
  pose proof (write_reads_back v 0%nat (S (List.length (JSON.write 0 v))) []) as H.
  rewrite app_nil_r in H. rewrite H; [reflexivity | | reflexivity].
  pose proof (size_le_length v 0%nat). lia.
Qed.

(** ** The session object and its JSON value *)

Lemma messages_of_json_to_json (ms : list Session.Message) :
  Session.messages_of_json (List.map Session.message_to_json ms) = Some ms.
Proof.
  induction ms as [| m ms IH]; [reflexivity |].
  cbn [List.map Session.messages_of_json]. rewrite IH.
  destruct m. reflexivity.
Qed.

Lemma session_of_json_to_json (s : Session.Session) :
  Session.session_of_json (Session.session_to_json s) = Some s.
Proof.
  unfold Session.session_to_json, Session.session_of_json.
  change (text_eqb (str "id") (str "id")) with true.
  change (text_eqb (str "name") (str "name")) with true.
  change (text_eqb (str "createdAt") (str "createdAt")) with true.
  change (text_eqb (str "messages") (str "messages")) with true.
  change (text_eqb (str "metadata") (str "metadata")) with true.
  change (text_eqb (str "model") (str "model")) with true.
  change (text_eqb (str "totalTurns") (str "totalTurns")) with true.
  cbn [andb]. rewrite messages_of_json_to_json.
  destruct s as [i n c ms [mo tt]]. reflexivity.
Qed.

(** ** Saving and loading a session *)


Lemma saveSession_written (w w' : Session.World) (s : Session.Session) :
  Session.currentSession (snd w) = Some s ->
  Session.saveSession w = (Session.Returned tt, w') ->
  snd w' = snd w
  /\ Session.readFile (fst w') (Session.session_file (Session.id s))
     = Session.Returned (JSON.stringify (Session.session_to_json s)).
Proof.
  destruct w as [fs m]. simpl. intros Hs Hsave.
  unfold Session.saveSession, Session.writeFile in Hsave. rewrite Hs in Hsave.
  destruct (Session.sessions_dir fs) as [d |] eqn:Hd; [| discriminate Hsave].
  injection Hsave as <-. simpl. split; [reflexivity |].
  unfold Session.readFile. simpl. rewrite lookup_insert_eq. reflexivity.
Qed.

Lemma loadSession_reads (sessionId : text) (fs : Session.FS)
      (m : Session.SessionManager) (s : Session.Session) :
  Session.readFile fs (Session.session_file sessionId)
  = Session.Returned (JSON.stringify (Session.session_to_json s)) ->
  Session.loadSession sessionId (fs, m)
  = (Some s, (fs, Session.set_current m (Some s))).
Proof.
  intros Hread. unfold Session.loadSession. rewrite Hread, parse_stringify.
  change (Session.session_to_json s)
    with (JSON.JObject
            [(str "id", JSON.JString (Session.id s));
             (str "name", JSON.JString (Session.name s));
             (str "createdAt", JSON.JString (Session.createdAt s));
             (str "messages",
               JSON.JArray (List.map Session.message_to_json (Session.messages s)));
             (str "metadata",
               JSON.JObject
                 [(str "model", JSON.JString (Session.model (Session.metadata s)));
                  (str "totalTurns",
                    JSON.JNumber (Session.totalTurns (Session.metadata s)))])]) at 1.
  cbv iota.
  fold (Session.session_to_json s). rewrite session_of_json_to_json. reflexivity.
Qed.

(** C6. When [saveSession] has written the current session, loading the
    session by its id returns that session, equal in all its fields, and
    leaves it as the current session; the same holds from any state of the
    manager. *)
Theorem save_load_roundtrip (w w' : Session.World) (s : Session.Session) :
  Session.currentSession (snd w) = Some s ->
  Session.saveSession w = (Session.Returned tt, w') ->
  Session.loadSession (Session.id s) w' = (Some s, w')
  /\ forall m2 : Session.SessionManager,
       Session.loadSession (Session.id s) (fst w', m2)
       = (Some s, (fst w', Session.set_current m2 (Some s))).
Proof.
  intros Hs Hsave.
  destruct (saveSession_written w w' s Hs Hsave) as [Hm Hread].
  split.
  - destruct w' as [fs' m']. cbn [fst snd] in *.
    rewrite (loadSession_reads _ fs' m' s Hread). f_equal. f_equal.
    subst m'. destruct (snd w) as [cur l]. simpl in Hs. subst cur. reflexivity.
  - intros m2. apply loadSession_reads, Hread.
Qed.

Lemma save_load_roundtrip_witness :
  Session.loadSession (Session.id sample_dialogue)
    (snd (Session.saveSession sample_store))
  = (Some sample_dialogue, snd (Session.saveSession sample_store))
  /\ forall m2 : Session.SessionManager,
       Session.loadSession (Session.id sample_dialogue)
         (fst (snd (Session.saveSession sample_store)), m2)
       = (Some sample_dialogue,
          (fst (snd (Session.saveSession sample_store)),
           Session.set_current m2 (Some sample_dialogue))).
Proof.
  apply (save_load_roundtrip sample_store (snd (Session.saveSession sample_store))
           sample_dialogue); reflexivity.
Defined.

(** ** Failures of the storage are answered, not raised *)

Lemma loadSession_missing (sessionId : text) (w : Session.World) (e : Session.error) :
  Session.readFile (fst w) (Session.session_file sessionId) = Session.Thrown e ->
  Session.loadSession sessionId w = (None, w).
Proof.
  destruct w as [fs m]. simpl. intros H. unfold Session.loadSession. rewrite H.
  reflexivity.
Qed.

Lemma loadSession_malformed (sessionId : text) (w : Session.World) (data : text) :
  Session.readFile (fst w) (Session.session_file sessionId) = Session.Returned data ->
  JSON.parse data = None ->
  Session.loadSession sessionId w = (None, w).
Proof.
  destruct w as [fs m]. simpl. intros H Hp. unfold Session.loadSession.
  rewrite H, Hp. reflexivity.
Qed.

Lemma loadSessionsList_unreadable (localeCompare : text -> text -> Z)
      (w : Session.World) (e : Session.error) :
  Session.readdir (fst w) = Session.Thrown e ->
  Session.loadSessionsList localeCompare w = (fst w, Session.set_sessions (snd w) []).
Proof.
  destruct w as [fs m]. simpl. intros H. unfold Session.loadSessionsList.
  rewrite H. reflexivity.
Qed.

Lemma deleteSession_missing (localeCompare : text -> text -> Z) (sessionId : text)
      (w : Session.World) (e : Session.error) :
  Session.unlink (fst w) (Session.session_file sessionId) = Session.Thrown e ->
  Session.deleteSession localeCompare sessionId w = (false, w).
Proof.
  destruct w as [fs m]. simpl. intros H. unfold Session.deleteSession.
  rewrite H. reflexivity.
Qed.

Lemma readdir_names (d : gmap text text) (f : text) :
  In f (List.map fst (map_to_list d)) <-> is_Some (d !! f).
Proof.
  rewrite in_map_iff. split.
  - intros [[k x] [<- Hkx]]. apply list_elem_of_In, elem_of_map_to_list in Hkx.
    simpl. eauto.
  - intros [x Hx]. exists (f, x). split; [reflexivity |].
    apply list_elem_of_In, elem_of_map_to_list. exact Hx.
Qed.

(** The listing after a deletion: the ids are those of the files left
    that end in [.json], each with its first [.json] taken out. *)
Lemma deleteSession_removed (localeCompare : text -> text -> Z) (sessionId : text)
      (d : gmap text text) (m : Session.SessionManager) (x : text) :
  d !! Session.session_file sessionId = Some x ->
  fst (Session.deleteSession localeCompare sessionId (Session.mkFS (Some d), m)) = true
  /\ Session.sessions_dir
       (fst (snd (Session.deleteSession localeCompare sessionId
                    (Session.mkFS (Some d), m))))
     = Some (delete (Session.session_file sessionId) d)
  /\ forall id' : text,
       In id' (Session.sessions
                 (snd (snd (Session.deleteSession localeCompare sessionId
                              (Session.mkFS (Some d), m)))))
       <-> exists f, f <> Session.session_file sessionId /\ is_Some (d !! f)
                     /\ endsWith f (str ".json") = true
                     /\ replace_first f (str ".json") [] = id'.
Proof.
  intros Hx. unfold Session.deleteSession, Session.unlink. simpl. rewrite Hx.
  unfold Session.loadSessionsList, Session.readdir. simpl.
  split; [reflexivity |]. split; [reflexivity |].
  intros id'. split.
  - intros H. apply (Permutation_in _ (sort_perm _ _)) in H.
    apply in_map_iff in H. destruct H as [f [Hf H]].
    apply filter_In in H. destruct H as [H Hends].
    apply readdir_names in H.
    exists f. destruct (decide (f = Session.session_file sessionId)) as [-> | Hne].
    + rewrite lookup_delete_eq in H. destruct H as [? H]. discriminate H.
    + rewrite lookup_delete_ne in H by congruence. auto.
  - intros [f [Hne [Hsome [Hends Hf]]]].
    apply (Permutation_in _ (Permutation_sym (sort_perm _ _))).
    apply in_map_iff. exists f. split; [exact Hf |].
    apply filter_In. split; [| exact Hends].
    apply readdir_names. rewrite lookup_delete_ne by congruence. exact Hsome.
Qed.

(** When every file name has its only [.json] at its end, the id deleted
    is gone from the listing. *)
Lemma deleteSession_unlisted (localeCompare : text -> text -> Z) (sessionId : text)
      (d : gmap text text) (m : Session.SessionManager) (x : text) :
  d !! Session.session_file sessionId = Some x ->
  (forall f, is_Some (d !! f) -> endsWith f (str ".json") = true ->
             replace_first f (str ".json") [] ++ str ".json" = f) ->
  ~ In sessionId
      (Session.sessions
         (snd (snd (Session.deleteSession localeCompare sessionId
                      (Session.mkFS (Some d), m))))).
Proof.
  intros Hx Hnames Hin.
  destruct (deleteSession_removed localeCompare sessionId d m x Hx) as [_ [_ H]].
  apply H in Hin. destruct Hin as [f [Hne [Hsome [Hends Hf]]]].
  apply Hne. rewrite <- (Hnames f Hsome Hends), Hf. reflexivity.
Qed.

(** C9 (the input on which it fails). With the files [a.json.json] and
    [.jsona.json] in the directory, deleting the session [a.json] removes
    the first file and returns [true]; the listing is then read from the
    file left, whose first [.json] is taken out, and holds the id
    [a.json] again. *)
Theorem deleteSession_stale_listing (localeCompare : text -> text -> Z) :
  Session.deleteSession localeCompare (str "a.json") stale_world
  = (true,
     (Session.mkFS (Some (<[str ".jsona.json" := str "{}"]> ∅)),
      Session.mkManager None [str "a.json"]))
  /\ In (str "a.json")
        (Session.sessions
           (snd (snd (Session.deleteSession localeCompare (str "a.json") stale_world)))).
Proof.
  assert (E : Session.deleteSession localeCompare (str "a.json") stale_world
              = (true,
                 (Session.mkFS (Some (<[str ".jsona.json" := str "{}"]> ∅)),
                  Session.mkManager None [str "a.json"]))).
  { vm_compute. reflexivity. }
  split; [exact E |]. rewrite E. left. reflexivity.
Qed.

(** * Further properties of the code *)

(** ** Occurrences of a text in a text *)

Lemma startsWith_prefix (p x : text) : startsWith (p ++ x) p = true.
Proof.
  induction p as [| c p IH]; [reflexivity |].
  cbn [app startsWith]. unfold char_eqb. rewrite N.eqb_refl. exact IH.
Qed.

Lemma startsWith_cons (x y : char) (s p : text) :
  startsWith (y :: s) (x :: p) = char_eqb x y && startsWith s p.
Proof. reflexivity. Qed.

Lemma includes_cons (c : char) (s needle : text) :
  includes (c :: s) needle = startsWith (c :: s) needle || includes s needle.
Proof. reflexivity. Qed.

Lemma includes_intro (pre needle post : text) :
  includes (pre ++ needle ++ post) needle = true.
Proof.
  induction pre as [| c pre IH].
  - cbn [app]. destruct (needle ++ post) eqn:E.
    + destruct needle; [reflexivity | discriminate E].
    + rewrite includes_cons, <- E, startsWith_prefix. reflexivity.
  - cbn [app]. rewrite includes_cons, IH. apply orb_true_r.
Qed.

Lemma includes_elim (s needle : text) :
  includes s needle = true -> exists pre post, s = pre ++ needle ++ post.
Proof.
  induction s as [| c s IH]; intros H.
  - destruct needle; [exists [], []; reflexivity | discriminate H].
  - rewrite includes_cons in H. apply orb_true_iff in H as [H | H].
    + exists [], (skipn (List.length needle) (c :: s)).
      apply startsWith_app. exact H.
    + destruct (IH H) as [pre [post E]].
      exists (c :: pre), post. rewrite E. reflexivity.
Qed.

Lemma includes_trans (s mid needle : text) :
  includes s mid = true -> includes mid needle = true -> includes s needle = true.
Proof.
  intros H1 H2.
  destruct (includes_elim _ _ H1) as [pre [post E1]].
  destruct (includes_elim _ _ H2) as [pre' [post' E2]].
  subst s mid.
  replace (pre ++ (pre' ++ needle ++ post') ++ post)
    with ((pre ++ pre') ++ needle ++ (post' ++ post))
    by (repeat rewrite <- app_assoc; reflexivity).
  apply includes_intro.
Qed.

Lemma includes_false_cons (c : char) (s needle : text) :
  includes (c :: s) needle = false ->
  startsWith (c :: s) needle = false /\ includes s needle = false.
Proof. rewrite includes_cons. apply orb_false_iff. Qed.

(** A pattern found at the front of [a ++ b0 :: b] lies within [a], or
    has [b0] at the position of the length of [a]. *)
Lemma startsWith_shift (a : text) :
  forall (p : text) (b0 : char) (b : text),
    startsWith (a ++ b0 :: b) p = true ->
    startsWith a p = true
    \/ exists p1 p2, p = p1 ++ b0 :: p2 /\ List.length p1 = List.length a.
Proof.
  induction a as [| c a IH]; intros p b0 b H.
  - destruct p as [| x p]; [left; reflexivity |].
    cbn [app] in H. rewrite startsWith_cons in H.
    apply andb_true_iff in H as [Hx _].
    apply N.eqb_eq in Hx. subst x.
    right. exists [], p. split; reflexivity.
  - destruct p as [| x p]; [left; reflexivity |].
    cbn [app] in H. rewrite startsWith_cons in H.
    apply andb_true_iff in H as [Hx H].
    destruct (IH p b0 b H) as [Hin | [p1 [p2 [E L]]]].
    + left. rewrite startsWith_cons, Hx, Hin. reflexivity.
    + right. exists (x :: p1), p2. split; [rewrite E; reflexivity | simpl; lia].
Qed.

Lemma replace_first_cons (c : char) (s pat rep : text) :
  replace_first (c :: s) pat rep
  = if startsWith (c :: s) pat then rep ++ skipn (List.length pat) (c :: s)
    else c :: replace_first s pat rep.
Proof. reflexivity. Qed.

(** Removing the first occurrence of a suffix whose first character does
    not occur again in it, from a text that has no other occurrence, gives
    the text in front of the suffix. *)
Lemma replace_first_own_suffix (p0 : char) (p a : text) :
  ~ In p0 p -> includes a (p0 :: p) = false ->
  replace_first (a ++ p0 :: p) (p0 :: p) [] = a.
Proof.
  intros Hp. induction a as [| c a IH]; intros H.
  - cbn [app]. rewrite replace_first_cons.
    rewrite <- (app_nil_r (p0 :: p)) at 1. rewrite startsWith_prefix.
    rewrite skipn_all. reflexivity.
  - apply includes_false_cons in H as [Hs Hi].
    cbn [app]. rewrite replace_first_cons.
    destruct (startsWith (c :: a ++ p0 :: p) (p0 :: p)) eqn:E.
    + exfalso.
      destruct (startsWith_shift (c :: a) (p0 :: p) p0 p E)
        as [Hin | [p1 [p2 [Ep L]]]].
      * rewrite Hin in Hs. discriminate Hs.
      * destruct p1 as [| x p1]; [discriminate L |].
        injection Ep as _ Ep. apply Hp. rewrite Ep.
        apply in_or_app. right. left. reflexivity.
    + rewrite (IH Hi). reflexivity.
Qed.


Lemma includes_char_in (c : char) (s : text) :
  includes s [c] = true <-> In c s.
Proof.
  induction s as [| x s IH].
  - split; [intros H; discriminate H | intros []].
  - rewrite includes_cons, startsWith_cons. cbn [startsWith].
    rewrite andb_true_r, orb_true_iff, IH. unfold char_eqb. rewrite N.eqb_eq.
    split; (intros [H | H]; [left; congruence | right; exact H]).
Qed.

Lemma includes_needs_head (s : text) (p0 : char) (p : text) :
  ~ In p0 s -> includes s (p0 :: p) = false.
Proof.
  intros H. destruct (includes s (p0 :: p)) eqn:E; [| reflexivity].
  exfalso. destruct (includes_elim _ _ E) as [pre [post Es]].
  apply H. rewrite Es. apply in_or_app. right. left. reflexivity.
Qed.

(** ** The session store: edge cases and compositions *)




Lemma filter_skipn_length {A : Type} (f : A -> bool) (k : nat) (l : list A) :
  (List.length (List.filter f (skipn k l)) <= List.length (List.filter f l))%nat.
Proof.
  rewrite <- (firstn_skipn k l) at 2.
  rewrite List.filter_app, length_app. lia.
Qed.

(** X2. The counter [totalTurns] that [addMessage] stores is the number of
    user messages among the former messages and the new one, counted before
    the history is cut: it is never less than the number of user messages
    kept, equals it as long as fewer than 20 messages were stored, and is at
    most the former length plus one. *)
Theorem addMessage_totalTurns (now role content : text) (s : Session.Session) :
  let s' := Session.addMessage_session now role content s in
  let users := fun l : list Session.Message =>
    Z.of_nat (List.length
                (List.filter (fun m => text_eqb (Session.role m) (str "user")) l)) in
  Session.totalTurns (Session.metadata s')
  = users (Session.messages s ++ [Session.mkMessage role content now])
  /\ users (Session.messages s') <= Session.totalTurns (Session.metadata s')
  /\ Session.totalTurns (Session.metadata s')
     <= Z.of_nat (List.length (Session.messages s)) + 1
  /\ ((List.length (Session.messages s) < 20)%nat ->
      Session.totalTurns (Session.metadata s') = users (Session.messages s')).
Proof.
  intros s' users.
  assert (Hm : Session.messages s'
               = last_entries 20 (Session.messages s ++ [Session.mkMessage role content now]))
    by apply addMessage_session_messages.
  assert (Ht : Session.totalTurns (Session.metadata s')
               = users (Session.messages s ++ [Session.mkMessage role content now])).
  { unfold s', Session.addMessage_session.
    destruct (_ >? _); reflexivity. }
  split; [exact Ht |].
  split.
  { rewrite Ht, Hm. unfold users, last_entries.
    apply inj_le. apply filter_skipn_length. }
  split.
  { rewrite Ht. unfold users.
    pose proof (List.filter_length_le
                  (fun m => text_eqb (Session.role m) (str "user"))
                  (Session.messages s ++ [Session.mkMessage role content now])) as H.
    rewrite length_app in H. simpl in H. lia. }
  intros Hlen. rewrite Ht, Hm.
  rewrite last_entries_short; [reflexivity |].
  rewrite length_app. simpl. lia.
Qed.

Lemma getRecentMessages_last (count : Z) (w : Session.World) (s : Session.Session) :
  Session.currentSession (snd w) = Some s ->
  0 < count ->
  Session.getRecentMessages count w
  = last_entries (Z.to_nat (2 * count)) (Session.messages s).
Proof.
  intros Hcur Hpos. unfold Session.getRecentMessages. rewrite Hcur.
  replace (- count * 2) with (- (2 * count)) by lia.
  rewrite slice_from_neg by lia. reflexivity.
Qed.

(** X3. [getRecentMessages(count)] with a positive [count] returns the
    last [2 * count] messages of the current session, all of them when there
    are fewer; with [count = 0] the index [-0] is [0] and the whole history
    is returned; without a current session the result is empty. *)
Theorem getRecentMessages_window (count : Z) (w : Session.World) (s : Session.Session) :
  Session.currentSession (snd w) = Some s ->
  0 < count ->
  Session.getRecentMessages count w
  = last_entries (Z.to_nat (2 * count)) (Session.messages s)
  /\ (List.length (Session.getRecentMessages count w) <= Z.to_nat (2 * count))%nat
  /\ ((List.length (Session.messages s) <= Z.to_nat (2 * count))%nat ->
      Session.getRecentMessages count w = Session.messages s)
  /\ Session.getRecentMessages 0 w = Session.messages s
  /\ Session.getRecentMessages count (fst w, Session.set_current (snd w) None) = [].
Proof.
  intros Hcur Hpos.
  assert (H : Session.getRecentMessages count w
              = last_entries (Z.to_nat (2 * count)) (Session.messages s)).
  { apply getRecentMessages_last; assumption. }
  split; [exact H |].
  split; [rewrite H; apply last_entries_length |].
  split; [intros Hlen; rewrite H; apply last_entries_short; exact Hlen |].
  split.
  - unfold Session.getRecentMessages. rewrite Hcur.
    change (- 0 * 2) with 0. unfold slice_from, rel_index.
    change (0 <? 0) with false. cbv iota.
    rewrite Z.min_l by lia. reflexivity.
  - reflexivity.
Qed.

Lemma getRecentMessages_window_witness :
  Session.getRecentMessages 3 sample_store
  = last_entries (Z.to_nat (2 * 3)) (Session.messages sample_dialogue)
  /\ (List.length (Session.getRecentMessages 3 sample_store) <= Z.to_nat (2 * 3))%nat
  /\ ((List.length (Session.messages sample_dialogue) <= Z.to_nat (2 * 3))%nat ->
      Session.getRecentMessages 3 sample_store = Session.messages sample_dialogue)
  /\ Session.getRecentMessages 0 sample_store = Session.messages sample_dialogue
  /\ Session.getRecentMessages 3
       (fst sample_store, Session.set_current (snd sample_store) None) = [].
Proof.
  apply (getRecentMessages_window 3 sample_store sample_dialogue);
    [reflexivity | lia].
Defined.

Lemma loadSessionsList_listing (localeCompare : text -> text -> Z)
      (fs : Session.FS) (m m2 : Session.SessionManager) :
  Session.loadSessionsList localeCompare (fs, m)
  = (fs, Session.set_sessions m
           (Session.sessions (snd (Session.loadSessionsList localeCompare (fs, m2))))).
Proof.
  unfold Session.loadSessionsList.
  destruct (Session.readdir fs); reflexivity.
Qed.

(** X4. [init] makes the sessions directory when it is missing, keeps
    every file of an existing one, leaves the current session alone, and is
    idempotent: a second [init] changes nothing. *)
Theorem init_idempotent (localeCompare : text -> text -> Z) (w : Session.World) :
  Session.init localeCompare (Session.init localeCompare w)
  = Session.init localeCompare w
  /\ Session.sessions_dir (fst (Session.init localeCompare w))
     = Some (match Session.sessions_dir (fst w) with Some d => d | None => ∅ end)
  /\ Session.currentSession (snd (Session.init localeCompare w))
     = Session.currentSession (snd w)
  /\ (Session.sessions_dir (fst w) = None ->
      Session.sessions (snd (Session.init localeCompare w)) = []).
Proof.
  destruct w as [[dir] m].
  unfold Session.init, Session.mkdir.
  cbn [Session.sessions_dir fst snd].
  destruct dir as [d |].
  - unfold Session.loadSessionsList, Session.readdir. cbn.
    repeat split. intros H; discriminate H.
  - unfold Session.loadSessionsList, Session.readdir. cbn.
    repeat split.
Qed.

(** ** Creating, listing and deleting sessions *)

Lemma loadSessionsList_spec (localeCompare : text -> text -> Z)
      (d : gmap text text) (m : Session.SessionManager) (id' : text) :
  In id' (Session.sessions
            (snd (Session.loadSessionsList localeCompare (Session.mkFS (Some d), m))))
  <-> exists f, is_Some (d !! f) /\ endsWith f (str ".json") = true
                /\ replace_first f (str ".json") [] = id'.
Proof.
  unfold Session.loadSessionsList, Session.readdir.
  cbn [Session.sessions_dir snd Session.sessions Session.set_sessions].
  split.
  - intros H. apply (Permutation_in _ (sort_perm _ _)) in H.
    apply in_map_iff in H. destruct H as [f [Hf H]].
    apply filter_In in H. destruct H as [H Hends].
    apply readdir_names in H. exists f. auto.
  - intros [f [Hsome [Hends Hf]]].
    apply (Permutation_in _ (Permutation_sym (sort_perm _ _))).
    apply in_map_iff. exists f. split; [exact Hf |].
    apply filter_In. split; [| exact Hends].
    apply readdir_names. exact Hsome.
Qed.

Lemma session_file_stem (sessionId : text) :
  includes sessionId (str ".json") = false ->
  replace_first (Session.session_file sessionId) (str ".json") [] = sessionId.
Proof.
  intros H. unfold Session.session_file.
  apply (replace_first_own_suffix 46%N (str "json")); [| exact H].
  intros Hin. repeat (destruct Hin as [Hin | Hin]; [discriminate Hin |]). exact Hin.
Qed.

Lemma createSession_current (MODEL now1 now2 : text) (name : option text)
      (w : Session.World) :
  let sessionName :=
    match name with
    | Some n => if truthy n then n
                else str "session-" ++ slice (Session.dash_colons_dots now1) 0 19
    | None => str "session-" ++ slice (Session.dash_colons_dots now1) 0 19
    end in
  Session.currentSession (snd (snd (Session.createSession MODEL now1 now2 name w)))
  = Some (Session.mkSession sessionName sessionName now2 []
            (Session.mkMetadata MODEL 0)).
Proof.
  destruct w as [fs m]. cbv zeta. unfold Session.createSession.
  unfold Session.saveSession.
  cbn [Session.currentSession Session.set_current].
  destruct (Session.writeFile _ _ _); reflexivity.
Qed.



Lemma dash_colons_dots_clean (s : text) :
  Forall (fun c => c <> 58%N /\ c <> 46%N) (Session.dash_colons_dots s).
Proof.
  unfold Session.dash_colons_dots. apply List.Forall_forall. intros c Hc.
  apply in_map_iff in Hc. destruct Hc as [x [Hx _]].
  unfold char_eqb in Hx.
  destruct (N.eqb_spec x 58) as [E1 | E1]; cbn [orb] in Hx.
  - subst c. split; discriminate.
  - destruct (N.eqb_spec x 46) as [E2 | E2].
    + subst c. split; discriminate.
    + subst c. split; assumption.
Qed.

Lemma Forall_firstn {A : Type} (P : A -> Prop) (n : nat) (l : list A) :
  Forall P l -> Forall P (firstn n l).
Proof.
  intros H. apply List.Forall_forall. intros x Hx.
  apply (proj1 (List.Forall_forall P l) H). apply (In_firstn n). exact Hx.
Qed.

(** X6. Without a name, or with the empty name, the id of the session
    that [createSession] makes current is [session-] followed by the first
    19 characters of the first clock reading with every colon and period
    turned into a dash.  It has at most 27 characters, none of them a colon
    or a period, and the listing turns the name of its file back into it. *)
Theorem createSession_default_id (MODEL now1 now2 : text) (w : Session.World) :
  exists s : Session.Session,
    Session.currentSession
      (snd (snd (Session.createSession MODEL now1 now2 None w))) = Some s
    /\ Session.currentSession
         (snd (snd (Session.createSession MODEL now1 now2 (Some []) w))) = Some s
    /\ Session.id s
       = str "session-" ++ firstn 19 (Session.dash_colons_dots now1)
    /\ (List.length (Session.id s) <= 27)%nat
    /\ Forall (fun c => c <> 58%N /\ c <> 46%N) (Session.id s)
    /\ replace_first (Session.session_file (Session.id s)) (str ".json") []
       = Session.id s.
Proof.
  set (s := Session.mkSession
              (str "session-" ++ slice (Session.dash_colons_dots now1) 0 19)
              (str "session-" ++ slice (Session.dash_colons_dots now1) 0 19)
              now2 [] (Session.mkMetadata MODEL 0)).
  assert (Hid : Session.id s
                = str "session-" ++ firstn 19 (Session.dash_colons_dots now1)).
  { cbn [s Session.id]. rewrite slice_prefix by lia. reflexivity. }
  assert (Hclean : Forall (fun c => c <> 58%N /\ c <> 46%N) (Session.id s)).
  { rewrite Hid. apply Forall_app. split.
    - repeat constructor; discriminate.
    - apply Forall_firstn, dash_colons_dots_clean. }
  exists s.
  split; [apply (createSession_current MODEL now1 now2 None w) |].
  split; [apply (createSession_current MODEL now1 now2 (Some []) w) |].
  split; [exact Hid |].
  split.
  { rewrite Hid, length_app, length_firstn.
    change (List.length (str "session-")) with 8%nat. lia. }
  split; [exact Hclean |].
  apply session_file_stem. apply includes_needs_head.
  intros Hin. apply (proj1 (List.Forall_forall _ _) Hclean) in Hin.
  destruct Hin as [_ Hin]. apply Hin. reflexivity.
Qed.





(** X9. Deleting a session whose file exists, in a directory where every
    file name has its only [.json] at its end: the call returns [true], the
    file and only the file is removed, the id is no longer listed nor
    loadable, and every other id is listed exactly when it was before. *)
Theorem deleteSession_existing (localeCompare : text -> text -> Z) (sessionId : text)
  (d : gmap text text) (m : Session.SessionManager) (x : text) :
  d !! Session.session_file sessionId = Some x ->
  (forall f, is_Some (d !! f) -> endsWith f (str ".json") = true ->
             replace_first f (str ".json") [] ++ str ".json" = f) ->
  let r := Session.deleteSession localeCompare sessionId (Session.mkFS (Some d), m) in
  fst r = true
  /\ Session.sessions_dir (fst (snd r))
     = Some (delete (Session.session_file sessionId) d)
  /\ ~ In sessionId (Session.sessions (snd (snd r)))
  /\ fst (Session.loadSession sessionId (snd r)) = None
  /\ forall id' : text,
       id' <> sessionId ->
       (In id' (Session.sessions (snd (snd r)))
        <-> In id' (Session.sessions
                      (snd (Session.loadSessionsList localeCompare
                              (Session.mkFS (Some d), m))))).
Proof.
  intros Hx Hnames r.
  destruct (deleteSession_removed localeCompare sessionId d m x Hx)
    as [Htrue [Hdir Hlist]].
  fold r in Htrue, Hdir, Hlist.
  split; [exact Htrue |]. split; [exact Hdir |].
  split.
  { intros Hin. apply Hlist in Hin. destruct Hin as [f [Hne [Hsome [Hends Hf]]]].
    apply Hne. rewrite <- (Hnames f Hsome Hends), Hf. reflexivity. }
  split.
  { rewrite (loadSession_missing sessionId (snd r) Session.ENOENT); [reflexivity |].
    unfold Session.readFile. rewrite Hdir. rewrite lookup_delete_eq. reflexivity. }
  intros id' Hid. rewrite Hlist, loadSessionsList_spec.
  split.
  - intros [f [_ H]]. exists f. exact H.
  - intros [f [Hsome [Hends Hf]]]. exists f.
    split; [| auto].
    intros ->. apply Hid. rewrite <- Hf.
    apply (app_inv_tail (str ".json")).
    exact (Hnames _ Hsome Hends).
Qed.

Lemma deleteSession_existing_witness :
  let r := Session.deleteSession (fun a b : text => 0) (str "a")
             (Session.mkFS (Some two_sessions), Session.constructor) in
  fst r = true
  /\ Session.sessions_dir (fst (snd r))
     = Some (delete (Session.session_file (str "a")) two_sessions)
  /\ ~ In (str "a") (Session.sessions (snd (snd r)))
  /\ fst (Session.loadSession (str "a") (snd r)) = None
  /\ forall id' : text,
       id' <> str "a" ->
       (In id' (Session.sessions (snd (snd r)))
        <-> In id' (Session.sessions
                      (snd (Session.loadSessionsList (fun a b : text => 0)
                              (Session.mkFS (Some two_sessions),
                               Session.constructor))))).
Proof.
  apply (deleteSession_existing (fun a b : text => 0) (str "a") two_sessions
           Session.constructor (str "{}")).
  - vm_compute. reflexivity.
  - intros f [y Hy] _. unfold two_sessions in Hy.
    apply lookup_insert_Some in Hy as [[<- _] | [_ Hy]]; [reflexivity |].
    apply lookup_insert_Some in Hy as [[<- _] | [_ Hy]]; [reflexivity |].
    rewrite lookup_empty in Hy. discriminate Hy.
Defined.

(** X10. Deleting the same id a second time returns [false] and changes
    nothing, whatever the first call did. *)
Theorem deleteSession_twice (localeCompare : text -> text -> Z) (sessionId : text)
  (w : Session.World) :
  Session.deleteSession localeCompare sessionId
    (snd (Session.deleteSession localeCompare sessionId w))
  = (false, snd (Session.deleteSession localeCompare sessionId w)).
Proof.
  apply (deleteSession_missing _ _ _ Session.ENOENT).
  destruct w as [[dir] m].
  unfold Session.deleteSession.
  destruct dir as [d |]; [| reflexivity].
  destruct (d !! Session.session_file sessionId) as [y |] eqn:E.
  - unfold Session.unlink at 2. cbn [Session.sessions_dir]. rewrite E.
    cbn [snd].
    rewrite (proj1 (loadSessionsList_manager localeCompare _)). cbn [fst].
    unfold Session.unlink. cbn [Session.sessions_dir].
    rewrite lookup_delete_eq. reflexivity.
  - unfold Session.unlink at 2. cbn [Session.sessions_dir]. rewrite E.
    cbn [snd fst]. unfold Session.unlink. cbn [Session.sessions_dir].
    rewrite E. reflexivity.
Qed.

(** ** The chunker: shape of the chunks *)

Lemma dropWhile_stop {A : Type} (f : A -> bool) (l : list A) :
  match l with x :: _ => f x = false | [] => True end -> dropWhile f l = l.
Proof.
  destruct l as [| x l]; [reflexivity |].
  intros H. cbn [dropWhile]. rewrite H. reflexivity.
Qed.

Lemma trim_idempotent (s : text) : trim (trim s) = trim s.
Proof.
  assert (Hstart : trimStart (trim s) = trim s).
  { apply dropWhile_stop. destruct (trim s) as [| c r] eqn:E; [exact I |].
    exact (trim_no_leading_space s c r E). }
  unfold trim at 1. rewrite Hstart.
  unfold trimEnd, trim, trimEnd. rewrite rev_involutive.
  rewrite (dropWhile_stop is_space (dropWhile is_space (rev (trimStart s))));
    [reflexivity |].
  destruct (dropWhile is_space (rev (trimStart s))) as [| c r] eqn:E; [exact I |].
  exact (dropWhile_head _ _ _ _ E).
Qed.

Lemma createChunks_loop_trimmed (chunkSize : Z) (ps : list text) :
  forall (chunks : list text) (cur : text),
    Forall (fun c => trim c = c) chunks ->
    Forall (fun c => trim c = c)
           (fst (fold_left (TaxGPT.createChunks_step chunkSize) ps (chunks, cur))).
Proof.
  induction ps as [| p ps IH]; intros chunks cur H; [exact H |].
  cbn [fold_left]. unfold TaxGPT.createChunks_step at 2.
  destruct (_ && _).
  - apply IH. apply Forall_app. split; [exact H |].
    constructor; [apply trim_idempotent | constructor].
  - apply IH. exact H.
Qed.

(** X11. Every chunk that [createChunks] returns is trimmed: it neither
    starts nor ends with white space, and trimming it again changes
    nothing. *)
Theorem createChunks_trimmed (t : text) (chunkSize : Z) (c : text) :
  In c (TaxGPT.createChunks t chunkSize) ->
  trim c = c
  /\ (forall x r, c = x :: r -> is_space x = false)
  /\ (forall x r, c = r ++ [x] -> is_space x = false).
Proof.
  intros Hc.
  assert (Hall : Forall (fun c => trim c = c) (TaxGPT.createChunks t chunkSize)).
  { unfold TaxGPT.createChunks.
    pose proof (createChunks_loop_trimmed chunkSize (split t TaxGPT.PARA) [] []
                  (List.Forall_nil _)) as H.
    destruct (fold_left _ _ _) as [chunks cur]. cbn [fst] in H.
    destruct (truthy (trim cur)); [| exact H].
    apply Forall_app. split; [exact H |].
    constructor; [apply trim_idempotent | constructor]. }
  assert (Ht : trim c = c) by exact (proj1 (List.Forall_forall _ _) Hall c Hc).
  split; [exact Ht |]. split.
  - intros x r E. apply (trim_no_leading_space c x r). rewrite Ht. exact E.
  - intros x r E.
    assert (Hr : rev c = dropWhile is_space (rev (trimStart c))).
    { rewrite <- Ht at 1. unfold trim, trimEnd. apply rev_involutive. }
    assert (Hs : trimStart c = c).
    { apply dropWhile_stop. destruct c as [| y c']; [exact I |].
      apply (trim_no_leading_space (y :: c') y c'). exact Ht. }
    rewrite Hs in Hr. rewrite E, rev_app_distr in Hr. cbn [rev app] in Hr.
    symmetry in Hr. exact (dropWhile_head _ _ _ _ Hr).
Qed.

Lemma createChunks_trimmed_witness :
  trim (str "alpha") = str "alpha"
  /\ (forall x r, str "alpha" = x :: r -> is_space x = false)
  /\ (forall x r, str "alpha" = r ++ [x] -> is_space x = false).
Proof.
  apply (createChunks_trimmed spaced_text 8 (str "alpha")).
  vm_compute. left. reflexivity.
Defined.

Lemma createChunks_loop_count (chunkSize : Z) (ps : list text) :
  forall (chunks : list text) (cur : text),
    (List.length (fst (fold_left (TaxGPT.createChunks_step chunkSize) ps (chunks, cur)))
     <= List.length chunks + List.length ps)%nat.
Proof.
  induction ps as [| p ps IH]; intros chunks cur; [cbn; lia |].
  cbn [fold_left List.length]. unfold TaxGPT.createChunks_step at 2.
  destruct (_ && _).
  - specialize (IH (chunks ++ [trim cur]) p). rewrite length_app in IH.
    cbn [List.length] in IH. etransitivity; [exact IH | lia].
  - specialize (IH chunks (cur ++ TaxGPT.PARA ++ p)).
    etransitivity; [exact IH | lia].
Qed.

(** X12. The bounds of [createChunks].  A chunk has at most
    [chunkSize + 2] characters, unless it is one whole paragraph, trimmed,
    that is longer than [chunkSize] by itself; and there are never more
    chunks than paragraphs. *)
Theorem createChunks_chunk_bound (t : text) (chunkSize : Z) (c : text) :
  In c (TaxGPT.createChunks t chunkSize) ->
  (len c <= chunkSize + 2
   \/ exists p, In p (split t TaxGPT.PARA) /\ chunkSize < len p /\ c = trim p)
  /\ (List.length (TaxGPT.createChunks t chunkSize)
      <= List.length (split t TaxGPT.PARA))%nat.
Proof.
  intros Hc. split; [exact (createChunks_size t chunkSize c Hc) |].
  unfold TaxGPT.createChunks.
  destruct (split t TaxGPT.PARA) as [| p ps] eqn:E.
  { exfalso. exact (split_go_nonempty _ _ _ E). }
  cbn [fold_left]. unfold TaxGPT.createChunks_step at 2.
  change (len [] >? 0) with false. rewrite andb_false_r.
  pose proof (createChunks_loop_count chunkSize ps [] ([] ++ TaxGPT.PARA ++ p)) as H.
  destruct (fold_left _ ps _) as [chunks cur]. cbn [fst List.length] in H |- *.
  destruct (truthy (trim cur)); [rewrite length_app; cbn [List.length] |]; lia.
Qed.

Lemma createChunks_chunk_bound_witness :
  (len (str "cccc" ++ TaxGPT.PARA ++ str "dddddd") <= 10 + 2
   \/ exists p, In p (split overflow_text TaxGPT.PARA) /\ 10 < len p
                /\ str "cccc" ++ TaxGPT.PARA ++ str "dddddd" = trim p)
  /\ (List.length (TaxGPT.createChunks overflow_text 10)
      <= List.length (split overflow_text TaxGPT.PARA))%nat.
Proof.
  apply (createChunks_chunk_bound overflow_text 10
           (str "cccc" ++ TaxGPT.PARA ++ str "dddddd")).
  vm_compute. right. left. reflexivity.
Defined.

Lemma split_none (sep s : text) :
  includes s sep = false -> split s sep = [s].
Proof.
  unfold split. induction s as [| c s IH]; intros H; [reflexivity |].
  apply includes_false_cons in H as [Hs Hi].
  rewrite split_go_cons, Hs, (IH Hi). reflexivity.
Qed.

(** X13. A text without the paragraph delimiter is never cut, whatever
    [chunkSize] is, a negative one included: the result is the trimmed text
    as the only chunk, or no chunk when the text is blank. *)
Theorem createChunks_single_paragraph (t : text) (chunkSize : Z) :
  includes t TaxGPT.PARA = false ->
  TaxGPT.createChunks t chunkSize = if truthy (trim t) then [trim t] else [].
Proof.
  intros H. unfold TaxGPT.createChunks.
  rewrite (split_none _ _ H). cbn [fold_left].
  unfold TaxGPT.createChunks_step.
  change (len [] >? 0) with false. rewrite andb_false_r.
  change ([] ++ TaxGPT.PARA ++ t) with (TaxGPT.PARA ++ t).
  rewrite (trim_blank_prefix TaxGPT.PARA t) by exact blank_PARA.
  reflexivity.
Qed.

Lemma createChunks_single_paragraph_witness :
  TaxGPT.createChunks (str " one long paragraph ") 5
  = if truthy (trim (str " one long paragraph "))
    then [trim (str " one long paragraph ")] else [].
Proof.
  apply (createChunks_single_paragraph (str " one long paragraph ") 5).
  reflexivity.
Defined.

(** ** The retriever: limits and scores *)

Lemma map_imap_inverse {A B : Type} (h : B -> A) (l : list A) :
  forall g : nat -> A -> B,
    (forall i x, h (g i x) = x) -> List.map h (imap g l) = l.
Proof.
  induction l as [| x l IH]; intros g Hg; [reflexivity |].
  cbn [imap List.map]. rewrite Hg. f_equal.
  apply IH. intros i y. apply Hg.
Qed.

Lemma score_all_chunks (chunks : list text) (query : text) :
  List.map TaxGPT.chunk (TaxGPT.score_all chunks query) = chunks.
Proof.
  unfold TaxGPT.score_all. apply map_imap_inverse. reflexivity.
Qed.

Lemma slice_to {A : Type} (l : list A) (stop : Z) :
  slice l 0 stop
  = firstn (Z.to_nat (if stop <? 0 then Z.of_nat (List.length l) + stop
                      else Z.min stop (Z.of_nat (List.length l)))) l.
Proof.
  unfold slice, rel_index. change (0 <? 0) with false. cbv iota.
  rewrite (Z.min_l 0) by lia. change (Z.to_nat 0) with 0%nat.
  rewrite Nat.sub_0_r. cbn [skipn].
  destruct (stop <? 0); [| reflexivity].
  f_equal. lia.
Qed.

(** X14. The result of [findRelevantChunks] for any limit is a prefix of
    the full ranking, which is a rearrangement of all the chunks: a limit
    of at least the number of chunks returns them all, and a negative limit
    [-k] does not return nothing but drops the [k] lowest ranked chunks. *)
Theorem findRelevantChunks_any_limit (chunks : list text) (query : text) :
  let n := Z.of_nat (List.length chunks) in
  let full := TaxGPT.findRelevantChunks chunks query n in
  Permutation full chunks
  /\ forall maxChunks : Z,
       TaxGPT.findRelevantChunks chunks query maxChunks
       = firstn (Z.to_nat (if maxChunks <? 0 then n + maxChunks
                           else Z.min maxChunks n)) full.
Proof.
  intros n full.
  set (cmp := fun a b : TaxGPT.Scored => TaxGPT.score b - TaxGPT.score a).
  set (sorted := sort cmp (TaxGPT.score_all chunks query)).
  assert (Hperm : Permutation sorted (TaxGPT.score_all chunks query))
    by apply sort_perm.
  assert (Hlen : List.length sorted = List.length chunks).
  { rewrite (Permutation_length Hperm).
    rewrite <- (length_map TaxGPT.chunk), score_all_chunks. reflexivity. }
  assert (Hany : forall maxChunks : Z,
            TaxGPT.findRelevantChunks chunks query maxChunks
            = firstn (Z.to_nat (if maxChunks <? 0 then n + maxChunks
                                else Z.min maxChunks n))
                     (List.map TaxGPT.chunk sorted)).
  { intros maxChunks. unfold TaxGPT.findRelevantChunks. fold cmp. fold sorted.
    rewrite slice_to, Hlen. fold n. symmetry. apply firstn_map. }
  assert (Hfull : full = List.map TaxGPT.chunk sorted).
  { unfold full. rewrite Hany.
    destruct (n <? 0) eqn:E; [apply Z.ltb_lt in E; unfold n in E; lia |].
    rewrite Z.min_id. apply firstn_all2.
    rewrite length_map, Hlen. unfold n. lia. }
  split.
  - rewrite Hfull.
    rewrite <- (score_all_chunks chunks query) at 1.
    apply Permutation_map. exact Hperm.
  - intros maxChunks. rewrite Hfull. apply Hany.
Qed.

Lemma split_ws_head_prefix (s : text) :
  exists post, s = hd [] (split_ws_go false s) ++ post.
Proof.
  induction s as [| c s [post IH]]; [exists []; reflexivity |].
  cbn [split_ws_go]. destruct (is_space c).
  - exists (c :: s). reflexivity.
  - exists post. destruct (split_ws_go false s) as [| h t]; cbn [cons_head hd] in *.
    + cbn [app] in IH. rewrite <- IH. reflexivity.
    + rewrite IH at 1. reflexivity.
Qed.

Lemma split_ws_go_nonempty (in_sep : bool) (s : text) : split_ws_go in_sep s <> [].
Proof.
  revert in_sep. induction s as [| c s IH]; intros in_sep; [discriminate |].
  cbn [split_ws_go]. destruct (is_space c).
  - destruct in_sep; [apply IH | discriminate].
  - destruct (split_ws_go false s); discriminate.
Qed.

Lemma split_ws_token_within (s : text) :
  forall (in_sep : bool) (tok : text),
    In tok (split_ws_go in_sep s) -> exists pre post, s = pre ++ tok ++ post.
Proof.
  induction s as [| c s IH]; intros in_sep tok H.
  - destruct H as [<- | []]. exists [], []. reflexivity.
  - cbn [split_ws_go] in H. destruct (is_space c).
    + assert (H' : tok = [] \/ In tok (split_ws_go true s)).
      { destruct in_sep; [right; exact H |].
        destruct H as [<- | H]; [left; reflexivity | right; exact H]. }
      destruct H' as [-> | H'].
      * exists [], (c :: s). reflexivity.
      * destruct (IH true tok H') as [pre [post E]].
        exists (c :: pre), post. rewrite E. reflexivity.
    + destruct (split_ws_head_prefix s) as [post Ehd].
      destruct (split_ws_go false s) as [| h t] eqn:E.
      * exfalso. exact (split_ws_go_nonempty false s E).
      * cbn [cons_head] in H. cbn [hd] in Ehd. destruct H as [<- | H].
        -- exists [], post. rewrite Ehd at 1. reflexivity.
        -- destruct (IH false tok) as [pre [post' E']].
           ++ rewrite E. right. exact H.
           ++ exists (c :: pre), post'. rewrite E'. reflexivity.
Qed.

Lemma keyword_within (queryLower kw : text) :
  In kw (TaxGPT.keywords_of queryLower) -> includes queryLower kw = true.
Proof.
  unfold TaxGPT.keywords_of, split_ws. intros H.
  apply filter_In in H. destruct H as [H _].
  destruct (split_ws_token_within _ _ _ H) as [pre [post E]].
  rewrite E. apply includes_intro.
Qed.

Lemma filter_all {A : Type} (f : A -> bool) (l : list A) :
  (forall x, In x l -> f x = true) -> List.filter f l = l.
Proof.
  induction l as [| x l IH]; intros H; [reflexivity |].
  cbn [List.filter]. rewrite (H x (or_introl eq_refl)). f_equal.
  apply IH. intros y Hy. apply H. right. exact Hy.
Qed.

(** X15. The score of a chunk lies between 0 and 11 plus twice the number
    of keywords of the query.  A chunk that contains the whole lower-cased
    query contains each of its keywords too, and scores at least 10 plus
    twice their number.  For the empty query every chunk contains it, there
    is no keyword, and the score is 10 or 11. *)
Theorem chunk_score_bounds (query chunk : text) :
  let k := Z.of_nat (List.length (TaxGPT.keywords_of (toLowerCase query))) in
  0 <= score_of query chunk <= 11 + 2 * k
  /\ (includes (toLowerCase chunk) (toLowerCase query) = true ->
      10 + 2 * k <= score_of query chunk)
  /\ score_of [] chunk
     = 10 + (if includes chunk (str "Table") || includes chunk (str "$")
             then 1 else 0).
Proof.
  intros k. unfold score_of. rewrite !chunk_score_closed.
  pose proof (List.filter_length_le (includes (toLowerCase chunk))
                (TaxGPT.keywords_of (toLowerCase query))) as Hle.
  fold k.
  split; [| split].
  - destruct (includes (toLowerCase chunk) (toLowerCase query));
      destruct (includes chunk (str "Table") || includes chunk (str "$")); lia.
  - intros Hall. rewrite Hall.
    rewrite filter_all.
    + fold k.
      destruct (includes chunk (str "Table") || includes chunk (str "$")); lia.
    + intros kw Hkw. apply (includes_trans _ (toLowerCase query)); [exact Hall |].
      apply keyword_within. exact Hkw.
  - change (toLowerCase []) with (@nil char).
    change (TaxGPT.keywords_of []) with (@nil text).
    cbn [List.filter List.length].
    destruct (toLowerCase chunk); reflexivity.
Qed.

(** ** The line formatter on plain text *)

Lemma replace_all_none (P : char -> Prop) (m : text -> option (text * nat)) :
  (forall t, Forall P t -> m t = None) ->
  forall s, Forall P s -> replace_all m s = s.
Proof.
  intros Hm. unfold replace_all.
  induction s as [| c s IH]; intros Hs; [reflexivity |].
  cbn [replace_go]. rewrite (Hm (c :: s) Hs).
  rewrite IH; [reflexivity |].
  inversion Hs; assumption.
Qed.

Lemma markup_char_false (c : char) :
  markup_char c = false ->
  char_eqb c 35%N = false /\ char_eqb c 36%N = false /\ char_eqb c 37%N = false
  /\ char_eqb c 42%N = false /\ char_eqb c 95%N = false.
Proof.
  unfold markup_char, char_eqb. intros H.
  repeat (apply orb_false_iff in H; destruct H as [H ?]).
  repeat split; assumption.
Qed.

Lemma char_eqb_sym (a b : char) : char_eqb a b = char_eqb b a.
Proof. apply N.eqb_sym. Qed.

Lemma startsWith_plain (t : text) (p0 : char) (p : text) :
  Forall (fun c => char_eqb c p0 = false) t -> startsWith t (p0 :: p) = false.
Proof.
  intros H. destruct t as [| c r]; [reflexivity |].
  apply startsWith_head_false. rewrite char_eqb_sym.
  inversion H; assumption.
Qed.

Lemma In_skipn_head {A : Type} (n : nat) (l : list A) (x : A) (r : list A) :
  skipn n l = x :: r -> In x l.
Proof.
  intros H. rewrite <- (firstn_skipn n l), H.
  apply in_or_app. right. left. reflexivity.
Qed.

Lemma match_percent_plain (t : text) :
  Forall (fun c => markup_char c = false) t -> Formatter.match_percent t = None.
Proof.
  intros H. unfold Formatter.match_percent.
  destruct (takeWhile is_digit t) as [| d run]; [reflexivity |].
  destruct (skipn (List.length (d :: run)) t) as [| p rest] eqn:E; [reflexivity |].
  apply In_skipn_head in E.
  apply (proj1 (List.Forall_forall _ _) H) in E.
  apply markup_char_false in E. destruct E as [_ [_ [E _]]].
  unfold Formatter.PERCENT. rewrite E. reflexivity.
Qed.

Lemma Forall_markup (t : text) (k : char) :
  markup_char k = true ->
  Forall (fun c => markup_char c = false) t ->
  Forall (fun c => char_eqb c k = false) t.
Proof.
  intros Hk H. apply List.Forall_forall. intros c Hc.
  apply (proj1 (List.Forall_forall _ _) H) in Hc.
  unfold char_eqb. destruct (N.eqb_spec c k) as [-> | _]; [| reflexivity].
  rewrite Hk in Hc. discriminate Hc.
Qed.

Lemma formatLine_unmarked (t : text) :
  Forall (fun c => markup_char c = false) t ->
  Formatter.formatLine t = t.
Proof.
  intros H.
  assert (Hd : forall u, Forall (fun c => markup_char c = false) u ->
                         Formatter.match_dollars u = None).
  { intros [| c r] Hc; [reflexivity |].
    cbn [Formatter.match_dollars]. inversion Hc as [| ? ? Hm _]; subst.
    apply markup_char_false in Hm. destruct Hm as [_ [Hm _]].
    unfold Formatter.DOLLAR. rewrite Hm. reflexivity. }
  assert (Hs : forall (p0 : char) (p : text) (st : Chalk.style) (u : text),
             markup_char p0 = true ->
             Forall (fun c => markup_char c = false) u ->
             Formatter.match_span (p0 :: p) st u = None).
  { intros p0 p st u Hp Hu. unfold Formatter.match_span.
    rewrite (startsWith_plain u p0) by (apply Forall_markup; assumption).
    reflexivity. }
  unfold Formatter.formatLine. cbv zeta.
  rewrite (replace_all_none _ _ Hd t H).
  rewrite (replace_all_none _ _ match_percent_plain t H).
  change (str "**") with (42%N :: str "*").
  rewrite (replace_all_none (fun c => markup_char c = false)
             (Formatter.match_span (42%N :: str "*") [Chalk.bold])
             (fun u => Hs 42%N (str "*") [Chalk.bold] u eq_refl) t H).
  change (str "_") with (95%N :: @nil char).
  rewrite (replace_all_none (fun c => markup_char c = false)
             (Formatter.match_span (95%N :: @nil char) [Chalk.italic])
             (fun u => Hs 95%N [] [Chalk.italic] u eq_refl) t H).
  assert (Hb : Formatter.replace_bullet t = t).
  { destruct t as [| c [| w rest]]; [reflexivity | reflexivity |].
    cbn [Formatter.replace_bullet]. inversion H as [| ? ? Hm _]; subst.
    apply markup_char_false in Hm. destruct Hm as [_ [_ [_ [Hm _]]]].
    unfold Formatter.STAR. rewrite Hm. reflexivity. }
  rewrite Hb.
  assert (Hh : forall p st, Formatter.replace_header (35%N :: p) st t = t).
  { intros p st. unfold Formatter.replace_header, Formatter.match_header.
    rewrite (startsWith_plain t 35%N) by (apply Forall_markup; [reflexivity | exact H]).
    reflexivity. }
  change (str "###") with (35%N :: str "##").
  rewrite Hh.
  change (str "##") with (35%N :: str "#").
  apply Hh.
Qed.

(** X16. A line without a number sign, dollar sign, percent sign, star or
    underscore is left as it is by [formatLine]: no escape sequence is
    added to plain text, and the stream renderer writes the line as it is
    behind its indent. *)
Theorem formatLine_plain (t : text) :
  Forall (fun c => markup_char c = false) t ->
  Formatter.formatLine t = t
  /\ TaxGPT.emit_line t = Chalk.applyStyle C.agent (str "  ") ++ t ++ [NL].
Proof.
  intros H.
  assert (E : Formatter.formatLine t = t) by (apply formatLine_unmarked; exact H).
  split; [exact E |].
  unfold TaxGPT.emit_line. rewrite E. reflexivity.
Qed.

Lemma formatLine_plain_witness :
  Formatter.formatLine (str "Filing status: single, age 65 or older")
  = str "Filing status: single, age 65 or older"
  /\ TaxGPT.emit_line (str "Filing status: single, age 65 or older")
     = Chalk.applyStyle C.agent (str "  ")
       ++ str "Filing status: single, age 65 or older" ++ [NL].
Proof.
  apply (formatLine_plain (str "Filing status: single, age 65 or older")).
  repeat constructor.
Defined.

Lemma strip_ansi_plain (s : text) :
  Forall (fun c => char_eqb c ESC = false) s -> Formatter.strip_ansi s = s.
Proof.
  apply (replace_all_none (fun c => char_eqb c ESC = false) Formatter.match_ansi).
  intros [| e [| b r]] H; [reflexivity | reflexivity |].
  cbn [Formatter.match_ansi]. inversion H as [| ? ? He _]; subst.
  rewrite He. reflexivity.
Qed.

(** ** Truncation of formatted text *)

Lemma truncateWithAnsi_go_prefix (maxLength : Z) (s : text) :
  forall (length : Z) (inAnsi : bool),
    exists rest, s = Formatter.truncateWithAnsi_go maxLength length inAnsi s ++ rest.
Proof.
  induction s as [| c s IH]; intros length inAnsi; [exists []; reflexivity |].
  cbn [Formatter.truncateWithAnsi_go].
  destruct (if char_eqb c ESC && match s with d :: _ => char_eqb d 91%N | [] => false end
            then true else inAnsi).
  - destruct (IH length (negb (char_eqb c 109%N))) as [rest E].
    exists rest. cbn [app]. rewrite <- E. reflexivity.
  - destruct (length >=? maxLength).
    + exists (c :: s). reflexivity.
    + destruct (IH (length + 1) false) as [rest E].
      exists rest. cbn [app]. rewrite <- E. reflexivity.
Qed.

Lemma truncateWithAnsi_go_plain (maxLength : Z) (s : text) :
  Forall (fun c => char_eqb c ESC = false) s ->
  forall length : Z,
    Formatter.truncateWithAnsi_go maxLength length false s
    = firstn (Z.to_nat (maxLength - length)) s.
Proof.
  induction 1 as [| c s Hc Hs IH]; intros length.
  - rewrite firstn_nil. reflexivity.
  - cbn [Formatter.truncateWithAnsi_go]. rewrite Hc. cbn [andb].
    destruct (length >=? maxLength) eqn:E.
    + apply Z.geb_le in E.
      replace (Z.to_nat (maxLength - length)) with 0%nat by lia. reflexivity.
    + rewrite Z.geb_leb in E. apply Z.leb_gt in E.
      replace (Z.to_nat (maxLength - length))
        with (S (Z.to_nat (maxLength - (length + 1)))) by lia.
      cbn [firstn]. rewrite IH. reflexivity.
Qed.

(** X17. [truncateWithAnsi] returns a prefix of its input, for every
    text and every limit.  On a text without the escape character it is
    [slice(0, maxLength)] for a limit that is not negative: the first
    [maxLength] characters, or the whole text when it is shorter; with a
    negative limit nothing of such a text is kept. *)
Theorem truncateWithAnsi_prefix (t : text) (maxLength : Z) :
  (exists rest, t = Formatter.truncateWithAnsi t maxLength ++ rest)
  /\ (Forall (fun c => char_eqb c ESC = false) t ->
      Formatter.truncateWithAnsi t maxLength = firstn (Z.to_nat maxLength) t
      /\ (0 <= maxLength -> Formatter.truncateWithAnsi t maxLength = slice t 0 maxLength)
      /\ (len t <= maxLength -> Formatter.truncateWithAnsi t maxLength = t)).
Proof.
  split; [apply truncateWithAnsi_go_prefix |].
  intros H.
  assert (E : Formatter.truncateWithAnsi t maxLength = firstn (Z.to_nat maxLength) t).
  { unfold Formatter.truncateWithAnsi. rewrite truncateWithAnsi_go_plain by exact H.
    rewrite Z.sub_0_r. reflexivity. }
  split; [exact E |]. split.
  - intros Hpos. rewrite E, slice_prefix by exact Hpos. reflexivity.
  - intros Hlen. rewrite E. apply firstn_all2. unfold len in Hlen. lia.
Qed.

(** ** The table renderer *)

Lemma takeWhile_nth_error {A : Type} (f : A -> bool) (l : list A) :
  forall k : nat,
    (k < List.length (takeWhile f l))%nat ->
    exists x, nth_error l k = Some x /\ f x = true.
Proof.
  induction l as [| y l IH]; intros k Hk; [simpl in Hk; lia |].
  cbn [takeWhile] in Hk. destruct (f y) eqn:E; [| simpl in Hk; lia].
  destruct k as [| k]; [exists y; split; [reflexivity | exact E] |].
  cbn [List.length] in Hk. cbn [nth_error]. apply IH. lia.
Qed.

Lemma takeWhile_stop {A : Type} (f : A -> bool) (l : list A) (x : A) :
  nth_error l (List.length (takeWhile f l)) = Some x -> f x = false.
Proof.
  induction l as [| y l IH]; [intros H; discriminate H |].
  cbn [takeWhile]. destruct (f y) eqn:E.
  - cbn [List.length nth_error]. exact IH.
  - cbn [List.length nth_error]. intros H. injection H as <-. exact E.
Qed.

Lemma takeWhile_length {A : Type} (f : A -> bool) (l : list A) :
  (List.length (takeWhile f l) <= List.length l)%nat.
Proof.
  induction l as [| y l IH]; [reflexivity |].
  cbn [takeWhile]. destruct (f y); simpl; lia.
Qed.

(** X18. When [renderTable] renders a table, the index it returns is at
    least two lines behind the start and within the lines: the loop of
    [renderMarkdown] always advances.  The lines passed over are exactly the
    run of lines that start with a pipe after trimming, and the rendered
    text is not empty.  When nothing is rendered the index is the start. *)
Theorem renderTable_progress (lines : list text) (i : nat) :
  match Formatter.renderTable lines i with
  | (None, endIdx) => endIdx = i
  | (Some rendered, endIdx) =>
      (i + 2 <= endIdx)%nat /\ (endIdx <= List.length lines)%nat
      /\ truthy rendered = true
      /\ (forall j, (i <= j < endIdx)%nat ->
            exists l, nth_error lines j = Some l /\ Formatter.is_table_line l = true)
      /\ (forall l, nth_error lines endIdx = Some l -> Formatter.is_table_line l = false)
  end.
Proof.
  rewrite renderTable_cases.
  set (block := Formatter.table_block lines i).
  destruct (no_table block) eqn:E; [reflexivity |].
  assert (H2 : (2 <= List.length block)%nat).
  { unfold no_table in E. apply orb_false_iff in E as [E _].
    apply orb_false_iff in E as [E _]. apply Nat.ltb_ge in E. exact E. }
  assert (Hle : (List.length block <= List.length lines - i)%nat).
  { unfold block, Formatter.table_block.
    rewrite <- length_skipn. apply takeWhile_length. }
  split; [lia |]. split; [lia |].
  split; [apply draw_table_truthy |].
  split.
  - intros j Hj.
    destruct (takeWhile_nth_error Formatter.is_table_line (skipn i lines) (j - i))
      as [l [Hl Ht]].
    { fold (Formatter.table_block lines i). fold block. lia. }
    exists l. split; [| exact Ht].
    rewrite nth_error_skipn in Hl. replace (i + (j - i))%nat with j in Hl by lia.
    exact Hl.
  - intros l Hl.
    apply (takeWhile_stop Formatter.is_table_line (skipn i lines)).
    fold (Formatter.table_block lines i). fold block.
    rewrite nth_error_skipn. exact Hl.
Qed.

Lemma fold_max_bounds (xs : list Z) :
  forall a : Z,
    a <= fold_left Z.max xs a
    /\ forall y, In y xs -> y <= fold_left Z.max xs a.
Proof.
  induction xs as [| x xs IH]; intros a.
  - split; [cbn; lia | intros y []].
  - cbn [fold_left]. destruct (IH (Z.max a x)) as [H1 H2].
    split; [lia |].
    intros y [<- | Hy]; [lia | apply H2; exact Hy].
Qed.

Lemma max_or_zero_upper (xs : list Z) (y : Z) :
  In y xs -> y <= Formatter.max_or_zero xs.
Proof.
  unfold Formatter.max_or_zero, max_list.
  destruct xs as [| x xs]; [intros [] |].
  destruct (fold_max_bounds xs x) as [H1 H2].
  intros [<- | Hy]; [exact H1 | apply H2; exact Hy].
Qed.

Lemma max_or_zero_nonneg (xs : list Z) :
  Forall (fun x => 0 <= x) xs -> 0 <= Formatter.max_or_zero xs.
Proof.
  unfold Formatter.max_or_zero, max_list.
  destruct xs as [| x xs]; [lia |].
  intros H. inversion H as [| ? ? Hx _]; subst.
  destruct (fold_max_bounds xs x) as [H1 _]. lia.
Qed.

Lemma column_widths_length (dataRows : list (list text)) (row : list text) :
  In row dataRows ->
  (List.length row <= List.length (Formatter.column_widths dataRows))%nat.
Proof.
  intros Hrow. unfold Formatter.column_widths.
  rewrite length_map, length_seq.
  assert (H : Z.of_nat (List.length row)
              <= Formatter.max_or_zero
                   (List.map (fun row => Z.of_nat (List.length row)) dataRows)).
  { apply max_or_zero_upper.
    apply (in_map (fun row => Z.of_nat (List.length row))). exact Hrow. }
  lia.
Qed.

Lemma column_widths_nth (dataRows : list (list text)) (col : nat) :
  (col < List.length (Formatter.column_widths dataRows))%nat ->
  nth col (Formatter.column_widths dataRows) 0
  = Z.min (Formatter.max_or_zero
             (List.map (fun row => len (Formatter.strip_ansi (nth col row [])))
                       dataRows) + 2) 35.
Proof.
  unfold Formatter.column_widths. rewrite length_map, length_seq. intros H.
  set (f := fun col : nat =>
              Z.min (Formatter.max_or_zero
                       (List.map (fun row => len (Formatter.strip_ansi (nth col row [])))
                                 dataRows) + 2) 35).
  match goal with
  | |- nth col (List.map _ ?s) 0 = _ => change (nth col (List.map f s) 0 = f col)
  end.
  rewrite (nth_indep _ 0 (f 0%nat)) by (rewrite length_map, length_seq; exact H).
  rewrite map_nth, seq_nth by exact H. reflexivity.
Qed.

Lemma strip_ansi_length_nonneg (dataRows : list (list text)) (col : nat) :
  0 <= Formatter.max_or_zero
         (List.map (fun row => len (Formatter.strip_ansi (nth col row [])))
                   dataRows).
Proof.
  apply max_or_zero_nonneg. apply List.Forall_forall.
  intros x Hx. apply in_map_iff in Hx. destruct Hx as [row [<- _]].
  unfold len. lia.
Qed.

Lemma column_width_range (dataRows : list (list text)) (col : nat) :
  (col < List.length (Formatter.column_widths dataRows))%nat ->
  2 <= nth col (Formatter.column_widths dataRows) 0 <= 35.
Proof.
  intros Hcol. rewrite column_widths_nth by exact Hcol.
  pose proof (strip_ansi_length_nonneg dataRows col). lia.
Qed.

(** X19. The column widths of a table: there is a width for every cell
    of every row; each width is between 2 and 35; and the width of a
    column is enough for each of its cells with one space on either side,
    unless that is more than 35. *)
Theorem column_widths_bounds (dataRows : list (list text)) :
  let colWidths := Formatter.column_widths dataRows in
  Forall (fun w => 2 <= w <= 35) colWidths
  /\ Forall (fun row => (List.length row <= List.length colWidths)%nat) dataRows
  /\ forall (row : list text) (col : nat) (cell : text),
       In row dataRows -> nth_error row col = Some cell ->
       nth col colWidths 0 = 35
       \/ len (Formatter.strip_ansi cell) + 2 <= nth col colWidths 0.
Proof.
  intros colWidths.
  split; [| split].
  - apply List.Forall_forall. intros w Hw.
    apply (In_nth _ _ 0) in Hw. destruct Hw as [col [Hcol <-]].
    apply column_width_range. exact Hcol.
  - apply List.Forall_forall. intros row Hrow.
    apply column_widths_length. exact Hrow.
  - intros row col cell Hrow Hcell.
    assert (Hcol : (col < List.length colWidths)%nat).
    { pose proof (column_widths_length dataRows row Hrow) as H1.
      assert (H2 : (col < List.length row)%nat)
        by (apply nth_error_Some; rewrite Hcell; discriminate).
      unfold colWidths. lia. }
    unfold colWidths. rewrite column_widths_nth by exact Hcol.
    assert (H : len (Formatter.strip_ansi cell)
                <= Formatter.max_or_zero
                     (List.map (fun row => len (Formatter.strip_ansi (nth col row [])))
                               dataRows)).
    { apply max_or_zero_upper.
      apply in_map_iff. exists row. split; [| exact Hrow].
      cbv beta. do 2 f_equal. apply nth_error_nth. exact Hcell. }
    lia.
Qed.

Lemma length_repeat_text_char (c : char) (n : Z) :
  len (repeat_text [c] n) = Z.max n 0.
Proof.
  unfold repeat_text, len.
  assert (H : forall k, List.length (List.concat (List.repeat [c] k)) = k).
  { induction k as [| k IH]; [reflexivity |]. cbn. rewrite IH. reflexivity. }
  rewrite H. lia.
Qed.

(** X20. The cells of a table are as wide as their column.  A header
    cell is cut or padded so that the text set in bold has exactly the
    width of the column, which is the length of the segment of the border
    above it; and a body cell without markup and without escape character
    is cut or padded to the same width. *)
Theorem table_cell_width (dataRows : list (list text)) (row : list text)
  (i : nat) (cell : text) :
  In row dataRows -> nth_error row i = Some cell ->
  let colWidths := Formatter.column_widths dataRows in
  (exists padded : text,
      Formatter.header_cell colWidths i cell = Chalk.applyStyle [Chalk.bold] padded
      /\ len padded = nth i colWidths 0)
  /\ len (repeat_text [Formatter.HBAR] (nth i colWidths 0)) = nth i colWidths 0
  /\ (Forall (fun c => markup_char c = false /\ char_eqb c ESC = false) cell ->
      len (Formatter.data_cell colWidths i cell) = nth i colWidths 0).
Proof.
  intros Hrow Hcell colWidths.
  set (w := nth i colWidths 0).
  assert (Hw : 2 <= w <= 35).
  { apply column_width_range.
    pose proof (column_widths_length dataRows row Hrow) as H1.
    assert (H2 : (i < List.length row)%nat)
      by (apply nth_error_Some; rewrite Hcell; discriminate).
    lia. }
  split; [| split].
  - eexists. split; [reflexivity |]. fold w.
    rewrite slice_prefix by lia. unfold padEnd, len.
    rewrite !length_app, repeat_length, !length_firstn. cbn [List.length].
    lia.
  - rewrite length_repeat_text_char. lia.
  - intros Hplain.
    assert (Hm : Forall (fun c => markup_char c = false) cell).
    { apply List.Forall_forall. intros c Hc.
      apply (proj1 (List.Forall_forall _ _) Hplain c Hc). }
    assert (He : Forall (fun c => char_eqb c ESC = false) cell).
    { apply List.Forall_forall. intros c Hc.
      apply (proj1 (List.Forall_forall _ _) Hplain c Hc). }
    unfold Formatter.data_cell. fold w.
    rewrite (formatLine_unmarked cell Hm), (strip_ansi_plain cell He).
    unfold Formatter.truncateWithAnsi.
    rewrite (truncateWithAnsi_go_plain (w - 2) cell He 0), Z.sub_0_r.
    assert (Hp : len (if w - 2 - Z.min (len cell) (w - 2) >? 0
                      then repeat_text [Formatter.SPACE] (w - 2 - Z.min (len cell) (w - 2))
                      else [])
                 = w - 2 - Z.min (len cell) (w - 2)).
    { destruct (_ >? _) eqn:E.
      - rewrite length_repeat_text_char. lia.
      - rewrite Z.gtb_ltb in E. apply Z.ltb_ge in E. unfold len at 1. simpl. lia. }
    unfold len in *. rewrite !length_app, length_firstn.
    cbn [List.length]. lia.
Qed.

Lemma table_cell_width_witness :
  let colWidths := Formatter.column_widths wide_rows in
  (exists padded : text,
      Formatter.header_cell colWidths 0 (str "Filing status")
      = Chalk.applyStyle [Chalk.bold] padded
      /\ len padded = nth 0 colWidths 0)
  /\ len (repeat_text [Formatter.HBAR] (nth 0 colWidths 0)) = nth 0 colWidths 0
  /\ (Forall (fun c => markup_char c = false /\ char_eqb c ESC = false)
        (str "Filing status") ->
      len (Formatter.data_cell colWidths 0 (str "Filing status")) = nth 0 colWidths 0).
Proof.
  apply (table_cell_width wide_rows [str "Filing status"; str "Amount"] 0
           (str "Filing status")).
  - left. reflexivity.
  - reflexivity.
Defined.

(** ** Markdown without tables *)

Lemma renderMarkdown_go_no_tables (lines rest : list text) :
  Forall (fun l => Formatter.is_table_line l = false) rest ->
  forall i : nat,
    Formatter.renderMarkdown_go lines i rest 0 = List.concat (List.map plain_line rest).
Proof.
  induction 1 as [| line rest Hl Hrest IH]; intros i; [reflexivity |].
  cbn [Formatter.renderMarkdown_go]. rewrite Hl, IH.
  cbn [List.map List.concat]. unfold plain_line at 2.
  rewrite <- app_assoc. reflexivity.
Qed.

(** X21. A text in which no line starts with a pipe after trimming is
    rendered line by line: each line is formatted by [formatLine] and
    followed by a line feed, so that the output has one line feed more than
    the lines of the input have between them. *)
Theorem renderMarkdown_no_tables (content : text) :
  Forall (fun l => Formatter.is_table_line l = false) (split content [NL]) ->
  Formatter.renderMarkdown content
  = List.concat (List.map plain_line (split content [NL]))
  /\ Formatter.renderMarkdown content
     = join [NL] (List.map Formatter.formatLine (split content [NL])) ++ [NL].
Proof.
  intros H.
  assert (E : Formatter.renderMarkdown content
              = List.concat (List.map plain_line (split content [NL]))).
  { unfold Formatter.renderMarkdown. apply renderMarkdown_go_no_tables. exact H. }
  split; [exact E |].
  rewrite E. symmetry. apply join_lines. apply split_go_nonempty.
Qed.

Lemma renderMarkdown_no_tables_witness :
  Formatter.renderMarkdown (str "## Deductions" ++ [NL] ++ str "Up to $3,000")
  = List.concat
      (List.map plain_line (split (str "## Deductions" ++ [NL] ++ str "Up to $3,000") [NL]))
  /\ Formatter.renderMarkdown (str "## Deductions" ++ [NL] ++ str "Up to $3,000")
     = join [NL]
         (List.map Formatter.formatLine
            (split (str "## Deductions" ++ [NL] ++ str "Up to $3,000") [NL]))
       ++ [NL].
Proof.
  apply (renderMarkdown_no_tables (str "## Deductions" ++ [NL] ++ str "Up to $3,000")).
  repeat constructor.
Defined.

Lemma In_join (sep : text) (c : char) (l : text) (ls : list text) :
  In l ls -> In c l -> In c (join sep ls).
Proof.
  induction ls as [| x ls IH]; intros Hl Hc; [destruct Hl |].
  destruct ls as [| y ls].
  - destruct Hl as [-> | []]. exact Hc.
  - rewrite join_cons by discriminate.
    destruct Hl as [-> | Hl].
    + apply in_or_app. left. exact Hc.
    + apply in_or_app. right. apply in_or_app. right. apply IH; assumption.
Qed.

Lemma split_line_chars (s l : text) (c : char) :
  In l (split s [NL]) -> In c l -> In c s.
Proof.
  intros Hl Hc. rewrite <- (join_split [NL] s) by discriminate.
  apply (In_join _ _ l); assumption.
Qed.

(** X22. A text without a pipe and without a number sign, dollar sign,
    percent sign, star or underscore passes through [renderMarkdown]
    unchanged, but for one line feed added at its end; the empty text gives
    a single line feed. *)
Theorem renderMarkdown_plain (content : text) :
  Forall (fun c => markup_char c = false /\ c <> Formatter.PIPE) content ->
  Formatter.renderMarkdown content = content ++ [NL].
Proof.
  intros H.
  assert (Hline : forall l, In l (split content [NL]) ->
            Formatter.is_table_line l = false /\ Formatter.formatLine l = l).
  { intros l Hl. split.
    - unfold Formatter.is_table_line.
      destruct (startsWith (trim l) [Formatter.PIPE]) eqn:E; [| reflexivity].
      exfalso. apply startsWith_app in E.
      destruct (trim_decompose l) as [lead [trail [_ [_ El]]]].
      assert (Hin : In Formatter.PIPE content).
      { apply (split_line_chars content l); [exact Hl |].
        rewrite El, E. apply in_or_app. right. left. reflexivity. }
      apply (proj1 (List.Forall_forall _ _) H) in Hin. destruct Hin as [_ Hin].
      apply Hin. reflexivity.
    - apply formatLine_unmarked. apply List.Forall_forall. intros c Hc.
      apply (proj1 (List.Forall_forall _ _) H).
      apply (split_line_chars content l); assumption. }
  unfold Formatter.renderMarkdown.
  rewrite renderMarkdown_go_no_tables
    by (apply List.Forall_forall; intros l Hl; apply Hline; exact Hl).
  rewrite <- (join_lines Formatter.formatLine) by apply split_go_nonempty.
  f_equal.
  rewrite <- (join_split [NL] content) at 2 by discriminate.
  f_equal. rewrite <- (map_id (split content [NL])) at 2.
  apply map_ext_in. intros l Hl. apply Hline. exact Hl.
Qed.

Lemma renderMarkdown_plain_witness :
  Formatter.renderMarkdown (str "Line one" ++ [NL] ++ str "line two")
  = (str "Line one" ++ [NL] ++ str "line two") ++ [NL].
Proof.
  apply (renderMarkdown_plain (str "Line one" ++ [NL] ++ str "line two")).
  repeat constructor; discriminate.
Defined.

(** ** The stream renderer: what is written for a response *)

Lemma stream_end_state (deltas : list text) :
  let received := List.concat deltas in
  let segs := split received [NL] in
  let st := TaxGPT.stream_flush (fold_left TaxGPT.stream_step deltas TaxGPT.stream_start) in
  TaxGPT.fullContent st = received
  /\ TaxGPT.lines st = (if truthy (List.last segs []) then segs else removelast segs)
  /\ TaxGPT.out st = TaxGPT.out TaxGPT.stream_start
                     ++ List.map TaxGPT.emit_line (TaxGPT.lines st).
Proof.
  intros received segs st.
  pose proof (stream_loop_inv deltas [] TaxGPT.stream_start stream_start_inv) as Hinv.
  cbn [app] in Hinv. fold received in Hinv.
  destruct (stream_inv_buffer _ _ Hinv) as [_ [Hlines Hcur]].
  destruct Hinv as [Hfull [Hsplit Hout]].
  fold segs in Hlines, Hcur, Hsplit.
  unfold st, TaxGPT.stream_flush. rewrite Hcur.
  set (st0 := fold_left TaxGPT.stream_step deltas TaxGPT.stream_start) in *.
  destruct (truthy (TaxGPT.currentLine st0)) eqn:E.
  - cbn [TaxGPT.fullContent TaxGPT.lines TaxGPT.out].
    split; [exact Hfull |]. split; [exact Hsplit |].
    rewrite Hout, List.map_app, <- app_assoc. reflexivity.
  - split; [exact Hfull |]. split; [symmetry; exact Hlines | exact Hout].
Qed.

(** X23. What [streamResponse] writes depends on the text received only:
    the header, then one formatted line for each line of the text (a last
    line that is empty is not written), and, when the text has a pipe, the
    codes that move the cursor up by the number of lines written plus two
    and clear the screen from there, followed by the whole text rendered as
    markdown.  The text returned is the text received. *)
Theorem streamResponse_closed_form (deltas : list text) :
  let received := List.concat deltas in
  let segs := split received [NL] in
  let shown := if truthy (List.last segs []) then segs else removelast segs in
  TaxGPT.streamResponse deltas
  = (TaxGPT.out TaxGPT.stream_start
     ++ List.map TaxGPT.emit_line shown
     ++ (if includes received [Formatter.PIPE]
         then [ESC :: str "[" ++ JSON.text_of_Z (Z.of_nat (List.length shown) + 2)
                   ++ str "A";
               ESC :: str "[0J";
               Chalk.applyStyle C.agent (Formatter.renderMarkdown received)]
         else []),
     received).
Proof.
  intros received segs shown.
  destruct (stream_end_state deltas) as [Hfull [Hlines Hout]].
  fold received in Hfull. fold received segs in Hlines. fold shown in Hlines.
  unfold TaxGPT.streamResponse, TaxGPT.stream_redraw.
  set (st := TaxGPT.stream_flush _) in *.
  rewrite Hfull.
  destruct (includes received [Formatter.PIPE]).
  - cbn [TaxGPT.out TaxGPT.fullContent].
    rewrite Hout, Hlines, ?Hfull, <- app_assoc. reflexivity.
  - rewrite Hout, Hlines, ?Hfull, app_nil_r. reflexivity.
Qed.

(** X24. The way a response is cut into deltas does not matter: two
    streams with the same concatenation write the same strings and return
    the same text.  In particular deltas without content can be left out,
    and a stream can be replaced by the single delta of its whole text. *)
Theorem streamResponse_chunking (deltas1 deltas2 : list text) :
  List.concat deltas1 = List.concat deltas2 ->
  TaxGPT.streamResponse deltas1 = TaxGPT.streamResponse deltas2
  /\ TaxGPT.streamResponse deltas1 = TaxGPT.streamResponse [List.concat deltas1]
  /\ TaxGPT.streamResponse deltas1
     = TaxGPT.streamResponse (List.filter truthy deltas1).
Proof.
  assert (H : forall d1 d2, List.concat d1 = List.concat d2 ->
                            TaxGPT.streamResponse d1 = TaxGPT.streamResponse d2).
  { intros d1 d2 E. unfold TaxGPT.streamResponse, TaxGPT.stream_redraw.
    destruct (stream_end_state d1) as [Hf1 [Hl1 Ho1]].
    destruct (stream_end_state d2) as [Hf2 [Hl2 Ho2]].
    rewrite <- E in Hf2, Hl2.
    set (st1 := TaxGPT.stream_flush _) in *.
    set (st2 := TaxGPT.stream_flush _) in *.
    rewrite Hf1, Hf2.
    destruct (includes (List.concat d1) [Formatter.PIPE]);
      cbn [TaxGPT.out TaxGPT.fullContent];
      rewrite Ho1, Ho2, Hl1, Hl2, ?Hf1, ?Hf2; reflexivity. }
  intros E. split; [exact (H _ _ E) |]. split.
  - apply H. cbn [List.concat]. rewrite app_nil_r. reflexivity.
  - apply H. clear. induction deltas1 as [| d ds IH]; [reflexivity |].
    cbn [List.concat List.filter]. destruct d as [| c d].
    + cbn [truthy app]. exact IH.
    + cbn [truthy List.concat]. rewrite IH. reflexivity.
Qed.

Lemma streamResponse_chunking_witness :
  TaxGPT.streamResponse [str "Hello "; str "wor"; str "ld" ++ [NL]; str "Rate: 22%"]
  = TaxGPT.streamResponse [str "Hello world" ++ [NL] ++ str "Ra"; []; str "te: 22%"]
  /\ TaxGPT.streamResponse [str "Hello "; str "wor"; str "ld" ++ [NL]; str "Rate: 22%"]
     = TaxGPT.streamResponse
         [List.concat [str "Hello "; str "wor"; str "ld" ++ [NL]; str "Rate: 22%"]]
  /\ TaxGPT.streamResponse [str "Hello "; str "wor"; str "ld" ++ [NL]; str "Rate: 22%"]
     = TaxGPT.streamResponse
         (List.filter truthy [str "Hello "; str "wor"; str "ld" ++ [NL]; str "Rate: 22%"]).
Proof.
  apply (streamResponse_chunking
           [str "Hello "; str "wor"; str "ld" ++ [NL]; str "Rate: 22%"]
           [str "Hello world" ++ [NL] ++ str "Ra"; []; str "te: 22%"]).
  reflexivity.
Defined.

(** ** The request of a question *)

Lemma last_entries_nested {A : Type} (n k : nat) (l : list A) :
  (n <= k)%nat -> last_entries n (last_entries k l) = last_entries n l.
Proof.
  intros H. unfold last_entries.
  rewrite skipn_skipn, length_skipn. f_equal. lia.
Qed.

Lemma last_entries_push {A : Type} (n : nat) (l : list A) (x : A) :
  last_entries (S n) (l ++ [x]) = last_entries n l ++ [x].
Proof.
  unfold last_entries. rewrite length_app. cbn [List.length].
  replace (List.length l + 1 - S n)%nat with (List.length l - n)%nat by lia.
  rewrite skipn_app.
  replace (List.length l - n - List.length l)%nat with 0%nat by lia.
  reflexivity.
Qed.

Lemma getRecentMessages_length (w : Session.World) :
  (List.length (Session.getRecentMessages 3 w) <= 6)%nat.
Proof.
  destruct (Session.currentSession (snd w)) as [s |] eqn:E.
  - rewrite (getRecentMessages_last 3 w s E) by lia.
    apply (last_entries_length 6).
  - unfold Session.getRecentMessages. rewrite E. simpl. lia.
Qed.

Lemma history_line_length (m : Session.Message) :
  len (Ask.history_line m) <= 114.
Proof.
  unfold Ask.history_line, Ask.substring0, len.
  rewrite !length_app, length_firstn.
  assert (H1 : (List.length (if text_eqb (Session.role m) (str "user")
                             then str "User" else str "Assistant") <= 9)%nat)
    by (destruct (text_eqb _ _); simpl; lia).
  assert (H2 : (List.length (if Z.of_nat (List.length (Session.content m)) >? 100
                             then str "..." else []) <= 3)%nat)
    by (destruct (_ >? _); simpl; lia).
  change (List.length (str ": ")) with 2%nat. lia.
Qed.

Lemma join_length_bound (sep : text) (bound : Z) (ls : list text) :
  Forall (fun l => len l <= bound) ls ->
  len (join sep ls)
  <= Z.of_nat (List.length ls) * bound + (Z.of_nat (List.length ls) - 1) * len sep
     \/ ls = [].
Proof.
  induction 1 as [| x ls Hx Hls IH]; [right; reflexivity |].
  left. destruct ls as [| y ls].
  - cbn [join List.length]. lia.
  - rewrite join_cons by discriminate.
    destruct IH as [IH | IH]; [| discriminate IH].
    unfold len in *. rewrite !length_app.
    cbn [List.length] in *. lia.
Qed.

Lemma historyContext_length (recent : list Session.Message) :
  (List.length recent <= 6)%nat -> len (Ask.historyContext recent) <= 689.
Proof.
  intros H. unfold Ask.historyContext.
  destruct (0 <? List.length recent)%nat; [| unfold len; simpl; lia].
  assert (Hall : Forall (fun l => len l <= 114) (List.map Ask.history_line recent)).
  { apply List.Forall_forall. intros l Hl. apply in_map_iff in Hl.
    destruct Hl as [m [<- _]]. apply history_line_length. }
  destruct (join_length_bound [NL] 114 _ Hall) as [E | E].
  - rewrite length_map in E. change (len [NL]) with 1 in E. lia.
  - rewrite E. unfold len. simpl. lia.
Qed.

Lemma truncatedContext_length (chunks : list text) (question : text) :
  len (Ask.truncatedContext chunks question) <= Ask.MAX_CONTEXT_CHARS + 3.
Proof.
  unfold Ask.truncatedContext.
  destruct (_ >? _) eqn:E.
  - unfold len, Ask.substring0. rewrite length_app, length_firstn.
    change (List.length (str "...")) with 3%nat. unfold Ask.MAX_CONTEXT_CHARS. lia.
  - rewrite Z.gtb_ltb in E. apply Z.ltb_ge in E. lia.
Qed.

(** X25. The request that [askQuestion] builds: the system prompt, then
    the last messages of the session (at most six, in their order and with
    their whole content), then the question, hence between two and eight
    messages.  The context put into the prompt has at most 120003
    characters, each line of the transcript at most 114, and the prompt is
    at most 120750 characters longer than its fixed wording.  The greeting
    is part of the prompt exactly when the session has no message. *)
Theorem askQuestion_request (INTRO GREETING : text) (chunks : list text)
  (question : text) (w : Session.World) :
  let recent := Session.getRecentMessages 3 w in
  let context := Ask.truncatedContext chunks question in
  let system :=
    Ask.buildSystemPrompt INTRO GREETING context (Ask.historyContext recent)
      (List.length recent =? 0)%nat in
  Ask.askQuestion_messages INTRO GREETING chunks question w
  = Ask.mkChat (str "system") system
    :: List.map chat_of recent ++ [Ask.mkChat (str "user") question]
  /\ (2 <= List.length (Ask.askQuestion_messages INTRO GREETING chunks question w) <= 8)%nat
  /\ len context <= 120003
  /\ Forall (fun m => len (Ask.history_line m) <= 114) recent
  /\ len system <= len INTRO + len GREETING + 120750
  /\ (recent = [] ->
      Ask.askQuestion_messages INTRO GREETING chunks question w
      = [Ask.mkChat (str "system")
           (INTRO ++ GREETING ++ str "IRS PUBLICATION 17 (2025) CONTEXT:" ++ [NL]
            ++ context ++ [NL; NL]);
         Ask.mkChat (str "user") question]).
Proof.
  intros recent context system.
  pose proof (getRecentMessages_length w) as Hrec. fold recent in Hrec.
  pose proof (truncatedContext_length chunks question) as Hctx. fold context in Hctx.
  unfold Ask.MAX_CONTEXT_CHARS in Hctx.
  split; [reflexivity |].
  split.
  { unfold Ask.askQuestion_messages. fold recent.
    rewrite length_app. cbn [List.length]. rewrite length_app, length_map.
    cbn [List.length]. lia. }
  split; [lia |].
  split.
  { apply List.Forall_forall. intros m _. apply history_line_length. }
  split.
  { pose proof (historyContext_length recent Hrec) as Hh.
    unfold system, Ask.buildSystemPrompt, len in *.
    rewrite !length_app.
    assert (H1 : (List.length (if (List.length recent =? 0)%nat then GREETING else [])
                  <= List.length GREETING)%nat)
      by (destruct (_ =? _)%nat; simpl; lia).
    assert (H2 : (List.length
                    (if truthy (Ask.historyContext recent)
                     then str "RECENT CONVERSATION:" ++ [NL] ++ Ask.historyContext recent
                     else [])
                  <= 21 + List.length (Ask.historyContext recent))%nat).
    { destruct (truthy _); [| simpl; lia].
      rewrite !length_app. change (List.length (str "RECENT CONVERSATION:")) with 20%nat.
      cbn [List.length]. lia. }
    change (List.length (str "IRS PUBLICATION 17 (2025) CONTEXT:")) with 34%nat.
    cbn [List.length]. lia. }
  intros E. unfold Ask.askQuestion_messages. fold recent. fold context.
  unfold system, Ask.buildSystemPrompt. rewrite E.
  cbn [List.length Nat.eqb List.map app Ask.historyContext Nat.ltb Nat.leb truthy].
  reflexivity.
Qed.

(** ** A turn of the conversation *)

Lemma addMessage_recent (now role content : text) (w : Session.World)
      (s : Session.Session) :
  Session.currentSession (snd w) = Some s ->
  Session.getRecentMessages 3 (Session.addMessage now role content w)
  = last_entries 5 (Session.messages s) ++ [Session.mkMessage role content now].
Proof.
  intros Hcur.
  assert (H : Session.currentSession (snd (Session.addMessage now role content w))
              = Some (Session.addMessage_session now role content s)).
  { rewrite addMessage_current, Hcur. reflexivity. }
  rewrite (getRecentMessages_last 3 _ _ H) by lia.
  rewrite addMessage_session_messages.
  change (Z.to_nat (2 * 3)) with 6%nat.
  rewrite last_entries_nested by lia.
  apply last_entries_push.
Qed.

(** X26. In a turn of the conversation the question is added to the
    session before it is asked.  The request therefore ends with the
    question twice, once as the last message of the history and once as the
    question itself, in front of them come the five messages before it at
    most, and the prompt never carries the greeting. *)
Theorem converse_request (INTRO GREETING : text) (chunks : list text)
  (now input : text) (w : Session.World) (s : Session.Session) :
  Session.currentSession (snd w) = Some s ->
  let w1 := Session.addMessage now (str "user") input w in
  let earlier := last_entries 5 (Session.messages s) in
  let asked := Session.mkMessage (str "user") input now in
  Session.getRecentMessages 3 w1 = earlier ++ [asked]
  /\ Ask.askQuestion_messages INTRO GREETING chunks input w1
     = Ask.mkChat (str "system")
         (Ask.buildSystemPrompt INTRO GREETING (Ask.truncatedContext chunks input)
            (Ask.historyContext (earlier ++ [asked])) false)
       :: List.map chat_of earlier
       ++ [Ask.mkChat (str "user") input; Ask.mkChat (str "user") input].
Proof.
  intros Hcur w1 earlier asked.
  assert (H : Session.getRecentMessages 3 w1 = earlier ++ [asked])
    by (apply addMessage_recent; exact Hcur).
  split; [exact H |].
  unfold Ask.askQuestion_messages. rewrite H.
  rewrite length_app. cbn [List.length].
  replace (List.length earlier + 1 =? 0)%nat with false
    by (symmetry; apply Nat.eqb_neq; lia).
  rewrite List.map_app, <- app_assoc. reflexivity.
Qed.

Lemma converse_request_witness :
  let w1 := Session.addMessage (str "t") (str "user") (str "And for 2026?") sample_store in
  let earlier := last_entries 5 (Session.messages sample_dialogue) in
  let asked := Session.mkMessage (str "user") (str "And for 2026?") (str "t") in
  Session.getRecentMessages 3 w1 = earlier ++ [asked]
  /\ Ask.askQuestion_messages (str "intro") (str "greeting") sample_chunks
       (str "And for 2026?") w1
     = Ask.mkChat (str "system")
         (Ask.buildSystemPrompt (str "intro") (str "greeting")
            (Ask.truncatedContext sample_chunks (str "And for 2026?"))
            (Ask.historyContext (earlier ++ [asked])) false)
       :: List.map chat_of earlier
       ++ [Ask.mkChat (str "user") (str "And for 2026?");
           Ask.mkChat (str "user") (str "And for 2026?")].
Proof.
  apply (converse_request (str "intro") (str "greeting") sample_chunks (str "t")
           (str "And for 2026?") sample_store sample_dialogue).
  reflexivity.
Defined.

Lemma addMessage_twice_messages (now1 now2 role1 role2 content1 content2 : text)
      (w : Session.World) (s : Session.Session) :
  Session.currentSession (snd w) = Some s ->
  exists s',
    Session.currentSession
      (snd (Session.addMessage now2 role2 content2
              (Session.addMessage now1 role1 content1 w))) = Some s'
    /\ Session.messages s'
       = last_entries 20
           (Session.messages s
            ++ [Session.mkMessage role1 content1 now1;
                Session.mkMessage role2 content2 now2]).
Proof.
  intros Hcur. eexists. split.
  - rewrite !addMessage_current, Hcur. reflexivity.
  - rewrite !addMessage_session_messages.
    rewrite (last_entries_app 20) by lia.
    rewrite <- app_assoc. reflexivity.
Qed.

(** X27. The outcome of a turn.  When the service answers, what is
    written is what the stream renderer writes for the deltas, and the
    session ends with the question and the whole answer (the history being
    cut to its last 20 messages).  When the service fails, the message of
    the error is handed back, with the text about the key for status 401,
    and the question stays in the session without an answer. *)
Theorem converse_history (INTRO GREETING MODEL : text)
  (create : text -> list Ask.ChatMessage -> list text + Ask.ApiError)
  (chunks : list text) (now1 now2 input : text)
  (w : Session.World) (s : Session.Session) :
  Session.currentSession (snd w) = Some s ->
  let asked := Session.mkMessage (str "user") input now1 in
  let request :=
    Ask.askQuestion_messages INTRO GREETING chunks input
      (Session.addMessage now1 (str "user") input w) in
  let r := Ask.converse INTRO GREETING MODEL create chunks now1 now2 input w in
  match create MODEL request with
  | inl stream =>
      fst r = inl (fst (TaxGPT.streamResponse stream))
      /\ exists s',
           Session.currentSession (snd (snd r)) = Some s'
           /\ Session.messages s'
              = last_entries 20
                  (Session.messages s
                   ++ [asked;
                       Session.mkMessage (str "assistant") (List.concat stream) now2])
  | inr error =>
      fst r
      = inr (match Ask.status error with
             | Some code =>
                 if code =? 401
                 then str "Invalid API key. Check OPENROUTER_API_KEY in .env"
                 else Ask.message error
             | None => Ask.message error
             end)
      /\ exists s',
           Session.currentSession (snd (snd r)) = Some s'
           /\ Session.messages s' = last_entries 20 (Session.messages s ++ [asked])
  end.
Proof.
  intros Hcur asked request r.
  unfold r, Ask.converse, Ask.askQuestion. fold request.
  destruct (create MODEL request) as [stream | error].
  - assert (Hsnd : snd (TaxGPT.streamResponse stream) = List.concat stream).
    { unfold TaxGPT.streamResponse. cbn [snd].
      rewrite stream_flush_redraw_content.
      exact (proj1 (stream_loop_inv stream [] TaxGPT.stream_start stream_start_inv)). }
    destruct (TaxGPT.streamResponse stream) as [written fullContent].
    cbn [snd] in Hsnd. subst fullContent. cbn [fst snd].
    split; [reflexivity |].
    apply addMessage_twice_messages. exact Hcur.
  - assert (Hkept : exists s',
              Session.currentSession
                (snd (Session.addMessage now1 (str "user") input w)) = Some s'
              /\ Session.messages s' = last_entries 20 (Session.messages s ++ [asked])).
    { eexists. split.
      - rewrite addMessage_current, Hcur. reflexivity.
      - apply addMessage_session_messages. }
    destruct (Ask.status error) as [code |]; [destruct (code =? 401) |];
      cbn [fst snd Ask.message]; (split; [reflexivity | exact Hkept]).
Qed.

Lemma converse_history_witness :
  let asked := Session.mkMessage (str "user") (str "And for 2026?") (str "t1") in
  let request :=
    Ask.askQuestion_messages (str "intro") (str "greeting") sample_chunks
      (str "And for 2026?")
      (Session.addMessage (str "t1") (str "user") (str "And for 2026?") sample_store) in
  let r := Ask.converse (str "intro") (str "greeting") (str "m") refusing_service
             sample_chunks (str "t1") (str "t2") (str "And for 2026?") sample_store in
  match refusing_service (str "m") request with
  | inl stream =>
      fst r = inl (fst (TaxGPT.streamResponse stream))
      /\ exists s',
           Session.currentSession (snd (snd r)) = Some s'
           /\ Session.messages s'
              = last_entries 20
                  (Session.messages sample_dialogue
                   ++ [asked;
                       Session.mkMessage (str "assistant") (List.concat stream)
                         (str "t2")])
  | inr error =>
      fst r
      = inr (match Ask.status error with
             | Some code =>
                 if code =? 401
                 then str "Invalid API key. Check OPENROUTER_API_KEY in .env"
                 else Ask.message error
             | None => Ask.message error
             end)
      /\ exists s',
           Session.currentSession (snd (snd r)) = Some s'
           /\ Session.messages s'
              = last_entries 20 (Session.messages sample_dialogue ++ [asked])
  end.
Proof.
  apply (converse_history (str "intro") (str "greeting") (str "m") refusing_service
           sample_chunks (str "t1") (str "t2") (str "And for 2026?")
           sample_store sample_dialogue).
  reflexivity.
Defined.

(** ** Commands on the history and on the sessions *)







(** ** Routing of the input *)



